(** * tst-mark-tabs: the caches behind the tab markers

    A shallow embedding of
    - [TSTCustomStateCache] (tree-style-tab/custom-state-cache.js): the cache
      of the classes ("states") that Tree Style Tab is believed to show, with
      its per (tabId, className) operation queue;
    - [SessionDataCache] (common/session-data-cache.js): the cache of the
      session values of tabs;
    - the module state of background/marker-tab-data.js.

    JavaScript runs one job at a time: an async function runs without
    interruption from one [await] to the next.  A suspended async function is
    modelled by a record holding its local variables and the [await] it is
    suspended at; an event of the machine is either a call from outside or
    the resumption of one suspended function.  The machines accept the
    resumptions in any order, which covers the order of the job queue. *)

From stdpp Require Import gmap strings list fin_maps sorting pretty.
From Stdlib Require Import ZArith Lia.

Local Open Scope Z_scope.

(** ** Objects whose keys keep their insertion order

    [Object.keys] and [Object.entries] list string keys in insertion order
    (class names are not integer-like), so an object used as a dictionary of
    class names is an association list without repeated keys. *)
Module Assoc.

Fixpoint lookup {A} (k : string) (l : list (string * A)) : option A :=
  match l with
  | [] => None
  | (k', v) :: l' => if String.eqb k k' then Some v else lookup k l'
  end.

(** [obj[k] = v]: overwrite in place, or append a new key. *)
Fixpoint set {A} (k : string) (v : A) (l : list (string * A)) : list (string * A) :=
  match l with
  | [] => [(k, v)]
  | (k', v') :: l' =>
      if String.eqb k k' then (k, v) :: l' else (k', v') :: set k v l'
  end.

Definition keys {A} (l : list (string * A)) : list string := map fst l.

End Assoc.

(** ** TSTCustomStateCache (tree-style-tab/custom-state-cache.js) *)
Module CustomStateCache.

(** A JavaScript value that is [undefined] or a boolean: the values that the
    callbacks of the queue return and that its promises resolve with. *)
Definition truthy (v : option bool) : bool :=
  match v with Some true => true | _ => false end.

(** [notifyTabStateToTST(tabIds, states, value)] (tree-style-tab/custom-state.js,
    outside the sources at hand): a message to Tree Style Tab.  Its promise
    resolves with a boolean (was Tree Style Tab notified?) or rejects. *)
Record mirror_call := MirrorCall {
  mc_tabIds : list Z;
  mc_states : list string;
  mc_value : bool;
}.

Inductive mirror_reply :=
  | Acked (tstWasNotified : bool)
  | Threw.

(** One entry of [_statesCaches]:
    [cache]: tabId -> is the class present for the tab;
    [ops]: tabId -> promise of the last operation queued for the tab
    (a promise is named by the index of the operation that created it). *)
Record state_cache := StateCache {
  cache : gmap Z bool;
  ops : gmap Z nat;
}.

Definition empty_state_cache : state_cache :=
  {| cache := ∅; ops := ∅ |}.

(** The two callbacks that the class hands to [_queueOp]. *)
Inductive op_kind :=
  | OpSet (value : bool)   (* the callback of [set], lines 410-428 *)
  | OpTabRemoved.          (* the callback of [_onTabRemoved], lines 99-105 *)

Definition setOpReturnValue (k : op_kind) : bool :=
  match k with OpSet _ => false | OpTabRemoved => true end.

Definition defaultValue (k : op_kind) : option bool :=
  match k with OpSet _ => Some false | OpTabRemoved => None end.

Inductive cb_result :=
  | CbReturn (v : bool)
  | CbThrow.

Inductive outcome :=
  | Resolved (v : option bool)
  | Rejected.

(** How a call of a method that is not async ends: it returns a value, or it
    throws a [TypeError] (a property of [undefined] was accessed). *)
Inductive result (A : Type) :=
  | Returns (a : A)
  | Throws.
Arguments Returns {A} a.
Arguments Throws {A}.

(** Where a call of [_queueOp] is suspended. *)
Inductive suspension :=
  | PAwaitLast                 (* line 206: [await lastOp] *)
  | PInCallback                (* line 416, inside the callback of [set]:
                                  [await notifyTabStateToTST(...)] *)
  | PAwaitCallback (r : cb_result)
                               (* line 214: the callback has returned,
                                  [value = await callback()] not yet resumed *)
  | PAwaitPromise              (* line 226: [await promise], promise settled *)
  | PFinished (out : outcome). (* the promise of [_queueOp] is settled *)

#[global] Instance cb_result_eq_dec : EqDecision cb_result.
Proof. solve_decision. Defined.
#[global] Instance outcome_eq_dec : EqDecision outcome.
Proof. solve_decision. Defined.
#[global] Instance result_eq_dec {A} `{EqDecision A} : EqDecision (result A).
Proof. solve_decision. Defined.
#[global] Instance suspension_eq_dec : EqDecision suspension.
Proof. solve_decision. Defined.
#[global] Instance op_kind_eq_dec : EqDecision op_kind.
Proof. solve_decision. Defined.
#[global] Instance mirror_call_eq_dec : EqDecision mirror_call.
Proof. solve_decision. Defined.
#[global] Instance mirror_reply_eq_dec : EqDecision mirror_reply.
Proof. solve_decision. Defined.

(** The local variables of one call of [_queueOp] that got past line 197. *)
Record op := Op {
  op_tabId : Z;
  op_state : string;
  op_kind_of : op_kind;
  op_lastOp : option nat;              (* [lastOp]; [None] is [undefined] *)
  op_promise : option (option bool);   (* [promise]: pending, or resolved with a value *)
  op_value : option bool;              (* [value] *)
  op_outerError : bool;                (* [outerError !== null] *)
  op_pc : suspension;
}.

Definition set_pc (pc : suspension) (o : op) : op :=
  {| op_tabId := op_tabId o; op_state := op_state o; op_kind_of := op_kind_of o;
     op_lastOp := op_lastOp o; op_promise := op_promise o;
     op_value := op_value o; op_outerError := op_outerError o; op_pc := pc |}.

Definition resolve_promise (v : option bool) (o : op) : op :=
  {| op_tabId := op_tabId o; op_state := op_state o; op_kind_of := op_kind_of o;
     op_lastOp := op_lastOp o; op_promise := Some v;
     op_value := op_value o; op_outerError := op_outerError o;
     op_pc := PAwaitPromise |}.

Definition set_value (v : option bool) (err : bool) (o : op) : op :=
  {| op_tabId := op_tabId o; op_state := op_state o; op_kind_of := op_kind_of o;
     op_lastOp := op_lastOp o; op_promise := op_promise o;
     op_value := v; op_outerError := err; op_pc := op_pc o |}.

(** The cache object, and the history of what it did ([opsList], [mirrorLog]
    and [startLog] are not fields of the class: they record every queued
    operation, every message sent to Tree Style Tab and every callback that
    was invoked, in order). *)
Record t := Cache {
  _classNames : option (list string);
  isDisposed : bool;
  _statesCaches : list (string * state_cache);
  opsList : list op;
  mirrorLog : list (nat * mirror_call);
  startLog : list nat;
}.

(** [new TSTCustomStateCache({ classNames })], line 69, for [classNames] that
    is [null] or an array. *)
Definition new (classNames : option (list string)) : t :=
  {| _classNames := classNames; isDisposed := false; _statesCaches := [];
     opsList := []; mirrorLog := []; startLog := [] |}.

Definition with_statesCaches (scs : list (string * state_cache)) (s : t) : t :=
  {| _classNames := _classNames s; isDisposed := isDisposed s;
     _statesCaches := scs; opsList := opsList s;
     mirrorLog := mirrorLog s; startLog := startLog s |}.

Definition with_opsList (l : list op) (s : t) : t :=
  {| _classNames := _classNames s; isDisposed := isDisposed s;
     _statesCaches := _statesCaches s; opsList := l;
     mirrorLog := mirrorLog s; startLog := startLog s |}.

Definition log_mirror (i : nat) (c : mirror_call) (s : t) : t :=
  {| _classNames := _classNames s; isDisposed := isDisposed s;
     _statesCaches := _statesCaches s; opsList := opsList s;
     mirrorLog := mirrorLog s ++ [(i, c)]; startLog := startLog s |}.

Definition log_start (i : nat) (s : t) : t :=
  {| _classNames := _classNames s; isDisposed := isDisposed s;
     _statesCaches := _statesCaches s; opsList := opsList s;
     mirrorLog := mirrorLog s; startLog := startLog s ++ [i] |}.

(** Is the class name allowed?  Line 168:
    [!state || (this._classNames && !this._classNames.includes(state))]. *)
Definition allowed (s : t) (state : string) : bool :=
  negb (String.eqb state "") &&
  match _classNames s with
  | Some names => bool_decide (state ∈ names)
  | None => true
  end.

(** [_statesCaches] is a plain object ([{}], lines 72 and 537), so
    [this._statesCaches[state]] of line 171 finds, for a name that is not a
    key of the object itself, the member of [Object.prototype] of that name,
    if there is one (ECMAScript, 20.1.3 and B.2.2.1).  Each of them is a
    function, or [Object.prototype] itself for ["__proto__"]: a truthy value
    that has neither a property [cache] nor a property [ops]. *)
Definition Object_prototype : list string :=
  ["constructor"; "hasOwnProperty"; "isPrototypeOf"; "propertyIsEnumerable";
   "toLocaleString"; "toString"; "valueOf"; "__proto__";
   "__defineGetter__"; "__defineSetter__"; "__lookupGetter__"; "__lookupSetter__"].

Definition inherited (state : string) : bool :=
  existsb (String.eqb state) Object_prototype.
Arguments inherited : simpl never.

(** What [_getCache(state)] returns. *)
Inductive cache_ref :=
  | NoCache                  (* [null] *)
  | Entry (c : state_cache)  (* an entry of [_statesCaches] *)
  | Inherited.               (* a member of [Object.prototype] *)

(** [_getCache(state)], lines 167-180.  The entry it returns is the one of
    [_statesCaches] under [state]: the model returns its current content, and
    writes to it go through [update_state_cache].  No entry is created under
    the name of a member of [Object.prototype], which line 172 finds truthy. *)
Definition _getCache (state : string) (s : t) : cache_ref * t :=
  if isDisposed s || negb (allowed s state) then (NoCache, s)
  else match Assoc.lookup state (_statesCaches s) with
       | Some c => (Entry c, s)
       | None =>
           if inherited state then (Inherited, s)
           else (Entry empty_state_cache,
                 with_statesCaches (Assoc.set state empty_state_cache (_statesCaches s)) s)
       end.

(** [this._statesCaches[state]] is not an entry of the cache but a member of
    [Object.prototype]. *)
Definition foreign (s : t) (state : string) : bool :=
  match Assoc.lookup state (_statesCaches s) with
  | Some _ => false
  | None => inherited state
  end.

(** A write to the object that [_getCache(state)] returned.  After [dispose]
    that object is no longer reachable from the cache (line 537 replaces
    [_statesCaches]), so the write is not observable and the model drops it. *)
Definition update_state_cache (state : string) (f : state_cache → state_cache) (s : t) : t :=
  match Assoc.lookup state (_statesCaches s) with
  | Some c => with_statesCaches (Assoc.set state (f c) (_statesCaches s)) s
  | None => s
  end.

Definition cache_write (tabId : Z) (v : bool) (c : state_cache) : state_cache :=
  {| cache := <[tabId := v]> (cache c); ops := ops c |}.

Definition cache_delete (tabId : Z) (c : state_cache) : state_cache :=
  {| cache := delete tabId (cache c); ops := ops c |}.

Definition ops_write (tabId : Z) (i : nat) (c : state_cache) : state_cache :=
  {| cache := cache c; ops := <[tabId := i]> (ops c) |}.

Definition ops_delete (tabId : Z) (c : state_cache) : state_cache :=
  {| cache := cache c; ops := delete tabId (ops c) |}.

(** [get(tabId, state)], lines 441-445.  For a member of
    [Object.prototype], [cache.cache] is [undefined] and line 444 throws. *)
Definition get (tabId : Z) (state : string) (s : t) : result bool * t :=
  match _getCache state s with
  | (NoCache, s') => (Returns false, s')
  | (Entry c, s') => (Returns (default false (cache c !! tabId)), s')
  | (Inherited, s') => (Throws, s')
  end.

(** [getTabStates(tabId)], lines 489-498. *)
Definition getTabStates (tabId : Z) (s : t) : list string :=
  if isDisposed s then []
  else omap (λ '(state, c),
              if default false (cache c !! tabId) then Some state else None)
            (_statesCaches s).

(** [getAffectedTabIds(state)], lines 469-480 (the ids in the order of
    [map_to_list]).  For a member of [Object.prototype],
    [Object.entries(cache.cache)] of line 474 throws. *)
Definition getAffectedTabIds (state : string) (s : t) : result (list Z) * t :=
  match _getCache state s with
  | (NoCache, s') => (Returns [], s')
  | (Entry c, s') =>
      (Returns (map_to_list (filter (λ kv, kv.2 = true) (cache c))).*1, s')
  | (Inherited, s') => (Throws, s')
  end.

(** [_queueOp], lines 195-204 and 224-226: the part that runs before the
    first [await].  The async arrow function of line 205 suspends at once at
    [await lastOp], so [alreadyDone] is still [false] at line 224 and the
    promise is always stored in [cache.ops].  The result is the index of the
    queued operation, or [None] when line 197 returned [defaultValue] (which
    the promise of [_queueOp] then resolves with).  For a member of
    [Object.prototype], [cache.ops] is [undefined] and line 204 throws:
    nothing is queued and the promise of [_queueOp] rejects. *)
Definition _queueOp (tabId : Z) (state : string) (k : op_kind) (s : t)
    : result (option nat) * t :=
  match _getCache state s with
  | (NoCache, s') => (Returns None, s')
  | (Entry c, s') =>
      let i := length (opsList s') in
      let o := {| op_tabId := tabId; op_state := state; op_kind_of := k;
                  op_lastOp := ops c !! tabId; op_promise := None;
                  op_value := defaultValue k; op_outerError := false;
                  op_pc := PAwaitLast |} in
      (Returns (Some i),
       update_state_cache state (ops_write tabId i)
         (with_opsList (opsList s' ++ [o]) s'))
  | (Inherited, s') => (Throws, s')
  end.

(** [set(tabId, state, value)], lines 404-431, up to its suspension; the
    promise of [set] is the one of [_queueOp]. *)
Definition set (tabId : Z) (state : string) (value : bool) (s : t)
    : result (option nat) * t :=
  _queueOp tabId state (OpSet value) s.

(** [_onTabRemoved(tabId)], lines 94-109. *)
Definition _onTabRemoved (tabId : Z) (s : t) : t :=
  foldl (λ s' state, (_queueOp tabId state OpTabRemoved s').2)
        s (Assoc.keys (_statesCaches s)).

(** [_onStateChanged({ tabId, className, value, apply })], lines 148-158,
    for a [tabId] that is not [null].  The promise of [set] is dropped; for a
    member of [Object.prototype], line 156 throws. *)
Definition _onStateChanged (tabId : Z) (className : string) (value apply : bool) (s : t)
    : result () * t :=
  if apply then (Returns (), (set tabId className value s).2)
  else match _getCache className s with
       | (NoCache, s') => (Returns (), s')
       | (Entry _, s') =>
           (Returns (), update_state_cache className (cache_write tabId value) s')
       | (Inherited, s') => (Throws, s')
       end.

(** [dispose()], lines 532-538. *)
Definition dispose (s : t) : t :=
  if isDisposed s then s
  else {| _classNames := _classNames s; isDisposed := true; _statesCaches := [];
          opsList := opsList s; mirrorLog := mirrorLog s; startLog := startLog s |}.

Definition update_op (i : nat) (f : op → op) (s : t) : t :=
  match opsList s !! i with
  | Some o => with_opsList (<[i := f o]> (opsList s)) s
  | None => s
  end.

(** The value that [await lastOp] yields, if it can be resumed:
    [undefined] at once, or the value of a settled promise. *)
Definition lastResult (s : t) (lastOp : option nat) : option (option bool) :=
  match lastOp with
  | None => Some None
  | Some j => o ← opsList s !! j; op_promise o
  end.

(** The callback runs up to its first [await] or to its end. *)
Definition run_callback (i : nat) (o : op) (s : t) : t :=
  let s := log_start i s in
  match op_kind_of o with
  | OpTabRemoved =>
      (* lines 100-104 *)
      let '(c, s) := _getCache (op_state o) s in
      match c with
      | NoCache => update_op i (set_pc (PAwaitCallback (CbReturn true))) s
      | Entry _ =>
          update_op i (set_pc (PAwaitCallback (CbReturn true)))
            (update_state_cache (op_state o) (cache_delete (op_tabId o)) s)
      | Inherited =>
          (* line 102 throws, which line 215 catches *)
          update_op i (set_pc (PAwaitCallback CbThrow)) s
      end
  | OpSet value =>
      (* lines 412-416 *)
      let '(currentState, s) := get (op_tabId o) (op_state o) s in
      match currentState with
      | Returns currentState =>
          if Bool.eqb value currentState
          then update_op i (set_pc (PAwaitCallback (CbReturn true))) s
          else update_op i (set_pc PInCallback)
                 (log_mirror i (MirrorCall [op_tabId o] [op_state o] value) s)
      | Throws =>
          (* caught at line 424, logged; line 427 returns false *)
          update_op i (set_pc (PAwaitCallback (CbReturn false))) s
      end
  end.

(** The event loop resumes operation [i] at the [await] it is suspended at. *)
Definition resume (i : nat) (s : t) : t :=
  match opsList s !! i with
  | None => s
  | Some o =>
      match op_pc o with
      | PAwaitLast =>
          match lastResult s (op_lastOp o) with
          | None => s                           (* [lastOp] is still pending *)
          | Some r =>
              if truthy r then update_op i (resolve_promise r) s   (* line 208 *)
              else if isDisposed s
                   then update_op i (resolve_promise None) s       (* line 211 *)
                   else run_callback i o s                         (* line 214 *)
          end
      | PAwaitCallback r =>
          (* lines 214-221 *)
          let '(v, err) := match r with
                           | CbReturn b => (Some b, false)
                           | CbThrow => (op_value o, true)
                           end in
          let pv := if setOpReturnValue (op_kind_of o) then v else None in
          update_op i (λ o, resolve_promise pv (set_value v err o)) s
      | PAwaitPromise =>
          (* lines 227-234 *)
          let s := update_state_cache (op_state o)
                     (λ c, if decide (ops c !! op_tabId o = Some i)
                           then ops_delete (op_tabId o) c else c) s in
          update_op i
            (set_pc (PFinished (if op_outerError o then Rejected
                                else Resolved (op_value o)))) s
      | PInCallback | PFinished _ => s
      end
  end.

(** The promise of [notifyTabStateToTST] that operation [i] awaits settles:
    lines 416-427. *)
Definition mirror_replies (i : nat) (r : mirror_reply) (s : t) : t :=
  match opsList s !! i with
  | None => s
  | Some o =>
      match op_pc o, op_kind_of o with
      | PInCallback, OpSet value =>
          match r with
          | Acked true =>
              let '(c, s) := _getCache (op_state o) s in
              match c with
              | NoCache => update_op i (set_pc (PAwaitCallback (CbReturn true))) s
              | Entry _ =>
                  update_op i (set_pc (PAwaitCallback (CbReturn true)))
                    (update_state_cache (op_state o) (cache_write (op_tabId o) value) s)
              | Inherited =>
                  (* line 420 throws; caught at line 424, logged; line 427
                     returns false *)
                  update_op i (set_pc (PAwaitCallback (CbReturn false))) s
              end
          | Acked false =>
              update_op i (set_pc (PAwaitCallback (CbReturn false))) s
          | Threw =>
              (* caught at line 424, logged; line 427 returns false *)
              update_op i (set_pc (PAwaitCallback (CbReturn false))) s
          end
      | _, _ => s
      end
  end.

(** What the callback of [set] returns once its mirror call has settled with
    [r], lines 417-427, on the cache [s]. *)
Definition set_returns (s : t) (o : op) (r : mirror_reply) : bool :=
  match r with
  | Acked true =>
      negb (negb (isDisposed s) && allowed s (op_state o) && foreign s (op_state o))
  | Acked false | Threw => false
  end.

Inductive event :=
  | ESet (tabId : Z) (state : string) (value : bool)
  | ETabRemoved (tabId : Z)
  | EStateChanged (tabId : Z) (className : string) (value apply : bool)
  | EDispose
  | EResume (i : nat)
  | EMirrorReply (i : nat) (r : mirror_reply).

#[global] Instance event_eq_dec : EqDecision event.
Proof. solve_decision. Defined.

Definition step (s : t) (e : event) : t :=
  match e with
  | ESet tabId state value => (set tabId state value s).2
  | ETabRemoved tabId => _onTabRemoved tabId s
  | EStateChanged tabId className value apply =>
      (_onStateChanged tabId className value apply s).2
  | EDispose => dispose s
  | EResume i => resume i s
  | EMirrorReply i r => mirror_replies i r s
  end.

Definition run (s : t) (tr : list event) : t := foldl step s tr.

(** A state of a cache that was created by the constructor. *)
Definition reachable (s : t) : Prop :=
  ∃ classNames tr, s = run (new classNames) tr.


(** *** What the properties of the queue speak about *)

(** The scope of an operation: the tab and the class name it is queued for. *)
Definition scope (o : op) : Z * string := (op_tabId o, op_state o).

(** The promise that the successors of an operation await is settled. *)
Definition settled (o : op) : bool :=
  match op_pc o with
  | PAwaitPromise | PFinished _ => true
  | _ => false
  end.

(** The callback of the operation has been invoked and has not returned yet:
    it is suspended at its call of the mirror. *)
Definition executing (o : op) : bool :=
  match op_pc o with PInCallback => true | _ => false end.

(** [cache.ops[tabId]] of the entry of [state], if any. *)
Definition tail (s : t) (tabId : Z) (state : string) : option nat :=
  c ← Assoc.lookup state (_statesCaches s); ops c !! tabId.

(** [cache.cache[tabId]] of the entry of [state], if any. *)
Definition belief (s : t) (tabId : Z) (state : string) : option bool :=
  c ← Assoc.lookup state (_statesCaches s); cache c !! tabId.

Definition in_scope (l : list op) (sc : Z * string) (i : nat) : bool :=
  bool_decide (scope <$> l !! i = Some sc).

(** The callbacks of one scope that were invoked, in the order of their invocation. *)
Definition starts_of (s : t) (sc : Z * string) : list nat :=
  filter (λ i, in_scope (opsList s) sc i = true) (startLog s).


(** Invariants of the list of queued operations. *)
Record ops_inv (l : list op) : Prop := OpsInv {
  inv_promise : ∀ i o, l !! i = Some o →
    (is_Some (op_promise o) ↔ settled o = true);
  inv_last : ∀ i o k ok, l !! i = Some o → l !! k = Some ok →
    (k < i)%nat → scope ok = scope o → settled ok = false →
    ∃ j oj, op_lastOp o = Some j ∧ (k ≤ j < i)%nat ∧
            l !! j = Some oj ∧ scope oj = scope o;
  inv_order : ∀ i j oi oj, l !! i = Some oi → l !! j = Some oj →
    (i < j)%nat → scope oi = scope oj → settled oi = false →
    op_pc oj = PAwaitLast;
}.

(** [cache.ops] names the last operation of a scope while one is unsettled. *)
Definition tail_inv (tl : Z → string → option nat) (l : list op) : Prop :=
  ∀ tabId state,
    match tl tabId state with
    | Some i => ∃ o, l !! i = Some o ∧ scope o = (tabId, state) ∧
        ∀ k ok, (i < k)%nat → l !! k = Some ok →
                scope ok = (tabId, state) → settled ok = true
    | None => ∀ k ok, l !! k = Some ok →
                scope ok = (tabId, state) → settled ok = true
    end.

Record log_inv (l : list op) (log : list nat) : Prop := LogInv {
  inv_log_started : ∀ i, i ∈ log → ∃ o, l !! i = Some o ∧ op_pc o ≠ PAwaitLast;
  inv_log_sorted : ∀ sc,
    StronglySorted lt (filter (λ i, in_scope l sc i = true) log);
}.

Record queue_inv (s : t) : Prop := QueueInv {
  inv_ops : ops_inv (opsList s);
  inv_tail : isDisposed s = false → tail_inv (tail s) (opsList s);
  inv_log : log_inv (opsList s) (startLog s);
}.


(** What one event can do to a queued operation: nothing, or move it from
    the [await] it is suspended at to the next one. *)
Definition op_next (o o' : op) : Prop :=
  o' = o ∨
  match op_pc o with
  | PAwaitLast =>
      (∃ r, o' = resolve_promise r o) ∨
      o' = set_pc PInCallback o ∨
      o' = set_pc (PAwaitCallback (CbReturn true)) o ∨
      (* the callback finds a member of [Object.prototype] *)
      (inherited (op_state o) = true ∧
       (o' = set_pc (PAwaitCallback (CbReturn false)) o ∨
        o' = set_pc (PAwaitCallback CbThrow) o))
  | PInCallback => ∃ b, o' = set_pc (PAwaitCallback (CbReturn b)) o
  | PAwaitCallback (CbReturn b) =>
      o' = resolve_promise (if setOpReturnValue (op_kind_of o) then Some b else None)
             (set_value (Some b) false o)
  | PAwaitCallback CbThrow =>
      o' = resolve_promise (if setOpReturnValue (op_kind_of o) then op_value o else None)
             (set_value (op_value o) true o)
  | PAwaitPromise =>
      o' = set_pc (PFinished (if op_outerError o then Rejected
                              else Resolved (op_value o))) o
  | PFinished _ => False
  end.

(** The operation is queued for a class name that is not a member of
    [Object.prototype], and its callback does not throw: [outerError] stays
    [null]. *)
Definition no_throw (o : op) : Prop :=
  inherited (op_state o) = false ∧
  op_outerError o = false ∧ op_pc o ≠ PAwaitCallback CbThrow ∧
  ∀ out, op_pc o = PFinished out → out = Resolved (op_value o).

(** The class names that [_statesCaches] has entries for are distinct and
    allowed, and none is the name of a member of [Object.prototype]. *)
Definition names_inv (s : t) : Prop :=
  NoDup (Assoc.keys (_statesCaches s)) ∧
  (∀ state, state ∈ Assoc.keys (_statesCaches s) → allowed s state = true) ∧
  (∀ state, state ∈ Assoc.keys (_statesCaches s) → inherited state = false).

(** A call of [set] whose mirror call failed, at the [await]s that remain. *)
Definition failed_set (o : op) : Prop :=
  op_pc o = PAwaitCallback (CbReturn false) ∨
  (op_pc o = PAwaitPromise ∧ op_value o = Some false ∧ op_outerError o = false) ∨
  op_pc o = PFinished (Resolved (Some false)).


(** *** Two calls of [set] in succession

    The first call is operation [i], the second one operation [S i]. *)






(** *** Schedules used as examples *)

(** Two calls of [set] for tab 1, one for "red" and one for "blue", whose
    callbacks are both waiting for Tree Style Tab. *)
Definition two_scopes_busy : list event :=
  [ESet 1 "red" true; ESet 1 "blue" true; EResume 0; EResume 1].

(** The call that was submitted second has its callback invoked first. *)
Definition second_scope_first : list event :=
  [ESet 1 "red" true; ESet 1 "blue" true; EResume 1; EResume 0].

(** Two calls of [set] for the same tab and class; the first one is
    acknowledged before the second one runs. *)
Definition same_scope_twice : list event :=
  [ESet 1 "red" true; ESet 1 "red" false;
   EResume 0; EResume 1; EMirrorReply 0 (Acked true);
   EResume 0; EResume 1].



End CustomStateCache.

(** ** TSTCustomStateCache: the handler of attached tabs

    [_onTabAttached] (custom-state-cache.js, lines 120-140) runs alongside
    everything else that happens to the cache.  It looks at the cache when it
    is called and each time one of its delays has elapsed; the environment
    tells what the cache is at those moments and what Tree Style Tab
    answers. *)
Module TabAttached.
Import CustomStateCache.

Record env := Env {
  (* the cache when the delay of the attempt (counted from 0) has elapsed *)
  at_attempt : nat → CustomStateCache.t;
  (* how the promise of [notifyTabStateToTST] of the attempt settles;
     [None]: it never does *)
  reply : nat → option mirror_reply;
}.

(** What the handler does to the outside world. *)
Inductive effect :=
  | Delay (ms : Z)                (* [await delay(ms)], common/delays.js *)
  | Notify (c : mirror_call)      (* [notifyTabStateToTST(tabId, states, true)] *)
  | LogError.                     (* [console.error], line 138 *)

#[global] Instance effect_eq_dec : EqDecision effect.
Proof. solve_decision. Defined.

(** How the promise of the async handler ends up. *)
Inductive ending :=
  | Returned      (* resolved *)
  | Suspended     (* still waiting for Tree Style Tab *)
  | Uncaught.     (* rejected: an exception left the handler *)

(** The [for] loop of lines 129-136, from [attempt] on.  [fuel] bounds the
    number of iterations; the loop itself stops at [attempt < 4]. *)
Fixpoint attempts (E : env) (tabId : Z) (fuel attempt : nat) : list effect * ending :=
  match fuel with
  | O => ([], Returned)
  | S fuel' =>
      if (attempt <? 4)%nat then
        (* line 130 *)
        let ms := 250 * (Z.of_nat attempt + 1) in
        (* lines 132-133 *)
        let states := getTabStates tabId (at_attempt E attempt) in
        if bool_decide (length states = 0%nat) then ([Delay ms], Returned)
        else
          (* line 135 *)
          let call := Notify (MirrorCall [tabId] states true) in
          match reply E attempt with
          | None => ([Delay ms; call], Suspended)
          | Some Threw =>
              (* caught at line 137 *)
              ([Delay ms; call; LogError], Returned)
          | Some (Acked _) =>
              let '(effects, e) := attempts E tabId fuel' (S attempt) in
              (Delay ms :: call :: effects, e)
          end
      else ([], Returned)
  end.

(** [_onTabAttached(tabId, attachInfo)] called on the cache [s]. *)
Definition _onTabAttached (E : env) (tabId : Z) (s : CustomStateCache.t) : list effect * ending :=
  (* lines 126-127 *)
  let states := getTabStates tabId s in
  if bool_decide (length states = 0%nat) then ([], Returned)
  else attempts E tabId 4 0.

Definition is_notify (e : effect) : bool :=
  match e with Notify _ => true | _ => false end.

(** The messages sent to Tree Style Tab. *)
Definition notifications (effects : list effect) : list effect :=
  List.filter is_notify effects.

(** The delays. *)
Definition delays (effects : list effect) : list effect :=
  List.filter (λ e, match e with Delay _ => true | _ => false end) effects.

(** Attempt [k] (counted from 0) in full: the delay, then the message with
    the states that the tab has when the delay has elapsed. *)
Definition attempt_of (E : env) (tabId : Z) (k : nat) : list effect :=
  [Delay (250 * (Z.of_nat k + 1));
   Notify (MirrorCall [tabId] (getTabStates tabId (at_attempt E k)) true)].

(** The attempts [a], [a + 1], ..., [a + n - 1] in full. *)
Definition schedule (E : env) (tabId : Z) (a n : nat) : list effect :=
  flat_map (attempt_of E tabId) (seq a n).

(** How a run of attempts can stop before or at attempt [k]. *)
Inductive stop (E : env) (tabId : Z) (k : nat) : list effect → ending → Prop :=
  | StopExhausted : k = 4%nat → stop E tabId k [] Returned
  | StopNoState :
      (k < 4)%nat → getTabStates tabId (at_attempt E k) = [] →
      stop E tabId k [Delay (250 * (Z.of_nat k + 1))] Returned
  | StopSuspended :
      (k < 4)%nat → getTabStates tabId (at_attempt E k) ≠ [] →
      reply E k = None →
      stop E tabId k (attempt_of E tabId k) Suspended
  | StopThrew :
      (k < 4)%nat → getTabStates tabId (at_attempt E k) ≠ [] →
      reply E k = Some Threw →
      stop E tabId k (attempt_of E tabId k ++ [LogError]) Returned.

(** A cache that believes that tab 7 is "red". *)
Definition red7 : CustomStateCache.t :=
  run (new None) [EStateChanged 7 "red" true false].

(** The tab keeps its state and Tree Style Tab never acknowledges. *)
Definition never_acknowledged : env :=
  {| at_attempt := λ _, red7; reply := λ _, Some (Acked false) |}.

End TabAttached.

(** ** TSTCustomStateCache: pushing the belief to Tree Style Tab

    [forceNotifyTST] (custom-state-cache.js, lines 355-393).  One call runs
    one async function per affected state and, inside it, one call of
    [getAfterChanges] per tab; they all run alongside the rest.  The
    environment tells what the cache is when each of them resumes and what
    Tree Style Tab answers to each message. *)
Module ForceNotify.
Import CustomStateCache.

Record env := Env {
  (* [(await browser.tabs.query({})).map(tab => tab.id)], line 366 *)
  all_tabs : list Z;
  (* the cache when that query has resolved *)
  after_query : CustomStateCache.t;
  (* the cache when [getAfterChanges(tabId, state)] resumes after line 458 *)
  at_resume : string → Z → CustomStateCache.t;
  (* the cache when every [getAfterChanges] of a state has resolved, line 378 *)
  after_gather : string → CustomStateCache.t;
  (* how the promise of [notifyTabStateToTST] settles *)
  reply : mirror_call → mirror_reply;
}.

(** [_getAffectedStates(states)], lines 244-254, for [states] that is [null]
    or an array. *)
Definition _getAffectedStates (states : option (list string)) (s : CustomStateCache.t)
    : option (list string) :=
  match _classNames s with
  | Some names =>
      match states with
      | Some l => Some (filter (λ state, state ∈ names) l)
      | None => Some names
      end
  | None => states
  end.

(** [getAfterChanges(tabId, state)], lines 455-460, called on the cache [s];
    the cache is [s'] when the awaited promise has settled.  For a member of
    [Object.prototype], line 458 throws and the promise rejects.  (On a cache
    that was disposed in between, line 459 reads the entry that [dispose]
    dropped, which the model does not keep; [forceNotifyTST] then discards
    what was read, line 378.) *)
Definition getAfterChanges (tabId : Z) (state : string) (s s' : CustomStateCache.t)
    : result bool :=
  match (_getCache state s).1 with
  | NoCache => Returns false
  | Entry _ => Returns (default false (belief s' tabId state))
  | Inherited => Throws
  end.

(** [Promise.all] of lines 373-376: the pairs, unless one of the promises
    rejected. *)
Fixpoint gathered (l : list (Z * result bool)) : result (list (Z * bool)) :=
  match l with
  | [] => Returns []
  | (tabId, Returns hasState) :: l' =>
      match gathered l' with
      | Returns rest => Returns ((tabId, hasState) :: rest)
      | Throws => Throws
      end
  | (_, Throws) :: _ => Throws
  end.

(** The batch of line 384: the tabs whose state is [hasState]. *)
Definition batch (tabIdsWithState : list (Z * bool)) (hasState : bool) : list Z :=
  (List.filter (λ p, Bool.eqb p.2 hasState) tabIdsWithState).*1.

(** [notify(hasState, enabled)], lines 381-386: the message it sends, if any. *)
Definition notify (tabIdsWithState : list (Z * bool)) (affectedState : string)
    (hasState enabled : bool) : option mirror_call :=
  if enabled then Some (MirrorCall (batch tabIdsWithState hasState) [affectedState] hasState)
  else None.

(** The promise of [notify]: [true] when disabled, else the answer. *)
Definition notified (E : env) (c : option mirror_call) : mirror_reply :=
  match c with
  | None => Acked true
  | Some c => reply E c
  end.

(** The async function of lines 372-392 for one state: the messages it
    sends, in their order, and how its promise settles. *)
Definition notify_state (E : env) (s : CustomStateCache.t) (tabIds : list Z)
    (remove add : bool) (affectedState : string) : list mirror_call * outcome :=
  (* lines 373-376 *)
  match gathered
          (map (λ tabId, (tabId, getAfterChanges tabId affectedState s
                                   (at_resume E affectedState tabId))) tabIds) with
  | Throws => ([], Rejected)
  | Returns tabIdsWithState =>
      (* line 378 *)
      if isDisposed (after_gather E affectedState) then ([], Resolved (Some false))
      else
        (* lines 388-391 *)
        let r := notify tabIdsWithState affectedState false remove in
        let a := notify tabIdsWithState affectedState true add in
        (option_list r ++ option_list a,
         match notified E r, notified E a with
         | Acked x, Acked y => Resolved (Some (x && y))
         | _, _ => Rejected
         end)
  end.

(** [Promise.all(...)] of line 372 followed by [every(success => success)]. *)
Definition all_succeeded (results : list outcome) : outcome :=
  if bool_decide (Rejected ∈ results) then Rejected
  else Resolved (Some (forallb (λ r, bool_decide (r = Resolved (Some true))) results)).

(** [forceNotifyTST(tabIds, { states, remove, add })] called on the cache
    [s], for [tabIds] that is [null] or an array: for each affected state,
    the messages that the async function of that state sends, and how the
    promise of the call settles.  The async functions of the states run side
    by side, so that their messages are kept apart: the messages of
    different states come in no fixed order. *)
Definition forceNotifyTST (E : env) (s : CustomStateCache.t) (tabIds : option (list Z))
    (states : option (list string)) (remove add : bool)
    : list (list mirror_call) * outcome :=
  (* line 356 *)
  if isDisposed s then ([], Resolved (Some false))
  (* line 357 *)
  else if negb remove && negb add then ([], Resolved None)
  else
    (* lines 359-362 *)
    let affectedStates :=
      match _getAffectedStates states s with
      | Some l => l
      | None => Assoc.keys (_statesCaches s)
      end in
    (* line 363 *)
    if bool_decide (length affectedStates = 0%nat) then ([], Resolved None)
    else
      let go (s : CustomStateCache.t) (tabIds : list Z) :=
        let results := map (notify_state E s tabIds remove add) affectedStates in
        (map fst results, all_succeeded (map snd results)) in
      match tabIds with
      | None =>
          (* lines 366-367 *)
          if isDisposed (after_query E) then ([], Resolved (Some false))
          else go (after_query E) (all_tabs E)
      | Some tabIds => go s tabIds
      end.

(** The states that a call affects. *)
Definition affected (s : CustomStateCache.t) (states : option (list string)) : list string :=
  match _getAffectedStates states s with
  | Some l => l
  | None => Assoc.keys (_statesCaches s)
  end.

(** The tabs of a call. *)
Definition tabs_of (E : env) (tabIds : option (list Z)) : list Z :=
  match tabIds with Some l => l | None => all_tabs E end.


(** *** The batches in the words of the specification *)






(** The belief of the example of the specification: red on tabs 1 and 3,
    blue on tab 2. *)
Definition red13_blue2 : CustomStateCache.t :=
  run (new (Some ["red"; "blue"]))
    [EStateChanged 1 "red" true false; EStateChanged 3 "red" true false;
     EStateChanged 2 "blue" true false].

(** Nothing changes while the call runs and Tree Style Tab acknowledges. *)
Definition quiet (s : CustomStateCache.t) : env :=
  {| all_tabs := [1; 2; 3]; after_query := s; at_resume := λ _ _, s;
     after_gather := λ _, s; reply := λ _, Acked true |}.

End ForceNotify.

(** ** Session values *)
Module JS.

(** The values that a session key holds ([string | Object]), and
    [undefined]. An object is named by a number. *)
Inductive value :=
  | Undefined
  | Str (s : string)
  | Obj (id : nat).

#[global] Instance value_eq_dec : EqDecision value.
Proof. solve_decision. Defined.

(** [Boolean(v)]: the empty string and [undefined] are falsy. *)
Definition truthy (v : value) : bool :=
  match v with
  | Undefined => false
  | Str s => negb (String.eqb s "")
  | Obj _ => true
  end.

End JS.

(** ** SessionDataCache (common/session-data-cache.js) *)
Module SessionDataCache.
Import JS.

(** [CacheChange], lines 44-49: what [onDataChanged] is fired with.  A
    property that the handler did not set is [None]. *)
Record CacheChange := Change {
  entryId : Z;
  key : option string;
  value : option JS.value;
}.

#[global] Instance CacheChange_eq_dec : EqDecision CacheChange.
Proof. solve_decision. Defined.

Inductive promise_state := Pending | Fulfilled | Failed.

#[global] Instance promise_state_eq_dec : EqDecision promise_state.
Proof. solve_decision. Defined.

Inductive handler_kind :=
  | OnEntryCreated (entryId : Z)
  | OnEntryRemoved (entryId : Z)
  | OnEntryChanged (entryId : Z) (key : string) (newValue : JS.value).

#[global] Instance handler_kind_eq_dec : EqDecision handler_kind.
Proof. solve_decision. Defined.

Inductive ending := Returned | Threw.

(** Where an event handler is suspended. *)
Inductive handler_pc :=
  | HAwaitStart                    (* line 187, in [_suppressEvent]: [await this.start] *)
  | HAwaitSuppress (suppress : bool)
                                   (* lines 202, 225, 237: [await this._suppressEvent()] *)
  | HAwaitHydration (data : nat) (awaited : bool)
                                   (* line 209: [await this._asyncStorage.get(data)];
                                      [awaited]: the map had a promise for [data] *)
  | HDone (e : ending).

Record handler := Handler {
  h_kind : handler_kind;
  h_pc : handler_pc;
}.

(** The cache.  The objects that hold the values of the entries live in
    [objects] and are named by their index; [_storage] maps an entry to its
    object and [_asyncStorage] holds the objects that have a promise, the
    state of which is in [hydration].  [start] is the promise of [_start]:
    pending, or resolved with a boolean.  [handlers] and [fired] record the
    handlers that were called and the events that [_onDataChanged] fired. *)
Record t := Cache {
  _isDisposed : bool;
  _monitoredKeys : list string;
  has_getStorageValue : bool;
  objects : list (gmap string JS.value);
  _storage : gmap Z nat;
  _asyncStorage : gset nat;
  hydration : gmap nat promise_state;
  start : option bool;
  handlers : list handler;
  fired : list CacheChange;
}.

(** [new SessionDataCache({ monitoredKeys, getStorageValue, ... })], lines
    86-117, without initial storage. *)
Definition new (monitoredKeys : list string) (getStorageValue : bool) : t :=
  {| _isDisposed := false; _monitoredKeys := monitoredKeys;
     has_getStorageValue := getStorageValue; objects := []; _storage := ∅;
     _asyncStorage := ∅; hydration := ∅; start := None; handlers := [];
     fired := [] |}.

Definition with_fired (f : list CacheChange) (s : t) : t :=
  {| _isDisposed := _isDisposed s; _monitoredKeys := _monitoredKeys s;
     has_getStorageValue := has_getStorageValue s; objects := objects s;
     _storage := _storage s; _asyncStorage := _asyncStorage s;
     hydration := hydration s; start := start s; handlers := handlers s;
     fired := f |}.

Definition with_handlers (h : list handler) (s : t) : t :=
  {| _isDisposed := _isDisposed s; _monitoredKeys := _monitoredKeys s;
     has_getStorageValue := has_getStorageValue s; objects := objects s;
     _storage := _storage s; _asyncStorage := _asyncStorage s;
     hydration := hydration s; start := start s; handlers := h;
     fired := fired s |}.

Definition with_objects (o : list (gmap string JS.value)) (s : t) : t :=
  {| _isDisposed := _isDisposed s; _monitoredKeys := _monitoredKeys s;
     has_getStorageValue := has_getStorageValue s; objects := o;
     _storage := _storage s; _asyncStorage := _asyncStorage s;
     hydration := hydration s; start := start s; handlers := handlers s;
     fired := fired s |}.

Definition with_storage (st : gmap Z nat) (a : gset nat)
    (hy : gmap nat promise_state) (s : t) : t :=
  {| _isDisposed := _isDisposed s; _monitoredKeys := _monitoredKeys s;
     has_getStorageValue := has_getStorageValue s; objects := objects s;
     _storage := st; _asyncStorage := a; hydration := hy; start := start s;
     handlers := handlers s; fired := fired s |}.

Definition with_start (b : option bool) (s : t) : t :=
  {| _isDisposed := _isDisposed s; _monitoredKeys := _monitoredKeys s;
     has_getStorageValue := has_getStorageValue s; objects := objects s;
     _storage := _storage s; _asyncStorage := _asyncStorage s;
     hydration := hydration s; start := b; handlers := handlers s;
     fired := fired s |}.

(** [this._onDataChanged.fire(details)] (common/events.js, outside the
    sources at hand): the listeners are called with [details]; the model
    records the event. *)
Definition fire (details : CacheChange) (s : t) : t :=
  with_fired (fired s ++ [details]) s.

(** [_notifyDataChange(entryId, key, value)], lines 126-133. *)
Definition _notifyDataChange (entryId : Z) (key : option string) (value : JS.value) (s : t) : t :=
  if _isDisposed s then s
  else
    let k := match key with
             | Some k => if String.eqb k "" then None else Some k   (* [if (key)] *)
             | None => None
             end in
    let v := if truthy value then Some value else None in           (* [if (value)] *)
    fire {| entryId := entryId; key := k; value := v |} s.

(** [_createDataForEntry({ entryId, data })], lines 146-165, with
    [addToStorage] and [addToAsyncStorage] left [true]: the object of the
    entry and the cache after the call.  The promise is pending while the
    values of the monitored keys are fetched, and resolved at once when
    there is no [getStorageValue] or no monitored key. *)
Definition _createDataForEntry (entryId : Z) (data : option nat) (s : t) : nat * t :=
  let '(d, s) := match data with
                 | Some d => (d, s)
                 | None => (length (objects s), with_objects (objects s ++ [∅]) s)
                 end in
  let p := if has_getStorageValue s && negb (bool_decide (_monitoredKeys s = []))
           then Pending else Fulfilled in
  (d, with_storage (<[entryId := d]> (_storage s)) ({[d]} ∪ _asyncStorage s)
        (<[d := p]> (hydration s)) s).

(** The external events: the handler runs up to its first [await]. *)
Definition call_handler (k : handler_kind) (s : t) : t :=
  match k with
  | OnEntryChanged _ key _ =>
      (* lines 200-201 *)
      if bool_decide (key ∈ _monitoredKeys s)
      then with_handlers (handlers s ++ [Handler k HAwaitStart]) s
      else with_handlers (handlers s ++ [Handler k (HDone Returned)]) s
  | _ => with_handlers (handlers s ++ [Handler k HAwaitStart]) s
  end.

Definition set_handler (h : nat) (pc : handler_pc) (s : t) : t :=
  match handlers s !! h with
  | Some x => with_handlers (<[h := Handler (h_kind x) pc]> (handlers s)) s
  | None => s
  end.

(** [data[key] = newValue] or [delete data[key]], lines 211-214. *)
Definition write_value (data : nat) (key : string) (newValue : JS.value) (s : t) : t :=
  match objects s !! data with
  | Some m =>
      let m' := match newValue with
                | Undefined => delete key m
                | _ => <[key := newValue]> m
                end in
      with_objects (<[data := m']> (objects s)) s
  | None => s
  end.

(** The handler runs from [await this._suppressEvent()] on. *)
Definition after_suppress (h : nat) (k : handler_kind) (s : t) : t :=
  match k with
  | OnEntryCreated entryId =>
      (* line 228 *)
      set_handler h (HDone Returned) (_createDataForEntry entryId None s).2
  | OnEntryRemoved entryId =>
      (* lines 240-247 *)
      match _storage s !! entryId with
      | None => set_handler h (HDone Returned) s
      | Some data =>
          let s := with_storage (delete entryId (_storage s))
                     (_asyncStorage s ∖ {[data]}) (hydration s) s in
          set_handler h (HDone Returned) (_notifyDataChange entryId None Undefined s)
      end
  | OnEntryChanged entryId key newValue =>
      (* lines 205-209 *)
      match _storage s !! entryId with
      | None => set_handler h (HDone Returned) s
      | Some data =>
          set_handler h (HAwaitHydration data (bool_decide (data ∈ _asyncStorage s))) s
      end
  end.

(** The event loop resumes handler [h] at the [await] it is suspended at. *)
Definition resume (h : nat) (s : t) : t :=
  match handlers s !! h with
  | None => s
  | Some x =>
      match h_pc x with
      | HAwaitStart =>
          match start s with
          | None => s                  (* [start] is pending *)
          | Some _ => set_handler h (HAwaitSuppress (_isDisposed s)) s   (* lines 188-190 *)
          end
      | HAwaitSuppress true => set_handler h (HDone Returned) s
      | HAwaitSuppress false => after_suppress h (h_kind x) s
      | HAwaitHydration data awaited =>
          match (if awaited then default Fulfilled (hydration s !! data) else Fulfilled),
                h_kind x with
          | Pending, _ => s
          | Failed, _ => set_handler h (HDone Threw) s
          | Fulfilled, OnEntryChanged entryId key newValue =>
              (* lines 211-216 *)
              set_handler h (HDone Returned)
                (_notifyDataChange entryId (Some key) newValue
                   (write_value data key newValue s))
          | Fulfilled, _ => s
          end
      | HDone _ => s
      end
  end.

(** [dispose()], lines 270-278. *)
Definition dispose (s : t) : t :=
  if _isDisposed s then s
  else {| _isDisposed := true; _monitoredKeys := _monitoredKeys s;
          has_getStorageValue := has_getStorageValue s; objects := objects s;
          _storage := ∅; _asyncStorage := ∅; hydration := hydration s;
          start := start s; handlers := handlers s; fired := fired s |}.

(** [_start()], lines 167-178, as the environment drives it:
    [getEntryIds] resolves with ids, for each of which line 171 creates the
    data; a value arrives for a monitored key of an entry (lines 154-158);
    the promise of an object settles; [start] settles. *)
Definition got_entry_ids (ids : list Z) (s : t) : t :=
  foldl (λ s id, (_createDataForEntry id (_storage s !! id) s).2) s ids.

Definition got_value (entryId : Z) (data : nat) (key : string) (v : JS.value) (s : t) : t :=
  if truthy v
  then _notifyDataChange entryId (Some key) v
         (match objects s !! data with
          | Some m => with_objects (<[data := <[key := v]> m]> (objects s)) s
          | None => s
          end)
  else s.

Definition hydration_settles (data : nat) (ok : bool) (s : t) : t :=
  with_storage (_storage s) (_asyncStorage s)
    (<[data := if ok then Fulfilled else Failed]> (hydration s)) s.

Definition start_settles (ok : bool) (s : t) : t :=
  match start s with
  | None => with_start (Some ok) s
  | Some _ => s
  end.

Inductive event :=
  | EHandler (k : handler_kind)
  | EResume (h : nat)
  | EDispose
  | EGotEntryIds (ids : list Z)
  | EGotValue (entryId : Z) (data : nat) (key : string) (v : JS.value)
  | EHydrationSettles (data : nat) (ok : bool)
  | EStartSettles (ok : bool).

#[global] Instance event_eq_dec : EqDecision event.
Proof. solve_decision. Defined.

Definition step (s : t) (e : event) : t :=
  match e with
  | EHandler k => call_handler k s
  | EResume h => resume h s
  | EDispose => dispose s
  | EGotEntryIds ids => got_entry_ids ids s
  | EGotValue entryId data key v => got_value entryId data key v s
  | EHydrationSettles data ok => hydration_settles data ok s
  | EStartSettles ok => start_settles ok s
  end.

Definition run (s : t) (tr : list event) : t := foldl step s tr.

(** The values of an entry, as [getDataForEntryId] and [storage] show them. *)
Definition data_of (s : t) (entryId : Z) : option (gmap string JS.value) :=
  d ← _storage s !! entryId; objects s !! d.

Definition pc_of (s : t) (h : nat) : option handler_pc :=
  h_pc <$> handlers s !! h.

Definition finished (s : t) (h : nat) : bool :=
  match pc_of s h with Some (HDone _) => true | _ => false end.

(** The handler of a removed entry, at the [await]s that it goes through. *)
Definition removed_inv (entryId : Z) (h : nat) (s : t) : Prop :=
  ∃ x, handlers s !! h = Some x ∧ h_kind x = OnEntryRemoved entryId ∧
    (h_pc x = HAwaitStart ∨
     (∃ b, h_pc x = HAwaitSuppress b ∧ is_Some (start s) ∧
           (b = true → _isDisposed s = true)) ∨
     (h_pc x = HDone Returned ∧ is_Some (start s))).

(** [data[key] = newValue] when the value is defined, [delete data[key]]
    otherwise. *)
Definition changed (m : gmap string JS.value) (key : string) (newValue : JS.value)
    : gmap string JS.value :=
  match newValue with
  | Undefined => delete key m
  | _ => <[key := newValue]> m
  end.

(** The event that [_onEntryChanged] fires. *)
Definition change_of (entryId : Z) (key : string) (newValue : JS.value) : CacheChange :=
  {| entryId := entryId;
     key := if String.eqb key "" then None else Some key;
     value := if truthy newValue then Some newValue else None |}.

(** The entry is known and the values of its monitored keys have been
    fetched. *)
Definition hydrated (s : t) (entryId : Z) (m : gmap string JS.value) : Prop :=
  ∃ data, _storage s !! entryId = Some data ∧ objects s !! data = Some m ∧
          (data ∈ _asyncStorage s → hydration s !! data = Some Fulfilled).

(** The handler of a changed value, from the event to its end. *)
Definition entry_changed (entryId : Z) (key : string) (newValue : JS.value) (s : t) : t :=
  let h := length (handlers s) in
  run s [EHandler (OnEntryChanged entryId key newValue);
         EResume h; EResume h; EResume h].

(** A cache for the key "marked" whose start found the tabs 1 and 2. *)
Definition two_tabs : t :=
  run (new ["marked"] false) [EGotEntryIds [1; 2]; EStartSettles true].

End SessionDataCache.

(** ** The marks of the tabs (background/marker-tab-data.js) *)
Module MarkerTabData.
Import JS.

Definition kTAB_DATA_KEY_MARKED : string := "marked".

(** [kCOLORS], common/common.js lines 29-39. *)
Definition kCOLORS : list (string * string) :=
  [("blue", "#37adff"); ("turquoise", "#00c79a"); ("green", "#51cd00");
   ("yellow", "#ffcb00"); ("orange", "#ff9f00"); ("red", "#ff613d");
   ("pink", "#ff4bda"); ("purple", "#af51f5"); ("toolbar", "#686868")].

(** Modelled from the spec: the class [Timeout] of common/delays.js is not
    among the sources.  The spec has one timer, "the durable-cache eviction
    timer (free the in-memory secondary cache after a configurable idle
    period ...)", which "is reset/cancelled whenever the underlying
    persistence policy is toggled": a timer holds the callback that it will
    run and its time, and is active until it has fired or was disposed. *)
Inductive timer_callback := RemoveSessionCache.

Record Timeout := Timer {
  callback : timer_callback;
  timeInMilliseconds : Z;
  isActive : bool;
}.

Definition Timeout_new (cb : timer_callback) (ms : Z) : Timeout :=
  {| callback := cb; timeInMilliseconds := ms; isActive := true |}.

Definition Timeout_dispose (tm : Timeout) : Timeout :=
  {| callback := callback tm; timeInMilliseconds := timeInMilliseconds tm;
     isActive := false |}.

(** [SessionDataChangeInfo]: what the two events of common/common.js are
    fired with; [newValue] is absent when a value was removed. *)
Record SessionDataChangeInfo := ChangeInfo {
  entryId : Z;
  key : string;
  newValue : option string;
}.

(** What the module does to the world around it. *)
Inductive effect :=
  | LogError                                   (* [console.error] *)
  | LogErrorInGetTabMark                       (* [console.error] of [getTabMark], line 446 *)
  | StartThenMigrate                           (* line 324: [cache.start.then(...)] *)
  | MigrateTempData                            (* line 271: [migrateTempData()] *)
  | SetTabValue (tabId : Z) (key value : string)
  | RemoveTabValue (tabId : Z) (key : string)
  | FireSession (c : SessionDataChangeInfo)    (* [onTabSessionValueChanged.fire] *)
  | FireTemp (c : SessionDataChangeInfo).      (* [onTabTempValueChanged.fire] *)

#[global] Instance timer_callback_eq_dec : EqDecision timer_callback.
Proof. solve_decision. Defined.
#[global] Instance Timeout_eq_dec : EqDecision Timeout.
Proof. solve_decision. Defined.
#[global] Instance SessionDataChangeInfo_eq_dec : EqDecision SessionDataChangeInfo.
Proof. solve_decision. Defined.
#[global] Instance effect_eq_dec : EqDecision effect.
Proof. solve_decision. Defined.

(** The variables of the module, lines 211-222.  [released] holds the
    session caches that were disposed and dropped, [log] the effects. *)
Record t := Module_ {
  timeToKeepCacheInMilliseconds : Z;
  useSessionStorage : bool;
  sessionDataCache : option SessionDataCache.t;
  sessionTimeout : option Timeout;
  temporaryCache : option SessionDataCache.t;
  released : list SessionDataCache.t;
  log : list effect;
}.

Definition init : t :=
  {| timeToKeepCacheInMilliseconds := 20000; useSessionStorage := false;
     sessionDataCache := None; sessionTimeout := None; temporaryCache := None;
     released := []; log := [] |}.

Definition with_time (ms : Z) (st : t) : t :=
  {| timeToKeepCacheInMilliseconds := ms;
     useSessionStorage := useSessionStorage st;
     sessionDataCache := sessionDataCache st;
     sessionTimeout := sessionTimeout st; temporaryCache := temporaryCache st;
     released := released st; log := log st |}.

Definition with_use (b : bool) (st : t) : t :=
  {| timeToKeepCacheInMilliseconds := timeToKeepCacheInMilliseconds st;
     useSessionStorage := b; sessionDataCache := sessionDataCache st;
     sessionTimeout := sessionTimeout st; temporaryCache := temporaryCache st;
     released := released st; log := log st |}.

Definition with_session (c : option SessionDataCache.t) (st : t) : t :=
  {| timeToKeepCacheInMilliseconds := timeToKeepCacheInMilliseconds st;
     useSessionStorage := useSessionStorage st; sessionDataCache := c;
     sessionTimeout := sessionTimeout st; temporaryCache := temporaryCache st;
     released := released st; log := log st |}.

Definition with_timeout (tm : option Timeout) (st : t) : t :=
  {| timeToKeepCacheInMilliseconds := timeToKeepCacheInMilliseconds st;
     useSessionStorage := useSessionStorage st;
     sessionDataCache := sessionDataCache st; sessionTimeout := tm;
     temporaryCache := temporaryCache st; released := released st;
     log := log st |}.

Definition with_temporary (c : option SessionDataCache.t) (st : t) : t :=
  {| timeToKeepCacheInMilliseconds := timeToKeepCacheInMilliseconds st;
     useSessionStorage := useSessionStorage st;
     sessionDataCache := sessionDataCache st;
     sessionTimeout := sessionTimeout st; temporaryCache := c;
     released := released st; log := log st |}.

Definition with_released (r : list SessionDataCache.t) (st : t) : t :=
  {| timeToKeepCacheInMilliseconds := timeToKeepCacheInMilliseconds st;
     useSessionStorage := useSessionStorage st;
     sessionDataCache := sessionDataCache st;
     sessionTimeout := sessionTimeout st; temporaryCache := temporaryCache st;
     released := r; log := log st |}.

Definition with_log (l : list effect) (st : t) : t :=
  {| timeToKeepCacheInMilliseconds := timeToKeepCacheInMilliseconds st;
     useSessionStorage := useSessionStorage st;
     sessionDataCache := sessionDataCache st;
     sessionTimeout := sessionTimeout st; temporaryCache := temporaryCache st;
     released := released st; log := l |}.

(** [Object.entries(cache.storage)], each entry with the content of its
    object.  The keys are tab ids, which an object lists in ascending order. *)
Definition key_le (a b : Z * nat) : Prop := a.1 ≤ b.1.

#[global] Instance key_le_dec a b : Decision (key_le a b).
Proof. unfold key_le. apply _. Defined.

Definition entries (c : SessionDataCache.t) : list (Z * gmap string value) :=
  omap (λ p, pair p.1 <$> SessionDataCache.objects c !! p.2)
       (merge_sort key_le (map_to_list (SessionDataCache._storage c))).

(** [deepCopy(cache.storage)] (common/utilities.js): the same entries in
    objects of their own. *)
Definition deepCopy (c : SessionDataCache.t) : list (Z * gmap string value) :=
  entries c.

(** [new TabSessionDataCache({ initialStorage, monitoredKeys, getTabData })],
    part of lines 333-353: [getTabData] says whether the cache fetches the
    values of the tabs ([false] is line 343, a function is line 306). *)
Definition TabSessionDataCache_new
    (initialStorage : option (list (Z * gmap string value)))
    (monitoredKeys : list string) (getTabData : bool) : SessionDataCache.t :=
  foldl (λ c p,
           SessionDataCache.with_storage
             (<[p.1 := length (SessionDataCache.objects c)]> (SessionDataCache._storage c))
             (SessionDataCache._asyncStorage c) (SessionDataCache.hydration c)
             (SessionDataCache.with_objects (SessionDataCache.objects c ++ [p.2]) c))
        (SessionDataCache.new monitoredKeys getTabData)
        (default [] initialStorage).

(** [setTimeToKeepCacheInMilliseconds(value)], lines 239-251. *)
Definition setTimeToKeepCacheInMilliseconds (value : Z) (st : t) : t :=
  let value := if value <? 0 then -1 else value in
  if value =? timeToKeepCacheInMilliseconds st then st
  else
    let st := with_time value st in
    match sessionTimeout st with
    | Some tm =>
        if isActive tm
        then with_timeout (Some (Timeout_new (callback tm) value)) st
        else st
    | None => st
    end.

(** [getCache()], lines 296-348: the cache in use and the module after the
    call. *)
Definition getCache (st : t) : SessionDataCache.t * t :=
  if useSessionStorage st then
    match sessionDataCache st with
    | Some c => (c, st)
    | None =>
        let cache := TabSessionDataCache_new None [kTAB_DATA_KEY_MARKED] true in
        (cache, with_log (log st ++ [StartThenMigrate]) (with_session (Some cache) st))
    end
  else
    match temporaryCache st with
    | Some c => (c, st)
    | None =>
        let initialStorage := deepCopy <$> sessionDataCache st in
        let cache := TabSessionDataCache_new initialStorage [kTAB_DATA_KEY_MARKED] false in
        (cache, with_temporary (Some cache) st)
    end.

(** [removeSessionCache()], lines 398-418, up to its [await]: by then the
    session cache is disposed and dropped, and [removeTabValue] was called
    for each key of each saved entry. *)
Definition removeSessionCache (st : t) : t :=
  match sessionDataCache st with
  | Some c =>
      if useSessionStorage st then st
      else
        let st := (getCache st).2 in
        let savedData := deepCopy c in
        let st := with_session None
                    (with_released (released st ++ [SessionDataCache.dispose c]) st) in
        with_log (log st ++
                  flat_map (λ p, RemoveTabValue p.1 <$> (map_to_list p.2).*1) savedData)
                 st
  | None => st
  end.

(** [setUseSessionStorage(value)], lines 258-285. *)
Definition setUseSessionStorage (value : bool) (st : t) : t :=
  if bool_decide (value = useSessionStorage st) then st
  else
    let st := with_use value st in
    let st := with_timeout (Timeout_dispose <$> sessionTimeout st) st in
    if useSessionStorage st then
      match sessionDataCache st with
      | Some _ => with_log (log st ++ [MigrateTempData]) st
      | None => (getCache st).2
      end
    else
      match sessionDataCache st with
      | Some _ =>
          if timeToKeepCacheInMilliseconds st <? 0
          then removeSessionCache st
          else with_timeout
                 (Some (Timeout_new RemoveSessionCache (timeToKeepCacheInMilliseconds st)))
                 st
      | None => st
      end.

(** Modelled from the spec: when its time has passed, an active timer runs
    its callback ("free the in-memory secondary cache after a configurable
    idle period"). *)
Definition timeout_fires (st : t) : t :=
  match sessionTimeout st with
  | Some tm =>
      if isActive tm
      then removeSessionCache (with_timeout (Some (Timeout_dispose tm)) st)
      else st
  | None => st
  end.

(** What the promise of an async function settles with. *)
Inductive outcome (A : Type) :=
  | Suspended            (* an awaited promise never settles *)
  | Resolved (a : A)
  | Rejected.
Arguments Suspended {A}.
Arguments Resolved {A} a.
Arguments Rejected {A}.

(** How a [try] block ends. *)
Inductive completion := Return (b : bool) | Throw.

(** What an awaited call of [getTabMark(tabId)] (lines 439-449) does: it
    resolves with the mark of the tab ([null] is [None]), or it catches an
    error (the cache does not know the tab, or [getCache()] threw), logs it
    and resolves with [null]. *)
Inductive mark_read :=
  | MarkIs (mark : option string)
  | MarkUnread.

Definition mark_read_value (r : mark_read) : option string :=
  match r with MarkIs mark => mark | MarkUnread => None end.

Definition mark_read_log (r : mark_read) : list effect :=
  match r with MarkIs _ => [] | MarkUnread => [LogErrorInGetTabMark] end.

(** What [createTabMark] meets at its [await]s: what [getTabMark] does, the
    policy when line 469 reads it, and whether
    [browser.sessions.setTabValue] is fulfilled. *)
Record mark_env := MarkEnv {
  getTabMark_result : mark_read;
  useSessionStorage_then : bool;
  setTabValue_fulfilled : bool;
}.

(** The [try] block of [createTabMark], lines 462-480.  Line 465 calls
    [getTabMark] unless the session data is forced. *)
Definition createTabMark_try (E : mark_env) (tabId : Z) (color : string)
    (forceSetSessionData notifyChange : bool) : list effect * completion :=
  if negb (bool_decide (color ∈ Assoc.keys kCOLORS)) then ([], Throw)
  else
    let read := if forceSetSessionData then []
                else mark_read_log (getTabMark_result E) in
    if negb forceSetSessionData &&
       bool_decide (mark_read_value (getTabMark_result E) = Some color)
    then (read, Return true)
    else
      let changeDetails :=
        {| entryId := tabId; key := kTAB_DATA_KEY_MARKED; newValue := Some color |} in
      let notify := if notifyChange then [FireTemp changeDetails] else [] in
      if useSessionStorage_then E || forceSetSessionData then
        if setTabValue_fulfilled E
        then (read ++ SetTabValue tabId kTAB_DATA_KEY_MARKED color ::
                      FireSession changeDetails :: notify, Return true)
        else (read ++ [SetTabValue tabId kTAB_DATA_KEY_MARKED color], Throw)
      else (read ++ notify, Return true).

(** [createTabMark(tabId, color, { forceSetSessionData, notifyChange })],
    lines 460-485. *)
Definition createTabMark (E : mark_env) (tabId : Z) (color : string)
    (forceSetSessionData notifyChange : bool) : list effect * outcome bool :=
  match createTabMark_try E tabId color forceSetSessionData notifyChange with
  | (effects, Return b) => (effects, Resolved b)
  | (effects, Throw) => (effects ++ [LogError], Resolved false)   (* lines 481-484 *)
  end.

(** What [getMarkedTabIds] meets: whether [getCache()] returns or throws,
    how [data.start] settles ([None]: never), and the cache [data] as it is
    when the function resumes. *)
Record ids_env := IdsEnv {
  getCache_returns : bool;
  start_settles : option bool;
  at_resume : SessionDataCache.t;
}.

Definition isMarked (tabData : gmap string value) : bool :=
  truthy (default Undefined (tabData !! kTAB_DATA_KEY_MARKED)).

(** [getMarkedTabIds()], lines 420-432; [null] is [None]. *)
Definition getMarkedTabIds (E : ids_env) (st : t)
    : outcome (option (list string)) * t :=
  if getCache_returns E then
    let st := (getCache st).2 in
    match start_settles E with
    | None => (Suspended, st)
    | Some true =>
        (Resolved (Some (map (λ p, pretty p.1)
                           (List.filter (λ p, isMarked p.2) (entries (at_resume E))))),
         st)
    | Some false => (Resolved None, with_log (log st ++ [LogError]) st)
    end
  else (Resolved None, with_log (log st ++ [LogError]) st).

(** The module after the keep time was set to [-5] and the session storage
    was turned on. *)
Definition keeps_forever : t :=
  setUseSessionStorage true (setTimeToKeepCacheInMilliseconds (-5) init).

(** A cache with the tabs 3 (marked red), 7 (no mark) and 12 (marked blue). *)
Definition three_tabs : SessionDataCache.t :=
  SessionDataCache.run
    (TabSessionDataCache_new
       (Some [(3, {[ "marked" := Str "red" ]}); (7, ∅); (12, {[ "marked" := Str "blue" ]})])
       [kTAB_DATA_KEY_MARKED] false)
    [SessionDataCache.EStartSettles true].

End MarkerTabData.

(** ** TSTCustomStateCache: further operations and predicates *)
Module TSTCacheOps.
Import CustomStateCache.

(** The operation that [_onTabRemoved] queues for a class when none is
    pending for the tab. *)
Definition removal (tabId : Z) (state : string) : op :=
  Op tabId state OpTabRemoved None None None false PAwaitLast.

(** [Object.entries(cache.cache)]: the keys are tab ids, which an object
    lists in ascending order. *)
Definition tab_le (a b : Z * bool) : Prop := a.1 ≤ b.1.

#[global] Instance tab_le_dec a b : Decision (tab_le a b).
Proof. unfold tab_le. apply _. Defined.

Definition cache_entries (c : state_cache) : list (Z * bool) :=
  merge_sort tab_le (map_to_list (cache c)).

(** What [clear] collects in [ops] for a tab: the promise of a call of
    [set] (what the call returned), or [true]. *)
Inductive clear_op :=
  | ClearSet (queued : result (option nat))
  | ClearTrue.

(** Lines 517-520 for one tab of a class: the call of [set] up to its
    suspension. *)
Definition clear_tab (state : string) (acc : list clear_op * t) (p : Z * bool)
    : list clear_op * t :=
  if p.2
  then let r := set p.1 state false acc.2 in (acc.1 ++ [ClearSet r.1], r.2)
  else (acc.1 ++ [ClearTrue], acc.2).

(** Line 516 for one class. *)
Definition clear_state (state : string) (acc : list clear_op * t) : list clear_op * t :=
  match Assoc.lookup state (_statesCaches acc.2) with
  | Some c => foldl (clear_tab state) acc (cache_entries c)
  | None => acc
  end.

(** The tabs that the cache believes something of for a class, in ascending
    order. *)
Definition entries_at (s : t) (state : string) : list (Z * bool) :=
  match Assoc.lookup state (_statesCaches s) with
  | Some c => cache_entries c
  | None => []
  end.

(** Is the class among [states]?  Line 513, for [states] that is [null] or
    an array. *)
Definition cleared (states : option (list string)) (state : string) : bool :=
  match states with
  | Some l => bool_decide (state ∈ l)
  | None => true
  end.

(** [clear(states)], lines 507-525, up to its [await]: what it collected in
    [ops] ([None] when line 508 returned [false]) and the cache. *)
Definition clear (states : option (list string)) (s : t) : option (list clear_op) * t :=
  if isDisposed s then (None, s)
  else
    let r := foldl (λ acc state, if cleared states state then clear_state state acc else acc)
                   ([], s) (Assoc.keys (_statesCaches s)) in
    (Some r.1, r.2).

(** The tabs and classes that [clear(states)] calls [set] for, in the order
    of the calls. *)
Definition clear_targets (states : option (list string)) (s : t) : list (Z * string) :=
  Assoc.keys (_statesCaches s) ≫= λ state,
    if cleared states state
    then (λ p : Z * bool, (p.1, state)) <$> List.filter snd (entries_at s state)
    else [].

(** A tab as Tree Style Tab describes it ([getTSTTabs],
    tree-style-tab/utilities.js, outside the sources at hand): its id and
    the classes that it has in the sidebar. *)
Record tst_tab := TstTab {
  tab_id : Z;
  tab_states : list string;
}.

(** What [updateFromTST] meets at its [await]s: the tabs of the browser
    and the cache when [browser.tabs.query] has resolved; what
    [getTSTTabs] resolves with for the tabs that it is asked for ([None]:
    its promise rejects), and the cache by then. *)
Record update_env := UpdateEnv {
  u_all_tabs : list Z;
  u_after_query : t;
  u_tst_tabs : list Z → option (list tst_tab);
  u_after_tabs : t;
}.

(** [cache.cache[tab.id] = true] and [delete cache.cache[tab.id]], after
    [const cache = this._getCache(state); if (cache)]: the cache, and whether
    a [TypeError] was thrown (the name is a member of [Object.prototype]). *)
Definition believe (state : string) (tabId : Z) (s : t) : t * bool :=
  match _getCache state s with
  | (Entry _, s') => (update_state_cache state (cache_write tabId true) s', false)
  | (NoCache, s') => (s', false)
  | (Inherited, s') => (s', true)
  end.

Definition forget (state : string) (tabId : Z) (s : t) : t * bool :=
  match _getCache state s with
  | (Entry _, s') => (update_state_cache state (cache_delete tabId) s', false)
  | (NoCache, s') => (s', false)
  | (Inherited, s') => (s', true)
  end.

(** A [for ... of] loop whose body can throw: it ends at the first element
    for which the body throws. *)
Definition for_of {A} (body : t → A → t * bool) (s : t) (l : list A) : t * bool :=
  foldl (λ (acc : t * bool) x, if acc.2 then acc else body acc.1 x) (s, false) l.

(** Lines 289-298: one tab, for a state whose cache is an entry. *)
Definition update_tab (state : string) (remove add : bool) (s : t) (tab : tst_tab) : t :=
  if bool_decide (state ∈ tab_states tab)
  then if add then update_state_cache state (cache_write (tab_id tab) true) s else s
  else if remove then update_state_cache state (cache_delete (tab_id tab)) s else s.

(** Lines 289-298 for a member of [Object.prototype]: is there a tab for
    which [cache.cache] is accessed? *)
Definition accessed (state : string) (remove add : bool) (tab : tst_tab) : bool :=
  if bool_decide (state ∈ tab_states tab) then add else remove.

(** Lines 286-300: the states are known. *)
Definition update_known (affectedStates : list string) (tstTabs : list tst_tab)
    (remove add : bool) (s : t) : t * bool :=
  for_of (λ s state,
            match _getCache state s with
            | (Entry _, s') => (foldl (update_tab state remove add) s' tstTabs, false)
            | (NoCache, s') => (s', false)
            | (Inherited, s') => (s', existsb (accessed state remove add) tstTabs)
            end) s affectedStates.

(** [statesToRemove.splice(statesToRemove.indexOf(state), 1)]: the first
    occurrence is removed. *)
Fixpoint remove_first (state : string) (l : list string) : list string :=
  match l with
  | [] => []
  | x :: l' => if String.eqb state x then l' else x :: remove_first state l'
  end.

(** Lines 313-322: the states of one tab; [statesToRemove] is [None] when
    it is [false] or [null]. *)
Definition add_states (statesToRemove : option (list string)) (tab : tst_tab) (s : t)
    : option (list string) * (t * bool) :=
  foldl (λ (acc : option (list string) * (t * bool)) state,
           if acc.2.2 then acc
           else (remove_first state <$> acc.1, believe state (tab_id tab) acc.2.1))
        (statesToRemove, (s, false)) (tab_states tab).

(** Lines 310-340 for one tab: the cache, and whether something threw (a
    [for ... of] loop over [null] or [false], or an access through a member
    of [Object.prototype]). *)
Definition update_tab_any (originalStates : option (list string)) (remove add : bool)
    (s : t) (tab : tst_tab) : t * bool :=
  if add then
    (* line 312 *)
    let statesToRemove := if remove then originalStates else None in
    (* lines 313-322 *)
    let r := add_states statesToRemove tab s in
    if r.2.2 then r.2
    else
      (* lines 323-328 *)
      match r.1 with
      | Some l => for_of (λ s state, forget state (tab_id tab) s) r.2.1 l
      | None => (r.2.1, true)
      end
  else
    (* lines 330-338 *)
    match originalStates with
    | Some l =>
        for_of (λ s state,
                  if bool_decide (state ∈ tab_states tab) then (s, false)
                  else forget state (tab_id tab) s) s l
    | None => (s, true)
    end.

(** Lines 304-341: the states are not known.  The loop over the tabs ends
    at the tab for which something threw. *)
Definition update_any (tstTabs : list tst_tab) (remove add : bool) (s : t) : t * bool :=
  let originalStates :=
    match Assoc.keys (_statesCaches s) with
    | [] => None
    | l => Some l
    end in
  for_of (update_tab_any originalStates remove add) s tstTabs.

(** [updateFromTST(tabIds, { states, remove, add })], lines 266-342, called
    on the cache [s], for [tabIds] and [states] that are [null] or arrays:
    the cache when the function has ended, and whether its promise rejected
    ([false]: it resolved). *)
Definition updateFromTST (E : update_env) (s : t) (tabIds : option (list Z))
    (states : option (list string)) (remove add : bool) : t * bool :=
  if isDisposed s then (s, false)
  else if negb remove && negb add then (s, false)
  else
    let affectedStates := ForceNotify._getAffectedStates states s in
    if bool_decide (affectedStates = Some []) then (s, false)
    else
      let go (tabIds : list Z) :=
        match u_tst_tabs E tabIds with
        | None => (u_after_tabs E, true)
        | Some tstTabs =>
            if isDisposed (u_after_tabs E) then (u_after_tabs E, false)
            else
              match affectedStates with
              | Some l => update_known l tstTabs remove add (u_after_tabs E)
              | None => update_any tstTabs remove add (u_after_tabs E)
              end
        end in
      match tabIds with
      | None =>
          if isDisposed (u_after_query E) then (u_after_query E, false)
          else go (u_all_tabs E)
      | Some tabIds => go tabIds
      end.

(** The tab has a class that is the name of a member of
    [Object.prototype]. *)
Definition has_inherited_class (tab : tst_tab) : bool :=
  existsb inherited (tab_states tab).

(** A live cache that was created for all class names. *)
Definition unrestricted (s : t) : Prop :=
  isDisposed s = false ∧ _classNames s = None ∧ names_inv s.

(** What [updateFromTST] makes of a belief for a tab that Tree Style Tab
    described. *)
Definition updated (remove add hasState : bool) (old : option bool) : option bool :=
  if hasState then (if add then Some true else old)
  else (if remove then None else old).

End TSTCacheOps.

(** ** SessionDataCache: the handlers from the event to their end *)
Module SessionEvents.
Import JS SessionDataCache.

(** The handler of a removed entry, lines 236-248, on a cache whose start
    has settled: the event and the two resumptions that end it. *)
Definition entry_removed (entryId : Z) (s : t) : t :=
  let h := length (handlers s) in
  run s [EHandler (OnEntryRemoved entryId); EResume h; EResume h].

(** The handler of a created entry, lines 224-229, likewise. *)
Definition entry_created (entryId : Z) (s : t) : t :=
  let h := length (handlers s) in
  run s [EHandler (OnEntryCreated entryId); EResume h; EResume h].

(** Every entry of [_storage] names an object of the cache. *)
Definition storage_wf (s : t) : Prop :=
  ∀ entryId d, _storage s !! entryId = Some d → (d < length (objects s))%nat.

End SessionEvents.

(** ** The marks of the tabs: reading and removing a mark, and the module
    as a machine (background/marker-tab-data.js) *)
Module TabMarks.
Import JS MarkerTabData.

(** [getDataForEntryId(entryId)] of the session cache
    (common/session-data-cache.js, lines 258-267): [s] is the cache when
    [await this.start] resumes and [s'] the cache when the promise of the
    entry has settled.  [null] is [None]. *)
Definition getDataForEntryId (entryId : Z) (s s' : SessionDataCache.t)
    : outcome (option (gmap string value)) :=
  match SessionDataCache.start s with
  | None => Suspended
  | Some _ =>
      match SessionDataCache._storage s !! entryId with
      | None => Resolved None
      | Some data =>
          let hydrated :=
            if bool_decide (data ∈ SessionDataCache._asyncStorage s)
            then default SessionDataCache.Fulfilled
                   (SessionDataCache.hydration s' !! data)
            else SessionDataCache.Fulfilled in
          match hydrated with
          | SessionDataCache.Pending => Suspended
          | SessionDataCache.Failed => Rejected
          | SessionDataCache.Fulfilled =>
              Resolved (SessionDataCache.objects s' !! data)
          end
      end
  end.

(** [getTabMark(tabId)], lines 439-449: what it logs and what its promise
    settles with.  [getCache_returns] says whether [getCache()] returned or
    threw; [s] and [s'] are the cache that it returned, as for
    [getDataForEntryId].  For an entry that is not known [keyValues] is
    [null] and line 443 throws. *)
Definition getTabMark (tabId : Z) (getCache_returns : bool)
    (s s' : SessionDataCache.t) : list effect * outcome (option value) :=
  if getCache_returns then
    match getDataForEntryId tabId s s' with
    | Suspended => ([], Suspended)
    | Rejected => ([LogErrorInGetTabMark], Resolved None)
    | Resolved None => ([LogErrorInGetTabMark], Resolved None)
    | Resolved (Some keyValues) =>
        let value := default Undefined (keyValues !! kTAB_DATA_KEY_MARKED) in
        ([], Resolved (if truthy value then Some value else None))
    end
  else ([LogErrorInGetTabMark], Resolved None).

(** What [removeTabMark] meets for each tab: what [getTabMark] does, the
    policy when line 504 reads it, and whether
    [browser.sessions.removeTabValue] is fulfilled. *)
Record unmark_env := UnmarkEnv {
  mark_of : Z → mark_read;
  useSessionStorage_for : Z → bool;
  removeTabValue_fulfilled : Z → bool;
}.

(** The [try] block of [removeTabMark] for one tab, lines 500-515.  Line
    500 calls [getTabMark] unless the session data is forced. *)
Definition removeTabMark_try (E : unmark_env) (tabId : Z)
    (forceSetSessionData notifyChange : bool) : list effect * completion :=
  let read := if forceSetSessionData then [] else mark_read_log (mark_of E tabId) in
  if negb forceSetSessionData && bool_decide (mark_read_value (mark_of E tabId) = None)
  then (read, Return true)
  else
    let changeDetails :=
      {| entryId := tabId; key := kTAB_DATA_KEY_MARKED; newValue := None |} in
    let notify := if notifyChange then [FireTemp changeDetails] else [] in
    if useSessionStorage_for E tabId || forceSetSessionData then
      if removeTabValue_fulfilled E tabId
      then (read ++ RemoveTabValue tabId kTAB_DATA_KEY_MARKED ::
                    FireSession changeDetails :: notify, Return true)
      else (read ++ [RemoveTabValue tabId kTAB_DATA_KEY_MARKED], Throw)
    else (read ++ notify, Return true).

(** [removeTabMark(tabId, { forceSetSessionData, notifyChange })] for one
    tab, lines 495-520. *)
Definition removeTabMark (E : unmark_env) (tabId : Z)
    (forceSetSessionData notifyChange : bool) : list effect * outcome bool :=
  match removeTabMark_try E tabId forceSetSessionData notifyChange with
  | (effects, Return b) => (effects, Resolved b)
  | (effects, Throw) => (effects ++ [LogError], Resolved false)   (* lines 516-519 *)
  end.

Definition is_rejected {A} (o : outcome A) : bool :=
  match o with Rejected => true | _ => false end.

(** [removeTabMark(tabIds, ...)] for an array, lines 497-498 and 515-519:
    the effects of the call for each tab (the calls run side by side, so
    that their effects are kept apart), what the call itself logs, and what
    its promise settles with.  [Promise.all] rejects when one of the
    promises does. *)
Definition removeTabMarks (E : unmark_env) (tabIds : list Z)
    (forceSetSessionData notifyChange : bool)
    : list (list effect) * list effect * outcome bool :=
  let results := map (λ tabId, removeTabMark E tabId forceSetSessionData notifyChange)
                     tabIds in
  if existsb (λ r, is_rejected r.2) results
  then (map fst results, [LogError], Resolved false)
  else (map fst results, [], Resolved true).

(** Is the effect one of the two events of the marks? *)
Definition is_event (e : effect) : bool :=
  match e with FireSession _ | FireTemp _ => true | _ => false end.

(** The module as a machine: the exported setters, [getCache] (which the
    exported readers call), and the timer. *)
Inductive module_event :=
  | SetTimeToKeep (value : Z)
  | SetUseSessionStorage (value : bool)
  | GetCache
  | TimeoutFires.

Definition module_step (st : t) (e : module_event) : t :=
  match e with
  | SetTimeToKeep value => setTimeToKeepCacheInMilliseconds value st
  | SetUseSessionStorage value => setUseSessionStorage value st
  | GetCache => (getCache st).2
  | TimeoutFires => timeout_fires st
  end.

Definition module_run (st : t) (tr : list module_event) : t := foldl module_step st tr.

(** Is the timer of the module running? *)
Definition timer_active (st : t) : bool :=
  match sessionTimeout st with Some tm => isActive tm | None => false end.

(** What the variables of the module keep to. *)
Record module_inv (st : t) : Prop := ModuleInv {
  inv_time : -1 ≤ timeToKeepCacheInMilliseconds st;
  inv_timer : ∀ tm, sessionTimeout st = Some tm → isActive tm = true →
    timeInMilliseconds tm = timeToKeepCacheInMilliseconds st ∧
    callback tm = RemoveSessionCache;
  inv_pending : timer_active st = true ↔
    useSessionStorage st = false ∧ is_Some (sessionDataCache st);
  inv_session : useSessionStorage st = true → is_Some (sessionDataCache st);
}.

End TabMarks.

(** ** The commands (background/background.js) *)
Module TabCommands.
Import MarkerTabData.

(** What a command does with the tabs. *)
Inductive command :=
  | Nothing                                   (* returns at once *)
  | Fails                                     (* the promise rejects *)
  | MarkAll (tabIds : list Z) (color : string)   (* [createTabMark] for each tab *)
  | UnmarkAll (tabIds : list Z).                 (* [removeTabMark(tabIds)] *)

(** [toggleTabColor({ tabs, colorToToggle })], lines 102-124, for [tabs]
    that is [null] or an array of tabs, given by their ids.
    [currentState] is what [getTabMark] resolved with for each tab: [null]
    ([None]) or a color, never [undefined], so that the filter of line 116
    keeps every element. *)
Definition toggleTabColor (enabled : bool) (tabs : option (list Z))
    (colorToToggle : string) (getTabMark : Z → option string) : command :=
  match tabs with
  | None => Nothing
  | Some tabIds =>
      if negb enabled then Nothing
      else if negb (bool_decide (colorToToggle ∈ Assoc.keys kCOLORS)) then Fails
      else
        let currentState := map getTabMark tabIds in
        let totalCount := length (List.filter (λ state, true) currentState) in
        let markedCount :=
          length (List.filter (λ state, bool_decide (state = Some colorToToggle))
                    currentState) in
        if (markedCount <? totalCount)%nat then MarkAll tabIds colorToToggle
        else UnmarkAll tabIds
  end.

(** [setTabColor({ tabs, value })], lines 133-146, likewise; [value] is
    'toolbar' when it is not given. *)
Definition setTabColor (enabled : bool) (tabs : option (list Z))
    (value : option string) : command :=
  match tabs with
  | None => Nothing
  | Some tabIds =>
      if negb enabled then Nothing
      else
        let value := default "toolbar" value in
        if negb (String.eqb value "toolbar") then MarkAll tabIds value
        else UnmarkAll tabIds
  end.

End TabCommands.

(** ** The marks as classes of Tree Style Tab
    (background/tst-custom-state-sync.js) *)
Module StateSync.
Import MarkerTabData.

(** The class names that [start] creates the cache for, line 97. *)
Definition classNames (statePrefix : string) : list string :=
  map (λ col, statePrefix +:+ col) (Assoc.keys kCOLORS).

(** The listener of [onTabTempValueChanged], lines 110-118, on the cache
    [c]: the calls of [c.set] up to their suspension. *)
Definition markChanged (statePrefix : string) (args : SessionDataChangeInfo)
    (c : CustomStateCache.t) : CustomStateCache.t :=
  if negb (String.eqb (key args) kTAB_DATA_KEY_MARKED) then c
  else
    foldl (λ c color,
             (CustomStateCache.set (entryId args) (statePrefix +:+ color)
                (bool_decide (Some color = newValue args)) c).2)
          c (Assoc.keys kCOLORS).

(** The operation that the listener queues for a color. *)
Definition listener_op (statePrefix : string) (args : SessionDataChangeInfo)
    (c : CustomStateCache.t) (color : string) : CustomStateCache.op :=
  CustomStateCache.Op (entryId args) (statePrefix +:+ color)
     (CustomStateCache.OpSet (bool_decide (Some color = newValue args)))
     (CustomStateCache.tail c (entryId args) (statePrefix +:+ color))
     None (Some false) false CustomStateCache.PAwaitLast.

End StateSync.

(** * Properties *)

(** ** Objects as association lists *)
Section AssocFacts.
Import Assoc.
Context {A : Type}.
Implicit Types (k : string) (v : A) (l : list (string * A)).

Lemma assoc_lookup_set_eq k (v : A) l : lookup k (set k v l) = Some v.
Proof.
  induction l as [|[k' v'] l IH]; simpl.
  - by rewrite String.eqb_refl.
  - destruct (String.eqb k k') eqn:E; simpl.
    + by rewrite String.eqb_refl.
    + by rewrite E.
Qed.

Lemma assoc_lookup_set_ne k k' (v : A) l :
  k ≠ k' → lookup k' (set k v l) = lookup k' l.
Proof.
  intros Hne. induction l as [|[k0 v0] l IH]; simpl.
  - destruct (String.eqb k' k) eqn:E; [|done].
    apply String.eqb_eq in E. congruence.
  - destruct (String.eqb k k0) eqn:E; simpl.
    + apply String.eqb_eq in E. subst k0.
      destruct (String.eqb k' k) eqn:E'; [|done].
      apply String.eqb_eq in E'. congruence.
    + by rewrite IH.
Qed.

Lemma assoc_lookup_set k k' (v : A) l :
  lookup k' (set k v l) = if decide (k = k') then Some v else lookup k' l.
Proof.
  case_decide; [subst; apply assoc_lookup_set_eq | by apply assoc_lookup_set_ne].
Qed.


End AssocFacts.

(** ** The operation queue: invariants of the list of operations *)
Section QueueInvariants.
Import CustomStateCache.
Implicit Types (l : list op) (o : op) (i j k : nat) (log : list nat).

Lemma settled_not_waiting o : settled o = true → op_pc o ≠ PAwaitLast.
Proof. unfold settled. destruct (op_pc o); congruence. Qed.

Lemma waiting_not_settled o : op_pc o = PAwaitLast → settled o = false.
Proof. unfold settled. by intros ->. Qed.

Lemma executing_not_settled o : executing o = true → settled o = false.
Proof. unfold executing, settled. by destruct (op_pc o). Qed.

(** When the promise that an operation awaits is settled, every earlier
    operation of its scope is settled. *)
Lemma preds_settled l i o :
  ops_inv l → l !! i = Some o →
  (∀ j, op_lastOp o = Some j → ∃ oj, l !! j = Some oj ∧ settled oj = true) →
  ∀ k ok, (k < i)%nat → l !! k = Some ok → scope ok = scope o →
          settled ok = true.
Proof.
  intros Hinv Hi Hlast k ok Hk Hok Hsc.
  destruct (settled ok) eqn:E; [done|].
  destruct (inv_last _ Hinv i o k ok Hi Hok Hk Hsc E)
    as (j & oj & Hj & Hle & Hoj & Hscj).
  destruct (Hlast j Hj) as (oj' & Hoj' & Hs).
  rewrite Hoj in Hoj'. injection Hoj' as <-.
  destruct (decide (k = j)) as [->|Hne]; [congruence|].
  assert (op_pc oj = PAwaitLast) as Hw.
  { apply (inv_order _ Hinv k j ok oj Hok Hoj); [lia|congruence|done]. }
  apply waiting_not_settled in Hw. congruence.
Qed.

Lemma ops_inv_nil : ops_inv [].
Proof. split; intros; simplify_list_eq. Qed.

Lemma ops_inv_snoc l o :
  ops_inv l → op_pc o = PAwaitLast → op_promise o = None →
  (∀ k ok, l !! k = Some ok → scope ok = scope o → settled ok = false →
     ∃ j oj, op_lastOp o = Some j ∧ (k ≤ j < length l)%nat ∧
             l !! j = Some oj ∧ scope oj = scope o) →
  ops_inv (l ++ [o]).
Proof.
  intros Hinv Hpc Hpr Hlast. split.
  - intros i o' [[? Hi]|[-> <-]]%lookup_snoc_Some.
    + by eapply inv_promise.
    + rewrite Hpr, (waiting_not_settled _ Hpc). split; [by intros [? ?]|done].
  - intros i o' k ok [[? Hi]|[-> <-]]%lookup_snoc_Some
      [[? Hk]|[-> <-]]%lookup_snoc_Some Hlt Hsc Hset; try lia.
    + destruct (inv_last _ Hinv i o' k ok Hi Hk Hlt Hsc Hset)
        as (j & oj & ? & ? & ? & ?).
      exists j, oj. split_and!; try done; try lia.
      rewrite lookup_app_l; [done|lia].
    + destruct (Hlast k ok Hk Hsc Hset) as (j & oj & ? & ? & ? & ?).
      exists j, oj. split_and!; try done; try lia.
      rewrite lookup_app_l; [done|lia].
  - intros i j oi oj [[? Hi]|[-> <-]]%lookup_snoc_Some
      [[? Hj]|[-> <-]]%lookup_snoc_Some Hlt Hsc Hset; try lia.
    + by eapply (inv_order _ Hinv i j).
    + done.
Qed.

Lemma ops_inv_insert l i o o' :
  ops_inv l → l !! i = Some o →
  scope o' = scope o → op_lastOp o' = op_lastOp o →
  (is_Some (op_promise o') ↔ settled o' = true) →
  (settled o = true → settled o' = true) →
  (op_pc o' ≠ PAwaitLast →
   ∀ j, op_pc o = PAwaitLast → op_lastOp o = Some j →
        ∃ oj, l !! j = Some oj ∧ settled oj = true) →
  ops_inv (<[i:=o']> l).
Proof.
  intros Hinv Hi Hsc Hlo Hpr Hmono Hleave.
  assert (∀ k ok, <[i:=o']> l !! k = Some ok →
            ∃ ok0, l !! k = Some ok0 ∧ scope ok = scope ok0 ∧
                   op_lastOp ok = op_lastOp ok0 ∧
                   (settled ok = false → settled ok0 = false) ∧
                   (k ≠ i → ok = ok0) ∧ (k = i → ok = o' ∧ ok0 = o)) as Hold.
  { intros k ok [(-> & <- & ?)|[? ?]]%list_lookup_insert_Some.
    - exists o. split_and!; try done.
      intros E. destruct (settled o) eqn:E'; [|done]. rewrite Hmono in E; done.
    - exists ok. split_and!; try done. }
  assert (∀ k ok0, l !! k = Some ok0 →
            ∃ ok, <[i:=o']> l !! k = Some ok ∧ scope ok = scope ok0) as Hnew.
  { intros k ok0 Hk. destruct (decide (k = i)) as [->|Hne].
    - exists o'. rewrite list_lookup_insert_eq by (by eapply lookup_lt_Some).
      rewrite Hi in Hk. injection Hk as <-. done.
    - exists ok0. by rewrite list_lookup_insert_ne. }
  split.
  - intros k ok [(-> & <- & ?)|[? ?]]%list_lookup_insert_Some; [done|].
    by eapply inv_promise.
  - intros a oa k ok Ha Hk Hlt Hsca Hset.
    destruct (Hold _ _ Ha) as (oa0 & Ha0 & Hsa & Hla & _).
    destruct (Hold _ _ Hk) as (ok0 & Hk0 & Hsk & _ & Hsetk & _).
    destruct (inv_last _ Hinv a oa0 k ok0 Ha0 Hk0 Hlt) as (j & oj & ? & ? & Hj & ?);
      [congruence|by apply Hsetk|].
    destruct (Hnew _ _ Hj) as (oj' & ? & ?).
    exists j, oj'. split_and!; try done; try lia; congruence.
  - intros a b oa ob Ha Hb Hlt Hsc' Hset.
    destruct (Hold _ _ Ha) as (oa0 & Ha0 & Hsa & _ & Hseta & _).
    destruct (Hold _ _ Hb) as (ob0 & Hb0 & Hsb & _ & _ & Hbne & Hbeq).
    assert (op_pc ob0 = PAwaitLast) as Hw.
    { apply (inv_order _ Hinv a b oa0 ob0 Ha0 Hb0 Hlt); [congruence|by apply Hseta]. }
    destruct (decide (b = i)) as [->|Hne]; [|by rewrite (Hbne Hne)].
    destruct (Hbeq eq_refl) as [-> ->].
    destruct (decide (op_pc o' = PAwaitLast)) as [|Hnw]; [done|].
    exfalso.
    assert (settled oa0 = true); [|specialize (Hseta Hset); congruence].
    eapply (preds_settled l i o Hinv Hi); [|exact Hlt|exact Ha0|congruence].
    intros j Hj. by eapply Hleave.
Qed.

Lemma tail_inv_ext tl tl' l :
  (∀ tabId state, tl' tabId state = tl tabId state) →
  tail_inv tl l → tail_inv tl' l.
Proof. intros Heq H tabId state. rewrite Heq. apply H. Qed.

Lemma tail_inv_nil tl : (∀ tabId state, tl tabId state = None) → tail_inv tl [].
Proof. intros H tabId state. rewrite H. intros k ok Hk. simplify_list_eq. Qed.

Lemma tail_inv_insert tl l i o o' :
  tail_inv tl l → l !! i = Some o → scope o' = scope o →
  (settled o = true → settled o' = true) →
  tail_inv tl (<[i:=o']> l).
Proof.
  intros H Hi Hsc Hmono tabId state. specialize (H tabId state).
  assert (∀ k ok, <[i:=o']> l !! k = Some ok → scope ok = (tabId, state) →
            ∃ ok0, l !! k = Some ok0 ∧ scope ok0 = (tabId, state) ∧
                   (settled ok0 = true → settled ok = true)) as Hold.
  { intros k ok [(-> & <- & ?)|[? ?]]%list_lookup_insert_Some Hs.
    - exists o. split_and!; [done|congruence|done].
    - by exists ok. }
  destruct (tl tabId state) as [j|].
  - destruct H as (oj & Hj & Hscj & Hlater).
    destruct (decide (j = i)) as [->|Hne].
    + exists o'. rewrite list_lookup_insert_eq by (by eapply lookup_lt_Some).
      rewrite Hi in Hj. injection Hj as <-. split_and!; [done|congruence|].
      intros k ok Hlt Hk Hs. destruct (Hold _ _ Hk Hs) as (ok0 & ? & ? & Hm).
      apply Hm. by eapply Hlater.
    + exists oj. rewrite list_lookup_insert_ne by done. split_and!; [done..|].
      intros k ok Hlt Hk Hs. destruct (Hold _ _ Hk Hs) as (ok0 & ? & ? & Hm).
      apply Hm. by eapply Hlater.
  - intros k ok Hk Hs. destruct (Hold _ _ Hk Hs) as (ok0 & ? & ? & Hm).
    apply Hm. by eapply H.
Qed.

(** A new operation is queued: [cache.ops[tabId] = promise]. *)
Lemma tail_inv_snoc tl l o :
  tail_inv tl l →
  tail_inv (λ tabId state,
              if decide ((tabId, state) = scope o) then Some (length l)
              else tl tabId state) (l ++ [o]).
Proof.
  intros H tabId state. specialize (H tabId state). case_decide as Hsc.
  - exists o. rewrite list_lookup_middle by done. split_and!; [done..|].
    intros k ok Hlt [[? ?]|[-> ?]]%lookup_snoc_Some; lia.
  - destruct (tl tabId state) as [j|].
    + destruct H as (oj & Hj & Hscj & Hlater). exists oj.
      rewrite lookup_app_l by (by eapply lookup_lt_Some). split_and!; [done..|].
      intros k ok Hlt [[? ?]|[-> <-]]%lookup_snoc_Some Hs; [by eapply Hlater|].
      congruence.
    + intros k ok [[? ?]|[-> <-]]%lookup_snoc_Some Hs; [by eapply H|congruence].
Qed.

(** A settled operation removes its own promise from [cache.ops]. *)
Lemma tail_inv_clear tl l i o :
  ops_inv l → tail_inv tl l → l !! i = Some o → settled o = true →
  tail_inv (λ tabId state,
              if decide ((tabId, state) = scope o ∧ tl tabId state = Some i)
              then None else tl tabId state) l.
Proof.
  intros Hinv H Hi Hset tabId state. specialize (H tabId state).
  case_decide as Hc; [|done]. destruct Hc as [Hsc Htl]. rewrite Htl in H.
  destruct H as (oi & Hoi & _ & Hlater).
  intros k ok Hk Hs. destruct (settled ok) eqn:E; [done|].
  destruct (Nat.lt_trichotomy k i) as [Hlt|[->|Hgt]].
  - assert (op_pc o = PAwaitLast) as Hw.
    { apply (inv_order _ Hinv k i ok o Hk Hi Hlt); [congruence|done]. }
    apply waiting_not_settled in Hw. congruence.
  - congruence.
  - rewrite <- E. by eapply Hlater.
Qed.

Lemma in_scope_insert l i o o' sc k :
  l !! i = Some o → scope o' = scope o →
  in_scope (<[i:=o']> l) sc k = in_scope l sc k.
Proof.
  intros Hi Hsc. unfold in_scope. destruct (decide (k = i)) as [->|Hne].
  - rewrite list_lookup_insert_eq by (by eapply lookup_lt_Some).
    rewrite Hi. simpl. by rewrite Hsc.
  - by rewrite list_lookup_insert_ne.
Qed.

Lemma in_scope_snoc l o sc k :
  (k < length l)%nat → in_scope (l ++ [o]) sc k = in_scope l sc k.
Proof. intros Hk. unfold in_scope. by rewrite lookup_app_l. Qed.

Lemma filter_ext_in {A} (P Q : A → Prop) `{!∀ x, Decision (P x)}
    `{!∀ x, Decision (Q x)} (l : list A) :
  (∀ x, x ∈ l → P x ↔ Q x) → filter P l = filter Q l.
Proof.
  induction l as [|x l IH]; intros Hext; [done|].
  rewrite !filter_cons. rewrite IH by (intros; apply Hext; by right).
  assert (P x ↔ Q x) as Hx by (apply Hext; by left).
  destruct (decide (P x)) as [HP|HP], (decide (Q x)) as [HQ|HQ]; tauto.
Qed.

Lemma log_inv_nil : log_inv [] [].
Proof. split; [by intros i ?%elem_of_nil|intros; constructor]. Qed.

Lemma log_inv_insert l log i o o' :
  log_inv l log → l !! i = Some o → scope o' = scope o →
  (op_pc o ≠ PAwaitLast → op_pc o' ≠ PAwaitLast) →
  log_inv (<[i:=o']> l) log.
Proof.
  intros [Hst Hso] Hi Hsc Hpc. split.
  - intros k Hk. destruct (Hst k Hk) as (ok & Hok & Hw).
    destruct (decide (k = i)) as [->|Hne].
    + exists o'. rewrite list_lookup_insert_eq by (by eapply lookup_lt_Some).
      split; [done|]. apply Hpc. congruence.
    + exists ok. by rewrite list_lookup_insert_ne.
  - intros sc. erewrite filter_ext_in; [apply (Hso sc)|].
    intros k _. by erewrite in_scope_insert.
Qed.

Lemma log_inv_snoc l log o : log_inv l log → log_inv (l ++ [o]) log.
Proof.
  intros [Hst Hso]. split.
  - intros k Hk. destruct (Hst k Hk) as (ok & Hok & Hw). exists ok.
    rewrite lookup_app_l by (by eapply lookup_lt_Some). done.
  - intros sc. erewrite filter_ext_in; [apply (Hso sc)|].
    intros k Hk. destruct (Hst k Hk) as (ok & Hok & _).
    rewrite in_scope_snoc by (by eapply lookup_lt_Some). done.
Qed.

(** The callback of a waiting operation is invoked. *)
Lemma log_inv_start l log i o o' :
  ops_inv l → log_inv l log → l !! i = Some o →
  op_pc o = PAwaitLast → op_pc o' ≠ PAwaitLast → scope o' = scope o →
  log_inv (<[i:=o']> l) (log ++ [i]).
Proof.
  intros Hinv Hlog Hi Hw Hnw Hsc.
  assert (log_inv (<[i:=o']> l) log) as [Hst Hso].
  { eapply log_inv_insert; eauto. }
  split.
  - intros k [Hk| ->%list_elem_of_singleton]%elem_of_app; [by apply Hst|].
    exists o'. rewrite list_lookup_insert_eq by (by eapply lookup_lt_Some). done.
  - intros sc. rewrite filter_app. apply StronglySorted_app_2; [|apply Hso|].
    + intros k1 k2 [Hin1 Hk1]%list_elem_of_filter Hk2.
      assert (k2 = i ∧ in_scope (<[i:=o']> l) sc i = true) as [-> Hin2].
      { revert Hk2. rewrite filter_cons. case_decide; [|by intros ?%elem_of_nil].
        by intros ->%list_elem_of_singleton. }
      erewrite in_scope_insert in Hin1, Hin2 by done.
      destruct (inv_log_started _ _ Hlog k1 Hk1) as (o1 & Ho1 & Hw1).
      unfold in_scope in Hin1, Hin2. rewrite Ho1 in Hin1. rewrite Hi in Hin2.
      apply bool_decide_eq_true in Hin1, Hin2. simpl in *.
      destruct (Nat.lt_trichotomy k1 i) as [Hlt|[->|Hgt]]; [done| |].
      * congruence.
      * exfalso. apply Hw1.
        apply (inv_order _ Hinv i k1 o o1 Hi Ho1 Hgt); [congruence|].
        by apply waiting_not_settled.
    + rewrite filter_cons. case_decide; repeat constructor.
Qed.

End QueueInvariants.

(** ** The operation queue: what each primitive does to the observations *)
Section QueuePrimitives.
Import CustomStateCache.
Implicit Types (s : t) (o : op) (i j k : nat) (state st : string) (tabId : Z).

Lemma update_state_cache_frame state f s :
  _classNames (update_state_cache state f s) = _classNames s ∧
  isDisposed (update_state_cache state f s) = isDisposed s ∧
  opsList (update_state_cache state f s) = opsList s ∧
  mirrorLog (update_state_cache state f s) = mirrorLog s ∧
  startLog (update_state_cache state f s) = startLog s.
Proof. unfold update_state_cache. by destruct (Assoc.lookup _ _). Qed.

Lemma lookup_update_state_cache state f s st :
  Assoc.lookup st (_statesCaches (update_state_cache state f s)) =
    if decide (state = st) then f <$> Assoc.lookup st (_statesCaches s)
    else Assoc.lookup st (_statesCaches s).
Proof.
  unfold update_state_cache.
  destruct (Assoc.lookup state _) as [c|] eqn:E; simpl.
  - rewrite assoc_lookup_set. case_decide; [subst; by rewrite E|done].
  - case_decide; [subst; by rewrite E|done].
Qed.

Lemma tail_update_state_cache state f s tabId st :
  tail (update_state_cache state f s) tabId st =
    if decide (state = st)
    then c ← Assoc.lookup st (_statesCaches s); ops (f c) !! tabId
    else tail s tabId st.
Proof.
  unfold tail. rewrite lookup_update_state_cache.
  case_decide; [|done]. by destruct (Assoc.lookup st _).
Qed.

Lemma belief_update_state_cache state f s tabId st :
  belief (update_state_cache state f s) tabId st =
    if decide (state = st)
    then c ← Assoc.lookup st (_statesCaches s); cache (f c) !! tabId
    else belief s tabId st.
Proof.
  unfold belief. rewrite lookup_update_state_cache.
  case_decide; [|done]. by destruct (Assoc.lookup st _).
Qed.

Lemma update_op_frame i f s :
  _classNames (update_op i f s) = _classNames s ∧
  isDisposed (update_op i f s) = isDisposed s ∧
  _statesCaches (update_op i f s) = _statesCaches s ∧
  mirrorLog (update_op i f s) = mirrorLog s ∧
  startLog (update_op i f s) = startLog s.
Proof. unfold update_op. by destruct (opsList s !! i). Qed.

Lemma opsList_update_op i f s o :
  opsList s !! i = Some o →
  opsList (update_op i f s) = <[i := f o]> (opsList s).
Proof. unfold update_op. by intros ->. Qed.

Lemma tail_update_op i f s tabId st :
  tail (update_op i f s) tabId st = tail s tabId st.
Proof. unfold tail, update_op. by destruct (opsList s !! i). Qed.

Lemma belief_update_op i f s tabId st :
  belief (update_op i f s) tabId st = belief s tabId st.
Proof. unfold belief, update_op. by destruct (opsList s !! i). Qed.

Lemma foreign_inherited s state : foreign s state = true → inherited state = true.
Proof. unfold foreign. by destruct (Assoc.lookup state (_statesCaches s)). Qed.

Lemma not_inherited_not_foreign s state :
  inherited state = false → foreign s state = false.
Proof. unfold foreign. by destruct (Assoc.lookup state (_statesCaches s)). Qed.

(** [_getCache] either refuses, or finds a member of [Object.prototype], or
    returns the entry of [state], which it creates empty when it is
    missing. *)
Lemma getCache_cases state s :
  (isDisposed s = true ∨ allowed s state = false) ∧
    _getCache state s = (NoCache, s)
  ∨ isDisposed s = false ∧ allowed s state = true ∧ foreign s state = true ∧
    _getCache state s = (Inherited, s)
  ∨ isDisposed s = false ∧ allowed s state = true ∧ foreign s state = false ∧
    ∃ c s', _getCache state s = (Entry c, s') ∧
      Assoc.lookup state (_statesCaches s') = Some c ∧
      _classNames s' = _classNames s ∧ isDisposed s' = isDisposed s ∧
      opsList s' = opsList s ∧ mirrorLog s' = mirrorLog s ∧
      startLog s' = startLog s ∧
      (∀ tabId st, tail s' tabId st = tail s tabId st) ∧
      (∀ tabId st, belief s' tabId st = belief s tabId st).
Proof.
  unfold _getCache, foreign.
  destruct (isDisposed s) eqn:Hd; simpl; [left; auto|].
  destruct (allowed s state) eqn:Ha; simpl; [|left; auto].
  right.
  destruct (Assoc.lookup state (_statesCaches s)) as [c|] eqn:E.
  - right. split_and!; [done..|]. exists c, s. split_and!; done.
  - destruct (inherited state) eqn:Hi; [by left|].
    right. split_and!; [done..|].
    eexists _, _. split; [done|]. simpl. split_and!; try done.
    + apply assoc_lookup_set_eq.
    + intros tabId st. unfold tail. simpl. rewrite assoc_lookup_set.
      case_decide; [subst; by rewrite E|done].
    + intros tabId st. unfold belief. simpl. rewrite assoc_lookup_set.
      case_decide; [subst; by rewrite E|done].
Qed.

(** Whether [_getCache] returns an entry, and what the cache is then. *)
Lemma getCache_fst state s :
  (_getCache state s).1 = NoCache ∧ (isDisposed s = true ∨ allowed s state = false)
  ∨ (_getCache state s).1 = Inherited ∧
    isDisposed s = false ∧ allowed s state = true ∧ foreign s state = true
  ∨ (∃ c, (_getCache state s).1 = Entry c) ∧
    isDisposed s = false ∧ allowed s state = true ∧ foreign s state = false.
Proof.
  destruct (getCache_cases state s)
    as [[Hno ->]|[(Hd & Ha & Hf & ->)|(Hd & Ha & Hf & c & s1 & -> & _)]]; eauto 10.
Qed.

End QueuePrimitives.

(** ** The operation queue: what each event does to the observations *)
Section QueueEvents.
Import CustomStateCache.
Implicit Types (s : t) (o : op) (i j k : nat) (state st : string) (tabId : Z).

Lemma queueOp_cases tabId state (k : op_kind) s :
  (isDisposed s = true ∨ allowed s state = false) ∧
    _queueOp tabId state k s = (Returns None, s)
  ∨ isDisposed s = false ∧ allowed s state = true ∧ foreign s state = true ∧
    _queueOp tabId state k s = (Throws, s)
  ∨ isDisposed s = false ∧ allowed s state = true ∧ foreign s state = false ∧
    ∃ s', _queueOp tabId state k s = (Returns (Some (length (opsList s))), s') ∧
      _classNames s' = _classNames s ∧ isDisposed s' = isDisposed s ∧
      mirrorLog s' = mirrorLog s ∧ startLog s' = startLog s ∧
      opsList s' = opsList s ++
        [Op tabId state k (tail s tabId state) None (defaultValue k) false PAwaitLast] ∧
      (∀ t st, tail s' t st =
         if decide ((t, st) = (tabId, state)) then Some (length (opsList s))
         else tail s t st) ∧
      (∀ t st, belief s' t st = belief s t st).
Proof.
  unfold _queueOp.
  destruct (getCache_cases state s)
    as [[Hno ->]|[(Hd & Ha & Hf & ->)|
        (Hd & Ha & Hf & c & s1 & -> & Hc & Hcn & Hdis & Hops & Hml & Hsl & Htl & Hbe)]];
    [by left|by right; left|right; right].
  split_and!; [done..|]. rewrite Hops. eexists. split; [reflexivity|].
  match goal with |- context [update_state_cache ?a ?f ?s0] =>
    destruct (update_state_cache_frame a f s0) as (E1 & E2 & E3 & E4 & E5)
  end.
  rewrite E1, E2, E3, E4, E5. simpl.
  split_and!; try done.
  - do 3 f_equal. rewrite <- Htl. unfold tail. by rewrite Hc.
  - intros t st. rewrite tail_update_state_cache. simpl.
    case_decide as E; subst.
    + rewrite Hc. simpl. destruct (decide (t = tabId)) as [->|Hne].
      * rewrite lookup_insert_eq. by rewrite decide_True.
      * rewrite lookup_insert_ne by done. rewrite decide_False by congruence.
        rewrite <- Htl. unfold tail. by rewrite Hc.
    + rewrite decide_False by congruence. apply Htl.
  - intros t st. rewrite belief_update_state_cache. simpl.
    case_decide as E; subst; [|apply Hbe].
    rewrite Hc. simpl. rewrite <- Hbe. unfold belief. by rewrite Hc.
Qed.

Lemma get_snd tabId state s : (get tabId state s).2 = (_getCache state s).2.
Proof. unfold get. by destruct (_getCache state s) as [[|c|] s']. Qed.

Lemma get_fst tabId state s :
  (get tabId state s).1 =
    if isDisposed s || negb (allowed s state) then Returns false
    else if foreign s state then Throws
    else Returns (default false (belief s tabId state)).
Proof.
  unfold get.
  destruct (getCache_cases state s)
    as [[Hno ->]|[(Hd & Ha & Hf & ->)|
        (Hd & Ha & Hf & c & s1 & -> & Hc & _ & _ & _ & _ & _ & _ & Hbe)]]; simpl.
  - destruct Hno as [-> | ->]; [done|]. by rewrite orb_true_r.
  - by rewrite Hd, Ha, Hf.
  - rewrite Hd, Ha, Hf. simpl. rewrite <- Hbe. unfold belief. by rewrite Hc.
Qed.

(** The callback of operation [i] is invoked (line 214) and runs up to its
    first [await] or to its end. *)
Lemma run_callback_cases i o s :
  opsList s !! i = Some o → isDisposed s = false →
  let s' := run_callback i o s in
  _classNames s' = _classNames s ∧ isDisposed s' = false ∧
  startLog s' = startLog s ++ [i] ∧
  (∀ t st, tail s' t st = tail s t st) ∧
  (∀ t st, (t, st) ≠ scope o → belief s' t st = belief s t st) ∧
  ( op_kind_of o = OpTabRemoved ∧
    opsList s' = <[i := set_pc (PAwaitCallback (CbReturn true)) o]> (opsList s) ∧
    mirrorLog s' = mirrorLog s ∧
    (allowed s (op_state o) = true → belief s' (op_tabId o) (op_state o) = None)
  ∨ (∃ v, op_kind_of o = OpSet v ∧ (get (op_tabId o) (op_state o) s).1 = Returns v ∧
      opsList s' = <[i := set_pc (PAwaitCallback (CbReturn true)) o]> (opsList s) ∧
      mirrorLog s' = mirrorLog s ∧
      ∀ t st, belief s' t st = belief s t st)
  ∨ (∃ v, op_kind_of o = OpSet v ∧
      (get (op_tabId o) (op_state o) s).1 = Returns (negb v) ∧
      opsList s' = <[i := set_pc PInCallback o]> (opsList s) ∧
      mirrorLog s' = mirrorLog s ++ [(i, MirrorCall [op_tabId o] [op_state o] v)] ∧
      ∀ t st, belief s' t st = belief s t st)
  ∨ (foreign s (op_state o) = true ∧
      (∃ r, (r = CbReturn false ∨ r = CbThrow) ∧
            opsList s' = <[i := set_pc (PAwaitCallback r) o]> (opsList s)) ∧
      mirrorLog s' = mirrorLog s ∧
      ∀ t st, belief s' t st = belief s t st) ).
Proof.
  intros Hi Hd.
  (* what [update_op] does to the cache on which the callback ends *)
  assert (∀ pc' s1,
            _classNames s1 = _classNames s → isDisposed s1 = false →
            opsList s1 = opsList s → startLog s1 = startLog s ++ [i] →
            let s' := update_op i (set_pc pc') s1 in
            _classNames s' = _classNames s ∧ isDisposed s' = false ∧
            startLog s' = startLog s ++ [i] ∧
            opsList s' = <[i := set_pc pc' o]> (opsList s) ∧
            mirrorLog s' = mirrorLog s1 ∧
            (∀ t st, tail s' t st = tail s1 t st) ∧
            (∀ t st, belief s' t st = belief s1 t st)) as Hend.
  { intros pc' s1 F1 F2 F3 F5.
    destruct (update_op_frame i (set_pc pc') s1) as (E1 & E2 & E3 & E4 & E5).
    simpl. rewrite E1, E2, E4, E5, (opsList_update_op _ _ _ o) by congruence.
    rewrite F3. split_and!; try done; intros.
    - by rewrite tail_update_op.
    - by rewrite belief_update_op. }
  assert (foreign (log_start i s) (op_state o) = foreign s (op_state o)) as Hfor
    by done.
  assert (allowed (log_start i s) (op_state o) = allowed s (op_state o)) as Hall
    by done.
  unfold run_callback. destruct (op_kind_of o) as [v|] eqn:Hk.
  - (* set *)
    destruct (get (op_tabId o) (op_state o) (log_start i s)) as [cur s1] eqn:Hg.
    assert (cur = (get (op_tabId o) (op_state o) s).1) as Hcur.
    { change cur with (cur, s1).1. rewrite <- Hg, !get_fst. unfold belief. done. }
    assert (s1 = (_getCache (op_state o) (log_start i s)).2) as Hs1.
    { change s1 with (cur, s1).2. by rewrite <- Hg, get_snd. }
    assert (_classNames s1 = _classNames s ∧ isDisposed s1 = false ∧
            opsList s1 = opsList s ∧ mirrorLog s1 = mirrorLog s ∧
            startLog s1 = startLog s ++ [i] ∧
            (∀ t st, tail s1 t st = tail s t st) ∧
            (∀ t st, belief s1 t st = belief s t st)) as (F1 & F2 & F3 & F4 & F5 & F6 & F7).
    { rewrite Hs1.
      destruct (getCache_cases (op_state o) (log_start i s))
        as [[_ ->]|[(_ & _ & _ & ->)|
            (_ & _ & _ & c & s2 & -> & _ & H1 & H2 & H3 & H4 & H5 & H6 & H7)]];
        simpl in *; [by rewrite Hd|by rewrite Hd|]. split_and!; try done; congruence. }
    destruct cur as [cur|].
    + destruct (Bool.eqb v cur) eqn:Hv.
      * apply Bool.eqb_prop in Hv. subst v.
        destruct (Hend (PAwaitCallback (CbReturn true)) s1 F1 F2 F3 F5)
          as (G1 & G2 & G3 & G4 & G5 & G6 & G7).
        split_and!; try done; try (intros; by rewrite ?G6, ?G7).
        right. left. exists cur. split_and!; try done; [congruence|].
        intros. by rewrite G7.
      * apply Bool.eqb_false_iff in Hv.
        destruct (update_op_frame i (set_pc PInCallback)
                    (log_mirror i (MirrorCall [op_tabId o] [op_state o] v) s1))
          as (E1 & E2 & E3 & E4 & E5).
        simpl. rewrite E1, E2, E5.
        rewrite (opsList_update_op _ _ _ o) by (simpl; congruence). simpl.
        rewrite F3. split_and!; try done.
        -- intros. rewrite tail_update_op. apply F6.
        -- intros. rewrite belief_update_op. apply F7.
        -- right. right. left. exists v. split_and!; try done.
           ++ rewrite <- Hcur. by destruct v, cur.
           ++ rewrite E4. simpl. by rewrite F4.
           ++ intros. rewrite belief_update_op. apply F7.
    + destruct (Hend (PAwaitCallback (CbReturn false)) s1 F1 F2 F3 F5)
        as (G1 & G2 & G3 & G4 & G5 & G6 & G7).
      split_and!; try done; try (intros; by rewrite ?G6, ?G7).
      right. right. right. split_and!.
      * rewrite get_fst, Hd in Hcur. simpl in Hcur.
        destruct (allowed s (op_state o)); simpl in Hcur; [|done].
        by destruct (foreign s (op_state o)).
      * exists (CbReturn false). split; [by left|done].
      * congruence.
      * intros. by rewrite G7.
  - (* tab removed *)
    destruct (getCache_cases (op_state o) (log_start i s))
      as [[Hno ->]|[(_ & Ha & Hf & ->)|
          (_ & Ha & Hf & c & s1 & -> & Hc & F1 & F2 & F3 & F4 & F5 & F6 & F7)]].
    + destruct (Hend (PAwaitCallback (CbReturn true)) (log_start i s))
        as (G1 & G2 & G3 & G4 & G5 & G6 & G7); try done.
      cbv beta iota zeta. split_and!; try done; try (intros; by rewrite ?G6, ?G7).
      left. split_and!; try done.
      intros Ha. unfold allowed in *. destruct Hno as [Hno|Hno]; simpl in Hno; congruence.
    + destruct (Hend (PAwaitCallback CbThrow) (log_start i s))
        as (G1 & G2 & G3 & G4 & G5 & G6 & G7); try done.
      cbv beta iota zeta. split_and!; try done; try (intros; by rewrite ?G6, ?G7).
      right. right. right. split_and!; try done; try (intros; by rewrite ?G7).
      exists CbThrow. split; [by right|done].
    + change (∀ t st, tail s1 t st = tail s t st) in F6.
      change (∀ t st, belief s1 t st = belief s t st) in F7.
      destruct (update_state_cache_frame (op_state o) (cache_delete (op_tabId o)) s1)
        as (G1 & G2 & G3 & G4 & G5).
      match goal with |- context [update_op ?a ?f ?s0] =>
        destruct (update_op_frame a f s0) as (E1 & E2 & E3 & E4 & E5);
        assert (opsList (update_op a f s0) = <[a := f o]> (opsList s)) as E6
      end.
      { rewrite (opsList_update_op _ _ _ o); rewrite G3, F3; done. }
      simpl in *. rewrite E1, E2, E5, E6, G1, G2, G5, F1, F2, F5.
      split_and!; try done.
      * intros t st. rewrite tail_update_op, tail_update_state_cache.
        case_decide; [|apply F6]. subst st. rewrite <- F6. unfold tail.
        by destruct (Assoc.lookup _ _).
      * intros t st Hne. rewrite belief_update_op, belief_update_state_cache.
        case_decide; [|apply F7]. subst st. rewrite <- F7. unfold belief.
        destruct (Assoc.lookup _ _); [|done]. simpl.
        rewrite lookup_delete_ne; [done|]. intros E. apply Hne.
        unfold scope. by rewrite E.
      * left. split_and!; try done; [by rewrite E4, G4|].
        intros _. rewrite belief_update_op, belief_update_state_cache.
        rewrite decide_True by done. rewrite Hc. simpl. apply lookup_delete_eq.
Qed.

(** Line 227-234: a settled operation takes its promise out of [cache.ops]
    and settles the promise of [_queueOp]. *)
Lemma finish_cases i o out s :
  opsList s !! i = Some o →
  let s' := update_op i (set_pc (PFinished out))
              (update_state_cache (op_state o)
                 (λ c, if decide (ops c !! op_tabId o = Some i)
                       then ops_delete (op_tabId o) c else c) s) in
  _classNames s' = _classNames s ∧ isDisposed s' = isDisposed s ∧
  mirrorLog s' = mirrorLog s ∧ startLog s' = startLog s ∧
  opsList s' = <[i := set_pc (PFinished out) o]> (opsList s) ∧
  (∀ t st, tail s' t st =
     if decide ((t, st) = scope o ∧ tail s t st = Some i) then None
     else tail s t st) ∧
  (∀ t st, belief s' t st = belief s t st).
Proof.
  intros Hi.
  match goal with |- context [update_state_cache ?a ?f ?s0] =>
    destruct (update_state_cache_frame a f s0) as (G1 & G2 & G3 & G4 & G5)
  end.
  match goal with |- context [update_op ?a ?f ?s0] =>
    destruct (update_op_frame a f s0) as (E1 & E2 & E3 & E4 & E5)
  end.
  simpl. rewrite E1, E2, E4, E5, G1, G2, G4, G5.
  rewrite (opsList_update_op _ _ _ o) by (by rewrite G3). rewrite G3.
  split_and!; try done.
  - intros t st. rewrite tail_update_op, tail_update_state_cache.
    unfold tail, scope. destruct (decide (op_state o = st)) as [<-|Hne].
    + destruct (Assoc.lookup (op_state o) (_statesCaches s)) as [c|]; simpl.
      * destruct (decide (ops c !! op_tabId o = Some i)) as [Hc|Hc]; simpl.
        -- destruct (decide (t = op_tabId o)) as [->|Hnt].
           ++ rewrite lookup_delete_eq. by rewrite decide_True.
           ++ rewrite lookup_delete_ne by done.
              rewrite decide_False; [done|]. intros [? _]. congruence.
        -- rewrite decide_False; [done|]. intros [? ?]. congruence.
      * rewrite decide_False; [done|]. by intros [_ ?].
    + rewrite decide_False; [done|]. intros [? _]. congruence.
  - intros t st. rewrite belief_update_op, belief_update_state_cache.
    case_decide; [|done]. subst st. unfold belief.
    destruct (Assoc.lookup _ _); [|done]. simpl. by case_decide.
Qed.

(** The mirror call of a call of [set] settles. *)
Lemma mirror_replies_set i r s o v :
  opsList s !! i = Some o → op_pc o = PInCallback → op_kind_of o = OpSet v →
  let s' := mirror_replies i r s in
  _classNames s' = _classNames s ∧ isDisposed s' = isDisposed s ∧
  mirrorLog s' = mirrorLog s ∧ startLog s' = startLog s ∧
  opsList s' =
    <[i := set_pc (PAwaitCallback (CbReturn (set_returns s o r))) o]> (opsList s) ∧
  (∀ t st, tail s' t st = tail s t st) ∧
  (∀ t st, belief s' t st =
     if decide (r = Acked true ∧ (t, st) = scope o ∧
                isDisposed s = false ∧ allowed s (op_state o) = true ∧
                foreign s (op_state o) = false)
     then Some v else belief s t st).
Proof.
  intros Hi Hpc Hk. unfold mirror_replies. rewrite Hi, Hpc, Hk.
  assert (∀ b,
    let s' := update_op i (set_pc (PAwaitCallback (CbReturn b))) s in
    _classNames s' = _classNames s ∧ isDisposed s' = isDisposed s ∧
    mirrorLog s' = mirrorLog s ∧ startLog s' = startLog s ∧
    opsList s' = <[i := set_pc (PAwaitCallback (CbReturn b)) o]> (opsList s) ∧
    (∀ t st, tail s' t st = tail s t st) ∧
    (∀ t st, belief s' t st = belief s t st)) as Hfail.
  { intros b.
    destruct (update_op_frame i (set_pc (PAwaitCallback (CbReturn b))) s)
      as (E1 & E2 & E3 & E4 & E5).
    simpl. rewrite E1, E2, E4, E5, (opsList_update_op _ _ _ o) by done.
    split_and!; try done; intros.
    - by rewrite tail_update_op.
    - by rewrite belief_update_op. }
  destruct r as [[|]|].
  - (* acknowledged *)
    destruct (getCache_cases (op_state o) s)
      as [[Hno ->]|[(Hd & Ha & Hf & ->)|
          (Hd & Ha & Hf & c & s1 & -> & Hc & F1 & F2 & F3 & F4 & F5 & F6 & F7)]].
    + destruct (Hfail true) as (? & ? & ? & ? & Hol & ? & Hb).
      cbv beta iota zeta. split_and!; try done.
      * rewrite Hol. unfold set_returns.
        by destruct Hno as [-> | ->]; rewrite ?andb_false_r.
      * intros t st. rewrite Hb, decide_False; [done|].
        intros (_ & _ & ? & ? & _). destruct Hno; congruence.
    + destruct (Hfail false) as (? & ? & ? & ? & Hol & ? & Hb).
      cbv beta iota zeta. split_and!; try done.
      * rewrite Hol. unfold set_returns. by rewrite Hd, Ha, Hf.
      * intros t st. rewrite Hb, decide_False; [done|].
        intros (_ & _ & _ & _ & ?). congruence.
    + destruct (update_state_cache_frame (op_state o) (cache_write (op_tabId o) v) s1)
        as (G1 & G2 & G3 & G4 & G5).
      match goal with |- context [update_op ?a ?f ?s0] =>
        destruct (update_op_frame a f s0) as (E1 & E2 & E3 & E4 & E5)
      end.
      simpl. rewrite E1, E2, E4, E5, G1, G2, G4, G5.
      rewrite (opsList_update_op _ _ _ o) by (by rewrite G3, F3). rewrite G3, F3.
      split_and!; try done.
      * unfold set_returns. by rewrite Hd, Ha, Hf.
      * intros t st. rewrite tail_update_op, tail_update_state_cache.
        case_decide; [|apply F6]. subst st. rewrite <- F6. unfold tail.
        by destruct (Assoc.lookup _ _).
      * intros t st. rewrite belief_update_op, belief_update_state_cache.
        unfold scope. destruct (decide (op_state o = st)) as [<-|Hne].
        -- rewrite Hc. simpl. destruct (decide (t = op_tabId o)) as [->|Hnt].
           ++ rewrite lookup_insert_eq. by rewrite decide_True.
           ++ rewrite lookup_insert_ne by done.
              rewrite decide_False by (intros (_ & ? & _); congruence).
              rewrite <- F7. unfold belief. by rewrite Hc.
        -- rewrite decide_False by (intros (_ & ? & _); congruence). apply F7.
  - destruct (Hfail false) as (? & ? & ? & ? & ? & ? & Hb).
    split_and!; try done; intros t st; rewrite Hb;
      (rewrite decide_False; [done|]); by intros [? _].
  - destruct (Hfail false) as (? & ? & ? & ? & ? & ? & Hb).
    split_and!; try done; intros t st; rewrite Hb;
      (rewrite decide_False; [done|]); by intros [? _].
Qed.

Lemma mirror_replies_cases i r s :
  mirror_replies i r s = s ∨
  ∃ o v, opsList s !! i = Some o ∧ op_pc o = PInCallback ∧
    op_kind_of o = OpSet v ∧
    let s' := mirror_replies i r s in
    _classNames s' = _classNames s ∧ isDisposed s' = isDisposed s ∧
    mirrorLog s' = mirrorLog s ∧ startLog s' = startLog s ∧
    opsList s' =
      <[i := set_pc (PAwaitCallback (CbReturn (set_returns s o r))) o]> (opsList s) ∧
    (∀ t st, tail s' t st = tail s t st) ∧
    (∀ t st, belief s' t st =
       if decide (r = Acked true ∧ (t, st) = scope o ∧
                  isDisposed s = false ∧ allowed s (op_state o) = true ∧
                  foreign s (op_state o) = false)
       then Some v else belief s t st).
Proof.
  destruct (opsList s !! i) as [o|] eqn:Hi;
    [|left; unfold mirror_replies; by rewrite Hi].
  destruct (op_pc o) eqn:Hpc; try (left; unfold mirror_replies; by rewrite Hi, Hpc).
  destruct (op_kind_of o) as [v|] eqn:Hk;
    [|left; unfold mirror_replies; by rewrite Hi, Hpc, Hk].
  right. exists o, v. do 3 (split; [done|]). by apply mirror_replies_set.
Qed.

(** [_onStateChanged] with [apply: false] writes the belief directly. *)
Lemma onStateChanged_direct_cases tabId className value s :
  let s' := (_onStateChanged tabId className value false s).2 in
  _classNames s' = _classNames s ∧ isDisposed s' = isDisposed s ∧
  mirrorLog s' = mirrorLog s ∧ startLog s' = startLog s ∧
  opsList s' = opsList s ∧
  (∀ t st, tail s' t st = tail s t st) ∧
  (∀ t st, belief s' t st =
     if decide ((t, st) = (tabId, className) ∧
                isDisposed s = false ∧ allowed s className = true ∧
                foreign s className = false)
     then Some value else belief s t st).
Proof.
  unfold _onStateChanged.
  destruct (getCache_cases className s)
    as [[Hno ->]|[(Hd & Ha & Hf & ->)|
        (Hd & Ha & Hf & c & s1 & -> & Hc & F1 & F2 & F3 & F4 & F5 & F6 & F7)]].
  - simpl. split_and!; try done. intros t st.
    rewrite decide_False; [done|]. intros (_ & ? & ? & _). destruct Hno; congruence.
  - simpl. split_and!; try done. intros t st.
    rewrite decide_False; [done|]. intros (_ & _ & _ & ?). congruence.
  - destruct (update_state_cache_frame className (cache_write tabId value) s1)
      as (G1 & G2 & G3 & G4 & G5).
    simpl. rewrite G1, G2, G3, G4, G5. split_and!; try done.
    + intros t st. rewrite tail_update_state_cache.
      case_decide; [|apply F6]. subst st. rewrite <- F6. unfold tail.
      by destruct (Assoc.lookup _ _).
    + intros t st. rewrite belief_update_state_cache.
      destruct (decide (className = st)) as [<-|Hne].
      * rewrite Hc. simpl. destruct (decide (t = tabId)) as [->|Hnt].
        -- rewrite lookup_insert_eq. by rewrite decide_True.
        -- rewrite lookup_insert_ne by done.
           rewrite decide_False by (intros (? & _); congruence).
           rewrite <- F7. unfold belief. by rewrite Hc.
      * rewrite decide_False by (intros (? & _); congruence). apply F7.
Qed.

(** What [_onStateChanged] returns. *)
Lemma onStateChanged_fst tabId className value apply s :
  (_onStateChanged tabId className value apply s).1 =
    if negb apply && negb (isDisposed s) && allowed s className && foreign s className
    then Throws else Returns ().
Proof.
  unfold _onStateChanged. destruct apply; [done|]. simpl.
  destruct (getCache_cases className s)
    as [[Hno ->]|[(Hd & Ha & Hf & ->)|(Hd & Ha & Hf & c & s1 & -> & _)]]; simpl.
  - by destruct Hno as [-> | ->]; rewrite ?andb_false_r.
  - by rewrite Hd, Ha, Hf.
  - by rewrite Hd, Ha, Hf.
Qed.

End QueueEvents.

(** ** TSTCustomStateCache: the class names that are cached *)
Section AssocKeys.
Import Assoc.
Context {A : Type}.
Implicit Types (k : string) (v : A) (l : list (string * A)).

Lemma keys_cons k v l : keys ((k, v) :: l) = k :: keys l.
Proof. done. Qed.

Lemma elem_of_keys k v l : (k, v) ∈ l → k ∈ keys l.
Proof.
  induction l as [|[k' v'] l IH]; [by intros ?%elem_of_nil|].
  rewrite keys_cons. intros [[= -> ->]|Hin]%elem_of_cons; [by left|].
  right. by apply IH.
Qed.

Lemma assoc_lookup_None k l : lookup k l = None ↔ k ∉ keys l.
Proof.
  induction l as [|[k' v'] l IH].
  - split; [intros _; apply not_elem_of_nil|done].
  - rewrite keys_cons, not_elem_of_cons. cbn [lookup].
    destruct (String.eqb_spec k k') as [->|Hne].
    + split; [done|]. by intros [? _].
    + rewrite IH. tauto.
Qed.

Lemma assoc_keys_set k v l :
  keys (set k v l) = if decide (k ∈ keys l) then keys l else keys l ++ [k].
Proof.
  induction l as [|[k' v'] l IH].
  - cbn. rewrite decide_False; [done|apply not_elem_of_nil].
  - cbn [set]. destruct (String.eqb_spec k k') as [->|Hne]; rewrite !keys_cons.
    + rewrite decide_True; [done|by left].
    + rewrite IH. destruct (decide (k ∈ keys l)) as [Hin|Hnin].
      * rewrite decide_True; [done|by right].
      * rewrite decide_False; [done|]. rewrite not_elem_of_cons. done.
Qed.

Lemma assoc_lookup_elem_of k v l :
  NoDup (keys l) → lookup k l = Some v ↔ (k, v) ∈ l.
Proof.
  induction l as [|[k' v'] l IH].
  - intros _. split; [done|]. by intros ?%elem_of_nil.
  - rewrite keys_cons, NoDup_cons. intros [Hnin Hnd]. rewrite elem_of_cons.
    cbn [lookup]. destruct (String.eqb_spec k k') as [->|Hne].
    + split; [intros [= ->]; by left|].
      intros [[= ->]|Hin]; [done|]. exfalso. apply Hnin. by eapply elem_of_keys.
    + rewrite IH by done. split; [by right|]. by intros [[= -> ->]|?].
Qed.

End AssocKeys.

Section Names.
Import CustomStateCache.
Implicit Types (s : t) (e : event).

Lemma names_inv_ext s s' :
  _classNames s' = _classNames s → _statesCaches s' = _statesCaches s →
  names_inv s → names_inv s'.
Proof.
  intros Hc Hs (H1 & H2 & H3). unfold names_inv, allowed in *. by rewrite Hc, Hs.
Qed.

Lemma names_inv_getCache state s : names_inv s → names_inv (_getCache state s).2.
Proof.
  intros (Hnd & Hall & Hpl). unfold _getCache.
  destruct (isDisposed s || negb (allowed s state)) eqn:Hg; [done|].
  apply orb_false_elim in Hg as [_ Ha]. apply negb_false_iff in Ha.
  destruct (Assoc.lookup state (_statesCaches s)) as [c|] eqn:Hl; [done|].
  destruct (inherited state) eqn:Hi; [done|].
  apply assoc_lookup_None in Hl. unfold names_inv, with_statesCaches.
  cbn [snd _statesCaches]. rewrite assoc_keys_set, decide_False by done.
  split_and!.
  - apply NoDup_app. split_and!; [done| |apply NoDup_singleton].
    intros x Hx ->%list_elem_of_singleton. done.
  - intros st [Hin| ->%list_elem_of_singleton]%elem_of_app; [by apply Hall|done].
  - intros st [Hin| ->%list_elem_of_singleton]%elem_of_app; [by apply Hpl|done].
Qed.

Lemma names_inv_update_state_cache state f s :
  names_inv s → names_inv (update_state_cache state f s).
Proof.
  intros (Hnd & Hall & Hpl). unfold update_state_cache.
  destruct (Assoc.lookup state (_statesCaches s)) as [c|] eqn:Hl; [|done].
  assert (state ∈ Assoc.keys (_statesCaches s)) as Hin.
  { destruct (decide (state ∈ Assoc.keys (_statesCaches s))) as [|Hn]; [done|].
    apply assoc_lookup_None in Hn. congruence. }
  unfold names_inv, with_statesCaches. cbn [_statesCaches].
  by rewrite assoc_keys_set, decide_True.
Qed.

Lemma names_inv_update_op i f s : names_inv s → names_inv (update_op i f s).
Proof.
  destruct (update_op_frame i f s) as (H1 & _ & H2 & _). by apply names_inv_ext.
Qed.

Lemma names_inv_queueOp tabId state (k : op_kind) s :
  names_inv s → names_inv (_queueOp tabId state k s).2.
Proof.
  intros H. unfold _queueOp.
  pose proof (names_inv_getCache state s H) as Hg.
  destruct (_getCache state s) as [[|c|] s']; [done| |done].
  cbn in *. apply names_inv_update_state_cache.
  revert Hg. by apply names_inv_ext.
Qed.

Lemma names_inv_onTabRemoved tabId s : names_inv s → names_inv (_onTabRemoved tabId s).
Proof.
  unfold _onTabRemoved. generalize (Assoc.keys (_statesCaches s)).
  intros states. revert s.
  induction states as [|state states IH]; intros s H; [done|].
  cbn. apply IH. by apply names_inv_queueOp.
Qed.

Lemma names_inv_step s e : names_inv s → names_inv (step s e).
Proof.
  intros H. destruct e as [tabId state v|tabId|tabId cn v apply| |j|j r]; cbn [step].
  - by apply names_inv_queueOp.
  - by apply names_inv_onTabRemoved.
  - unfold _onStateChanged.
    destruct apply; [by apply (names_inv_queueOp tabId cn (OpSet v))|].
    pose proof (names_inv_getCache cn s H) as Hg.
    destruct (_getCache cn s) as [[|c|] s']; [done| |done].
    by apply names_inv_update_state_cache.
  - unfold dispose. destruct (isDisposed s); [done|].
    split_and!; cbn; [constructor|by intros st ?%elem_of_nil..].
  - unfold resume. destruct (opsList s !! j) as [o|]; [|done].
    destruct (op_pc o) as [| |r| |out]; try done.
    + destruct (lastResult s (op_lastOp o)) as [r|]; [|done].
      destruct (truthy r); [by apply names_inv_update_op|].
      destruct (isDisposed s); [by apply names_inv_update_op|].
      unfold run_callback.
      assert (names_inv (log_start j s)) as H' by (revert H; by apply names_inv_ext).
      pose proof (names_inv_getCache (op_state o) _ H') as Hg.
      destruct (op_kind_of o) as [v|].
      * unfold get.
        destruct (_getCache (op_state o) (log_start j s)) as [[|c|] s'];
          cbn in Hg |- *; try destruct (Bool.eqb _ _);
          apply names_inv_update_op; try done;
          revert Hg; by apply names_inv_ext.
      * destruct (_getCache (op_state o) (log_start j s)) as [[|c|] s'];
          cbn in Hg; apply names_inv_update_op; [done| |done].
        by apply names_inv_update_state_cache.
    + destruct r; by apply names_inv_update_op.
    + by apply names_inv_update_op, names_inv_update_state_cache.
  - unfold mirror_replies. destruct (opsList s !! j) as [o|]; [|done].
    destruct (op_pc o) as [| |r'| |out]; try done.
    destruct (op_kind_of o) as [v|]; [|done].
    destruct r as [[|]|]; try by apply names_inv_update_op.
    pose proof (names_inv_getCache (op_state o) _ H) as Hg.
    destruct (_getCache (op_state o) s) as [[|c|] s']; cbn in Hg;
      apply names_inv_update_op; [done| |done].
    by apply names_inv_update_state_cache.
Qed.

Lemma names_inv_reachable s : reachable s → names_inv s.
Proof.
  intros (cn & tr & ->). unfold run.
  assert (names_inv (new cn)) as H.
  { split_and!; cbn; [constructor|by intros st ?%elem_of_nil..]. }
  revert H. generalize (new cn).
  induction tr as [|e tr IH]; intros s H; [done|].
  cbn. by apply IH, names_inv_step.
Qed.

(** Whether a name is found in [Object.prototype] changes only when the
    cache is disposed of. *)
Lemma foreign_ext s s' st :
  _statesCaches s' = _statesCaches s → foreign s' st = foreign s st.
Proof. unfold foreign. by intros ->. Qed.

Lemma foreign_getCache state s st : foreign (_getCache state s).2 st = foreign s st.
Proof.
  unfold _getCache.
  destruct (isDisposed s || negb (allowed s state)); [done|].
  destruct (Assoc.lookup state (_statesCaches s)) as [c|] eqn:Hl; [done|].
  destruct (inherited state) eqn:Hi; [done|].
  unfold foreign. cbn [snd _statesCaches with_statesCaches].
  rewrite assoc_lookup_set.
  case_decide; [subst; by rewrite Hl, Hi|done].
Qed.

Lemma foreign_update_state_cache state f s st :
  foreign (update_state_cache state f s) st = foreign s st.
Proof.
  unfold foreign. rewrite lookup_update_state_cache.
  case_decide; [|done]. by destruct (Assoc.lookup st _).
Qed.

Lemma foreign_update_op i f s st : foreign (update_op i f s) st = foreign s st.
Proof.
  destruct (update_op_frame i f s) as (_ & _ & H & _). by apply foreign_ext.
Qed.

Lemma foreign_queueOp tabId state (k : op_kind) s st :
  foreign (_queueOp tabId state k s).2 st = foreign s st.
Proof.
  unfold _queueOp. pose proof (foreign_getCache state s st) as Hg.
  destruct (_getCache state s) as [[|c|] s']; [done| |done].
  cbn in *. by rewrite foreign_update_state_cache.
Qed.

Lemma foreign_onTabRemoved tabId s st :
  foreign (_onTabRemoved tabId s) st = foreign s st.
Proof.
  unfold _onTabRemoved. generalize (Assoc.keys (_statesCaches s)).
  intros states. revert s.
  induction states as [|state states IH]; intros s; [done|].
  cbn. by rewrite IH, foreign_queueOp.
Qed.

Lemma foreign_run_callback i o s st :
  foreign (run_callback i o s) st = foreign s st.
Proof.
  unfold run_callback.
  pose proof (foreign_getCache (op_state o) (log_start i s) st) as Hg.
  destruct (op_kind_of o) as [v|].
  - unfold get.
    destruct (_getCache (op_state o) (log_start i s)) as [[|c|] s'];
      cbn in Hg |- *; try destruct (Bool.eqb _ _);
      by rewrite foreign_update_op.
  - destruct (_getCache (op_state o) (log_start i s)) as [[|c|] s'];
      cbn in Hg; by rewrite foreign_update_op, ?foreign_update_state_cache.
Qed.

Lemma foreign_step s e st :
  e ≠ EDispose → foreign (step s e) st = foreign s st.
Proof.
  intros Hne.
  destruct e as [tabId state v|tabId|tabId cn v apply| |j|j r]; cbn [step].
  - apply foreign_queueOp.
  - apply foreign_onTabRemoved.
  - unfold _onStateChanged.
    destruct apply; [apply (foreign_queueOp tabId cn (OpSet v))|].
    pose proof (foreign_getCache cn s st) as Hg.
    destruct (_getCache cn s) as [[|c|] s']; [done| |done].
    cbn in *. by rewrite foreign_update_state_cache.
  - done.
  - unfold resume. destruct (opsList s !! j) as [o|]; [|done].
    destruct (op_pc o) as [| |r| |out]; try done.
    + destruct (lastResult s (op_lastOp o)) as [r|]; [|done].
      destruct (truthy r); [by apply foreign_update_op|].
      destruct (isDisposed s); [by apply foreign_update_op|].
      apply foreign_run_callback.
    + destruct r; by apply foreign_update_op.
    + by rewrite foreign_update_op, foreign_update_state_cache.
  - unfold mirror_replies. destruct (opsList s !! j) as [o|]; [|done].
    destruct (op_pc o) as [| |r'| |out]; try done.
    destruct (op_kind_of o) as [v|]; [|done].
    destruct r as [[|]|]; try by apply foreign_update_op.
    pose proof (foreign_getCache (op_state o) s st) as Hg.
    destruct (_getCache (op_state o) s) as [[|c|] s']; cbn in Hg;
      by rewrite foreign_update_op, ?foreign_update_state_cache.
Qed.

(** An entry of the cache is not under an inherited name. *)
Lemma names_inv_foreign s state :
  names_inv s → foreign s state = inherited state.
Proof.
  intros (_ & _ & Hpl). unfold foreign.
  destruct (Assoc.lookup state (_statesCaches s)) as [c|] eqn:Hl; [|done].
  symmetry. apply Hpl.
  destruct (decide (state ∈ Assoc.keys (_statesCaches s))) as [|Hn]; [done|].
  apply assoc_lookup_None in Hn. congruence.
Qed.

End Names.

(** ** The operation queue: the invariants hold in every reachable state *)
Section QueueReachable.
Import CustomStateCache.
Implicit Types (s : t) (o : op) (i j k : nat) (state st : string) (tabId : Z).

Lemma queue_inv_new classNames : queue_inv (new classNames).
Proof.
  split; simpl.
  - apply ops_inv_nil.
  - intros _. by apply tail_inv_nil.
  - apply log_inv_nil.
Qed.

Lemma queue_inv_queueOp tabId state (k : op_kind) s :
  queue_inv s → queue_inv (_queueOp tabId state k s).2.
Proof.
  intros [Hops Htail Hlog].
  destruct (queueOp_cases tabId state k s)
    as [[_ ->]|[(_ & _ & _ & ->)|
        (Hd & Ha & Hf & s' & -> & Hcn & Hdis & Hml & Hsl & Hol & Htl & Hbe)]];
    [done|done|].
  simpl. split.
  - rewrite Hol. apply ops_inv_snoc; try done.
    intros k0 ok Hk Hsc Hset. specialize (Htail Hd tabId state).
    destruct (tail s tabId state) as [j|].
    + destruct Htail as (oj & Hj & Hscj & Hlater). exists j, oj.
      split_and!; try done.
      * destruct (decide (k0 ≤ j)%nat); [done|].
        rewrite (Hlater k0 ok) in Hset; [done|lia|done|done].
      * by eapply lookup_lt_Some.
    + rewrite (Htail k0 ok) in Hset; done.
  - intros _. rewrite Hol.
    eapply tail_inv_ext; [|apply tail_inv_snoc, Htail, Hd].
    intros t st. simpl. apply Htl.
  - rewrite Hol, Hsl. by apply log_inv_snoc.
Qed.

Lemma lastResult_settled s lastOp r :
  ops_inv (opsList s) → lastResult s lastOp = Some r →
  ∀ j, lastOp = Some j →
       ∃ oj, opsList s !! j = Some oj ∧ op_promise oj = Some r ∧
             settled oj = true.
Proof.
  intros Hinv Hr j ->. simpl in Hr.
  destruct (opsList s !! j) as [oj|] eqn:Hj; [|done]. simpl in Hr.
  exists oj. split_and!; [done..|]. apply (inv_promise _ Hinv j oj Hj).
  by rewrite Hr.
Qed.

(** One operation moves on; [cache.ops] is untouched. *)
Lemma queue_inv_update s s' i o o' :
  queue_inv s → opsList s !! i = Some o →
  opsList s' = <[i:=o']> (opsList s) →
  isDisposed s' = isDisposed s →
  (∀ t st, tail s' t st = tail s t st) →
  scope o' = scope o → op_lastOp o' = op_lastOp o →
  (is_Some (op_promise o') ↔ settled o' = true) →
  (settled o = true → settled o' = true) →
  op_pc o' ≠ PAwaitLast →
  (op_pc o = PAwaitLast →
   ∃ r, lastResult s (op_lastOp o) = Some r) →
  (startLog s' = startLog s ∨
   startLog s' = startLog s ++ [i] ∧ op_pc o = PAwaitLast) →
  queue_inv s'.
Proof.
  intros [Hops Htail Hlog] Hi Hol Hd Htl Hsc Hlo Hpr Hmono Hnw Hleave Hsl.
  split.
  - rewrite Hol. eapply ops_inv_insert; eauto.
    intros _ j Hw Hj. destruct (Hleave Hw) as [r Hr].
    destruct (lastResult_settled _ _ _ Hops Hr j Hj) as (oj & ? & ? & ?).
    by exists oj.
  - rewrite Hd, Hol. intros Hnd.
    eapply tail_inv_ext; [apply Htl|]. eapply tail_inv_insert; eauto.
  - rewrite Hol. destruct Hsl as [-> | [-> Hw]].
    + eapply log_inv_insert; eauto.
    + eapply log_inv_start; eauto.
Qed.

(** The promise of an operation settles. *)
Lemma queue_inv_settle s i o (f : op → op) :
  queue_inv s → opsList s !! i = Some o →
  (op_pc o = PAwaitLast → ∃ r, lastResult s (op_lastOp o) = Some r) →
  scope (f o) = scope o → op_lastOp (f o) = op_lastOp o →
  is_Some (op_promise (f o)) → settled (f o) = true →
  queue_inv (update_op i f s).
Proof.
  intros Hinv Hi Hleave Hsc Hlo Hpr Hset.
  destruct (update_op_frame i f s) as (E1 & E2 & E3 & E4 & E5).
  apply (queue_inv_update s (update_op i f s) i o (f o) Hinv Hi);
    try done.
  - by apply opsList_update_op.
  - intros. apply tail_update_op.
  - intros E. apply settled_not_waiting in Hset. done.
  - by left.
Qed.

Lemma queue_inv_resume i s : queue_inv s → queue_inv (resume i s).
Proof.
  intros Hinv. unfold resume.
  destruct (opsList s !! i) as [o|] eqn:Hi; [|done].
  destruct (op_pc o) eqn:Hpc; try done.
  - (* await lastOp *)
    destruct (lastResult s (op_lastOp o)) as [r|] eqn:Hr; [|done].
    assert (∀ v, queue_inv (update_op i (resolve_promise v) s)) as Hskip.
    { intros v. apply (queue_inv_settle s i o); eauto. }
    destruct (truthy r); [apply Hskip|].
    destruct (isDisposed s) eqn:Hd; [apply Hskip|].
    assert (op_promise o = None) as Hnone.
    { destruct (inv_promise _ (inv_ops _ Hinv) i o Hi) as [Hp _].
      destruct (op_promise o); [|done].
      specialize (Hp ltac:(by eexists)). unfold settled in Hp.
      by rewrite Hpc in Hp. }
    assert (∀ pc', pc' = PInCallback ∨ (∃ c, pc' = PAwaitCallback c) →
              opsList (run_callback i o s) = <[i:=set_pc pc' o]> (opsList s) →
              queue_inv (run_callback i o s)) as Hstart.
    { intros pc' Hpc' Hol.
      destruct (run_callback_cases i o s Hi Hd) as (F1 & F2 & F3 & F4 & _).
      apply (queue_inv_update s (run_callback i o s) i o (set_pc pc' o) Hinv Hi Hol).
      - congruence.
      - exact F4.
      - done.
      - done.
      - simpl. rewrite Hnone. unfold settled. simpl.
        split; [by intros [? ?]|]. by destruct Hpc' as [->|[c ->]].
      - unfold settled. by rewrite Hpc.
      - simpl. by destruct Hpc' as [->|[c ->]].
      - intros _. eauto.
      - right. done. }
    destruct (run_callback_cases i o s Hi Hd)
      as (_ & _ & _ & _ & _ &
          [(_ & Hol & _)|[(v & _ & _ & Hol & _)|[(v & _ & _ & Hol & _)|
           (_ & (r' & _ & Hol) & _)]]]);
      (eapply Hstart; [|exact Hol]); eauto.
  - (* await callback() *)
    destruct r as [b|]; (apply (queue_inv_settle s i o); try done;
      try (intros; congruence); simpl; by eexists).
  - (* await promise *)
    set (out := if op_outerError o then Rejected else Resolved (op_value o)).
    destruct (finish_cases i o out s Hi) as (F1 & F2 & F3 & F4 & F5 & F6 & F7).
    destruct Hinv as [Hops Htail Hlog].
    assert (settled o = true) as Hset by (unfold settled; by rewrite Hpc).
    split.
    + rewrite F5. eapply ops_inv_insert; eauto.
      * simpl. destruct (inv_promise _ Hops i o Hi) as [_ Hp].
        split; [done|]. intros _. by apply Hp.
      * intros _ j Hw. congruence.
    + rewrite F2, F5. intros Hnd.
      eapply tail_inv_ext; [apply F6|].
      eapply (tail_inv_insert _ _ i o); eauto.
      by apply tail_inv_clear; auto.
    + rewrite F4, F5. eapply log_inv_insert; eauto.
Qed.

Lemma queue_inv_mirror_replies i r s :
  queue_inv s → queue_inv (mirror_replies i r s).
Proof.
  intros Hinv.
  destruct (mirror_replies_cases i r s)
    as [->|(o & v & Hi & Hpc & Hk & F1 & F2 & F3 & F4 & F5 & F6 & F7)]; [done|].
  apply (queue_inv_update s _ i o _ Hinv Hi F5); try done.
  - simpl. destruct (inv_promise _ (inv_ops _ Hinv) i o Hi) as [Hp _].
    unfold settled in *. simpl. rewrite Hpc in Hp.
    split; [exact Hp|]. intros; done.
  - unfold settled. by rewrite Hpc.
  - intros; congruence.
  - by left.
Qed.

Lemma queue_inv_dispose s : queue_inv s → queue_inv (dispose s).
Proof.
  intros Hinv. unfold dispose.
  destruct (isDisposed s) eqn:Hd; [done|].
  destruct Hinv as [Hops Htail Hlog]. by split.
Qed.

Lemma queue_inv_onStateChanged tabId className value apply s :
  queue_inv s → queue_inv (_onStateChanged tabId className value apply s).2.
Proof.
  intros Hinv. destruct apply.
  - apply (queue_inv_queueOp tabId className (OpSet value)), Hinv.
  - destruct (onStateChanged_direct_cases tabId className value s)
      as (F1 & F2 & F3 & F4 & F5 & F6 & F7).
    destruct Hinv as [Hops Htail Hlog]. split.
    + by rewrite F5.
    + rewrite F2, F5. intros Hd. eapply tail_inv_ext; [apply F6|]. by apply Htail.
    + by rewrite F4, F5.
Qed.

Lemma queue_inv_onTabRemoved tabId s :
  queue_inv s → queue_inv (_onTabRemoved tabId s).
Proof.
  unfold _onTabRemoved. generalize (Assoc.keys (_statesCaches s)).
  intros states. revert s. induction states as [|state states IH]; intros s Hinv.
  - done.
  - simpl. apply IH. by apply queue_inv_queueOp.
Qed.

Lemma queue_inv_step s e : queue_inv s → queue_inv (step s e).
Proof.
  intros Hinv. destruct e; simpl.
  - by apply queue_inv_queueOp.
  - by apply queue_inv_onTabRemoved.
  - by apply queue_inv_onStateChanged.
  - by apply queue_inv_dispose.
  - by apply queue_inv_resume.
  - by apply queue_inv_mirror_replies.
Qed.

Lemma queue_inv_run s tr : queue_inv s → queue_inv (run s tr).
Proof.
  revert s. induction tr as [|e tr IH]; intros s Hinv; [done|].
  simpl. apply IH. by apply queue_inv_step.
Qed.


End QueueReachable.

(** ** The queue serializes the operations of a scope *)
Section Serialization.
Import CustomStateCache.

(** C1. In every state that a cache can reach (so at every instant), for
    every scope (tabId, className): at most one callback of the scope is
    executing, the mirror call inside [set] included; the callbacks of the
    scope were invoked in the order of submission; and a callback was invoked
    only once every operation submitted earlier for the scope, its immediate
    predecessor in particular, had settled.  Operations of different scopes
    are not ordered: two of them can be executing at once, and the one
    submitted last can be invoked first. *)
Theorem queue_serializes_each_scope (classNames : option (list string))
    (tr : list event) :
  let s := run (new classNames) tr in
  (∀ i j oi oj,
     opsList s !! i = Some oi → opsList s !! j = Some oj →
     scope oi = scope oj → executing oi = true → executing oj = true →
     i = j) ∧
  (∀ sc, StronglySorted lt (starts_of s sc)) ∧
  (∀ i j oi oj,
     opsList s !! i = Some oi → opsList s !! j = Some oj →
     (i < j)%nat → scope oi = scope oj → j ∈ startLog s →
     settled oi = true) ∧
  (∃ o0 o1,
     opsList (run (new None) two_scopes_busy) !! 0%nat = Some o0 ∧
     opsList (run (new None) two_scopes_busy) !! 1%nat = Some o1 ∧
     scope o0 ≠ scope o1 ∧ executing o0 = true ∧ executing o1 = true) ∧
  startLog (run (new None) second_scope_first) = [1; 0]%nat.
Proof.
  intros s.
  assert (queue_inv s) as [Hops Htail Hlog] by apply queue_inv_run, queue_inv_new.
  assert (∀ i j oi oj,
     opsList s !! i = Some oi → opsList s !! j = Some oj →
     (i < j)%nat → scope oi = scope oj → op_pc oj ≠ PAwaitLast →
     settled oi = true) as Hafter.
  { intros i j oi oj Hi Hj Hlt Hsc Hnw.
    destruct (settled oi) eqn:E; [done|]. exfalso. apply Hnw.
    apply (inv_order _ Hops i j oi oj Hi Hj Hlt Hsc E). }
  split_and!.
  - intros i j oi oj Hi Hj Hsc Hei Hej.
    assert (op_pc oi ≠ PAwaitLast ∧ op_pc oj ≠ PAwaitLast) as [Hwi Hwj].
    { unfold executing in *.
      split; [by destruct (op_pc oi)|by destruct (op_pc oj)]. }
    apply executing_not_settled in Hei, Hej.
    destruct (Nat.lt_trichotomy i j) as [Hlt|[->|Hgt]]; [|done|].
    + rewrite (Hafter i j oi oj) in Hei; done.
    + rewrite (Hafter j i oj oi) in Hej; done.
  - intros sc. apply (inv_log_sorted _ _ Hlog).
  - intros i j oi oj Hi Hj Hlt Hsc Hin.
    apply (Hafter i j oi oj); try done.
    destruct (inv_log_started _ _ Hlog j Hin) as (oj' & Hj' & Hnw). congruence.
  - exists (Op 1 "red" (OpSet true) None None (Some false) false PInCallback),
           (Op 1 "blue" (OpSet true) None None (Some false) false PInCallback).
    split_and!; [by vm_compute|by vm_compute|by intros [=]|done|done].
  - by vm_compute.
Qed.

(** The theorem at a schedule with two operations in one scope: the second
    callback is invoked after the first. *)
Lemma queue_serializes_each_scope_witness :
  starts_of (run (new None) same_scope_twice) (1, "red") = [0; 1]%nat ∧
  StronglySorted lt (starts_of (run (new None) same_scope_twice) (1, "red")).
Proof.
  split; [by vm_compute|].
  apply (queue_serializes_each_scope None same_scope_twice).
Defined.

End Serialization.

(** ** The life of one queued operation *)
Section OpLife.
Import CustomStateCache.
Implicit Types (s : t) (o : op) (i j k : nat) (state st : string) (tabId : Z).

Lemma lookup_queueOp tabId state (k : op_kind) s i o :
  opsList s !! i = Some o → opsList (_queueOp tabId state k s).2 !! i = Some o.
Proof.
  intros Hi.
  destruct (queueOp_cases tabId state k s)
    as [[_ ->]|[(_ & _ & _ & ->)|(_ & _ & _ & s' & -> & _ & _ & _ & _ & Hol & _)]];
    [done|done|].
  simpl. rewrite Hol, lookup_app_l; [done|by eapply lookup_lt_Some].
Qed.

Lemma lookup_onTabRemoved tabId s i o :
  opsList s !! i = Some o → opsList (_onTabRemoved tabId s) !! i = Some o.
Proof.
  unfold _onTabRemoved. generalize (Assoc.keys (_statesCaches s)).
  intros states. revert s. induction states as [|state states IH]; intros s Hi.
  - done.
  - simpl. apply IH. by apply lookup_queueOp.
Qed.

(** [resume j] touches operation [j] only, and moves it one [await] on. *)
Lemma resume_ops j s :
  resume j s = s ∨
  ∃ o o', opsList s !! j = Some o ∧ op_next o o' ∧
          opsList (resume j s) = <[j := o']> (opsList s).
Proof.
  unfold resume. destruct (opsList s !! j) as [o|] eqn:Hj; [|by left].
  destruct (op_pc o) eqn:Hpc; try by left.
  - destruct (lastResult s (op_lastOp o)) as [r|]; [|by left].
    assert (∀ v, ∃ o0 o', Some o = Some o0 ∧ op_next o0 o' ∧
              opsList (update_op j (resolve_promise v) s) = <[j:=o']> (opsList s))
      as Hskip.
    { intros v. exists o, (resolve_promise v o). split_and!; [done| |].
      - right. rewrite Hpc. eauto.
      - by apply opsList_update_op. }
    destruct (truthy r); [right; apply Hskip|].
    destruct (isDisposed s) eqn:Hd; [right; apply Hskip|].
    right. exists o.
    destruct (run_callback_cases j o s Hj Hd)
      as (_ & _ & _ & _ & _ &
          [(_ & Hol & _)|[(v & _ & _ & Hol & _)|[(v & _ & _ & Hol & _)|
           (Hf & (r' & Hr' & Hol) & _)]]]);
      eexists; (split_and!; [done| |exact Hol]); right; rewrite Hpc; eauto.
    apply foreign_inherited in Hf.
    destruct Hr' as [-> | ->]; eauto 10.
  - right. exists o. destruct r as [b|]; eexists;
      (split_and!; [done| |by apply opsList_update_op]); right; by rewrite Hpc.
  - right. exists o. eexists. split_and!; [done| |].
    + right. by rewrite Hpc.
    + by destruct (finish_cases j o
        (if op_outerError o then Rejected else Resolved (op_value o)) s Hj)
        as (_ & _ & _ & _ & ? & _).
Qed.

Lemma mirror_replies_ops j r s :
  mirror_replies j r s = s ∨
  ∃ o, opsList s !! j = Some o ∧ op_pc o = PInCallback ∧
       opsList (mirror_replies j r s) =
         <[j := set_pc (PAwaitCallback (CbReturn (set_returns s o r))) o]> (opsList s).
Proof.
  destruct (mirror_replies_cases j r s)
    as [->|(o & v & Hi & Hpc & Hk & F1 & F2 & F3 & F4 & F5 & F6 & F7)];
    [by left|right]. by exists o.
Qed.

(** Every event leaves a queued operation alone or moves it on. *)
Lemma step_op s e i o :
  opsList s !! i = Some o →
  ∃ o', opsList (step s e) !! i = Some o' ∧ op_next o o'.
Proof.
  intros Hi. destruct e as [tabId state v|tabId|tabId cn v apply| |j|j r]; simpl.
  - exists o. split; [by apply lookup_queueOp|by left].
  - exists o. split; [by apply lookup_onTabRemoved|by left].
  - exists o. split; [|by left]. destruct apply.
    + by apply (lookup_queueOp tabId cn (OpSet v)).
    + destruct (onStateChanged_direct_cases tabId cn v s)
        as (_ & _ & _ & _ & -> & _). done.
  - exists o. split; [|by left]. unfold dispose. by destruct (isDisposed s).
  - destruct (resume_ops j s) as [->|(oj & oj' & Hj & Hn & ->)];
      [exists o; split; [done|by left]|].
    destruct (decide (j = i)) as [->|Hne].
    + exists oj'. rewrite list_lookup_insert_eq by (by eapply lookup_lt_Some).
      split; [done|congruence].
    + exists o. rewrite list_lookup_insert_ne by done. split; [done|by left].
  - destruct (mirror_replies_ops j r s) as [->|(oj & Hj & Hpc & ->)];
      [exists o; split; [done|by left]|].
    destruct (decide (j = i)) as [->|Hne].
    + eexists. rewrite list_lookup_insert_eq by (by eapply lookup_lt_Some).
      split; [done|]. right. rewrite Hi in Hj. injection Hj as <-.
      rewrite Hpc. eauto.
    + exists o. rewrite list_lookup_insert_ne by done. split; [done|by left].
Qed.

(** Along a schedule, a property of an operation that [op_next] preserves
    keeps holding. *)
Lemma run_op_preserved (P : op → Prop) s tr i o :
  (∀ o o', P o → op_next o o' → P o') →
  opsList s !! i = Some o → P o →
  ∃ o', opsList (run s tr) !! i = Some o' ∧ P o'.
Proof.
  intros HP. revert s o. induction tr as [|e tr IH]; intros s o Hi Ho.
  - by exists o.
  - simpl. destruct (step_op s e i o Hi) as (o1 & Hi1 & Hn).
    apply (IH _ o1 Hi1). by apply (HP o).
Qed.

Lemma no_throw_next o o' : no_throw o → op_next o o' → no_throw o'.
Proof.
  intros (Hi & He & Hc & Hf) [->|Hn]; [done|].
  destruct (op_pc o) as [| |[b|]| |out] eqn:Hpc; try done.
  - destruct Hn as [[r ->]|[->|[->|[Hbad _]]]]; [by split_and!..|congruence].
  - destruct Hn as [b ->]. by split_and!.
  - subst o'. by split_and!.
  - subst o'. rewrite He. split_and!; simpl; [done..|]. by intros out [= <-].
Qed.

Lemma no_throw_queueOp tabId state (k : op_kind) s :
  names_inv s → Forall no_throw (opsList s) →
  Forall no_throw (opsList (_queueOp tabId state k s).2).
Proof.
  intros Hn H.
  destruct (queueOp_cases tabId state k s)
    as [[_ ->]|[(_ & _ & _ & ->)|(_ & _ & Hf & s' & -> & _ & _ & _ & _ & Hol & _)]];
    [done|done|].
  simpl. rewrite Hol. apply Forall_app. split; [done|].
  apply Forall_singleton. split_and!; try done. simpl.
  by rewrite <- (names_inv_foreign s state Hn).
Qed.

Lemma no_throw_step s e :
  names_inv s → Forall no_throw (opsList s) → Forall no_throw (opsList (step s e)).
Proof.
  intros Hn H. destruct e as [tabId state v|tabId|tabId cn v apply| |j|j r]; simpl.
  - by apply no_throw_queueOp.
  - unfold _onTabRemoved. generalize (Assoc.keys (_statesCaches s)).
    intros states. revert s Hn H.
    induction states as [|state states IH]; intros s Hn H; [done|].
    simpl. apply IH; [by apply names_inv_queueOp|by apply no_throw_queueOp].
  - destruct apply; [by apply (no_throw_queueOp tabId cn (OpSet v))|].
    by destruct (onStateChanged_direct_cases tabId cn v s)
      as (_ & _ & _ & _ & -> & _).
  - unfold dispose. by destruct (isDisposed s).
  - destruct (resume_ops j s) as [->|(oj & oj' & Hj & Hnx & ->)]; [done|].
    apply Forall_insert; [done|]. eapply no_throw_next; [|done].
    by eapply Forall_lookup_1.
  - destruct (mirror_replies_ops j r s) as [->|(oj & Hj & Hpc & ->)]; [done|].
    apply Forall_insert; [done|].
    eapply (no_throw_next oj); [by eapply Forall_lookup_1|].
    right. rewrite Hpc. eauto.
Qed.

Lemma no_throw_reachable s i o :
  reachable s → opsList s !! i = Some o → no_throw o.
Proof.
  intros (cn & tr & ->) Hi. eapply Forall_lookup_1; [|done]. clear Hi.
  assert (names_inv (new cn)) as Hn by (apply names_inv_reachable; by exists cn, []).
  unfold run. revert Hn.
  generalize (Forall_nil_2 no_throw : Forall no_throw (opsList (new cn))).
  generalize (new cn).
  induction tr as [|e tr IH]; intros s H Hn; [done|].
  simpl. apply IH; [by apply no_throw_step|by apply names_inv_step].
Qed.

End OpLife.

(** ** A failed mirror call leaves the belief alone *)
Section FailedSet.
Import CustomStateCache.
Implicit Types (s : t) (o : op) (i j k : nat) (state st : string) (tabId : Z).

(** [get] reads the configuration and the belief only. *)
Lemma get_ext s s' :
  _classNames s' = _classNames s → isDisposed s' = isDisposed s →
  (∀ st, foreign s' st = foreign s st) →
  (∀ t st, belief s' t st = belief s t st) →
  ∀ t st, (get t st s').1 = (get t st s).1.
Proof.
  intros Hcn Hd Hf Hb t st. rewrite !get_fst. unfold allowed.
  by rewrite Hcn, Hd, Hf, Hb.
Qed.

Lemma failed_set_next o o' : failed_set o → op_next o o' → failed_set o'.
Proof.
  intros Hf [->|Hn]; [done|].
  destruct Hf as [Hpc|[(Hpc & Hv & He)|Hpc]]; rewrite Hpc in Hn.
  - subst o'. right. left. by split_and!.
  - subst o'. right. right. simpl. by rewrite He, Hv.
  - done.
Qed.

(** What identifies an operation never changes. *)
Lemma op_next_same o o' :
  op_next o o' →
  op_tabId o' = op_tabId o ∧ op_state o' = op_state o ∧
  op_kind_of o' = op_kind_of o ∧ op_lastOp o' = op_lastOp o.
Proof.
  intros [->|Hn]; [done|].
  destruct (op_pc o) as [| |[b|]| |out]; try done.
  - by destruct Hn as [[r ->]|[->|[->|[_ [->| ->]]]]].
  - by destruct Hn as [b ->].
  - by subst o'.
  - by subst o'.
  - by subst o'.
Qed.

(** A call of [set] that is queued is recorded under the index it returns. *)
Lemma set_queued tabId state v s i :
  (set tabId state v s).1 = Returns (Some i) →
  isDisposed s = false ∧ allowed s state = true ∧ foreign s state = false ∧
  opsList (set tabId state v s).2 !! i =
    Some (Op tabId state (OpSet v) (tail s tabId state) None (Some false) false PAwaitLast) ∧
  _classNames (set tabId state v s).2 = _classNames s ∧
  isDisposed (set tabId state v s).2 = isDisposed s ∧
  (∀ t st, belief (set tabId state v s).2 t st = belief s t st).
Proof.
  unfold set.
  destruct (queueOp_cases tabId state (OpSet v) s)
    as [[_ ->]|[(_ & _ & _ & ->)|
        (Hd & Ha & Hf & s' & -> & Hcn & Hdis & _ & _ & Hol & _ & Hb)]]; [done|done|].
  simpl. intros [= <-]. split_and!; try done.
  rewrite Hol. by apply list_lookup_middle.
Qed.

(** C2. Let [set(tabId, state, v)] be queued as operation [i], and let its
    mirror call be pending after any further events [tr].  If that call fails
    (Tree Style Tab answers [false], or the call throws), then the failure
    changes the belief of no tab and no class, so [get(tabId, state)] is what
    it was before; when nothing but the callback of [set] ran in between, it
    is the value of before the call of [set], which is not [v].  Whatever
    happens next, the promise of [set] is never rejected and resolves with
    [false] only, and two resumptions are enough for it to do so. *)
Theorem set_failure_keeps_belief (s0 : t) (tabId : Z) (state : string)
    (v : bool) (i : nat) (tr : list event) (o : op) (r : mirror_reply) :
  (set tabId state v s0).1 = Returns (Some i) →
  let s1 := run s0 (ESet tabId state v :: tr) in
  opsList s1 !! i = Some o → op_pc o = PInCallback →
  r = Acked false ∨ r = Threw →
  let s2 := mirror_replies i r s1 in
  (∀ t st, (get t st s2).1 = (get t st s1).1) ∧
  (tr = [EResume i] →
   (get tabId state s2).1 = (get tabId state s0).1 ∧
   (get tabId state s0).1 = Returns (negb v)) ∧
  (∀ tr' o' out,
     opsList (run s2 tr') !! i = Some o' → op_pc o' = PFinished out →
     out = Resolved (Some false)) ∧
  (∃ o', opsList (run s2 [EResume i; EResume i]) !! i = Some o' ∧
         op_pc o' = PFinished (Resolved (Some false))).
Proof.
  intros Hq s1 Hi Hpc Hr s2.
  destruct (set_queued _ _ _ _ _ Hq) as (Hd0 & Ha0 & Hf0 & Hi0 & Hcn0 & Hdis0 & Hb0).
  (* the operation is still the one that [set] queued *)
  assert (op_tabId o = tabId ∧ op_state o = state ∧ op_kind_of o = OpSet v)
    as (Ht & Hst & Hk).
  { assert (∀ o1 o2,
              op_tabId o1 = tabId ∧ op_state o1 = state ∧ op_kind_of o1 = OpSet v →
              op_next o1 o2 →
              op_tabId o2 = tabId ∧ op_state o2 = state ∧ op_kind_of o2 = OpSet v)
      as Hnext.
    { intros o1 o2 (? & ? & ?) (? & ? & ? & _)%op_next_same.
      split_and!; congruence. }
    destruct (run_op_preserved _ _ tr i _ Hnext Hi0) as (o' & Hi' & HP);
      [done|].
    unfold s1 in Hi. simpl in Hi. rewrite Hi in Hi'. by injection Hi' as <-. }
  (* the failure *)
  destruct (mirror_replies_set i r s1 o v Hi Hpc Hk)
    as (F1 & F2 & F3 & F4 & F5 & F6 & F7).
  fold s2 in F1, F2, F3, F4, F5, F6, F7.
  assert (∀ t st, belief s2 t st = belief s1 t st) as Hb.
  { intros t st. rewrite F7. rewrite decide_False; [done|].
    intros [Hack _]. by destruct Hr as [-> | ->]. }
  assert (opsList s2 !! i =
          Some (set_pc (PAwaitCallback (CbReturn false)) o)) as Hi2.
  { rewrite F5, list_lookup_insert_eq by (by eapply lookup_lt_Some).
    by destruct Hr as [-> | ->]. }
  assert (∀ st, foreign s2 st = foreign s1 st) as Hf2.
  { intros st. by apply (foreign_step s1 (EMirrorReply i r)). }
  split_and!.
  - by apply get_ext.
  - intros ->. rewrite (get_ext s1 s2) by done.
    unfold s1 in *. simpl in *. set (s' := (set tabId state v s0).2) in *.
    assert (∀ st, foreign s' st = foreign s0 st) as Hf'.
    { intros st. apply foreign_queueOp. }
    assert (∀ t st, (get t st s').1 = (get t st s0).1) as Hg0 by by apply get_ext.
    rewrite <- !Hg0.
    unfold resume in Hi |- *. rewrite Hi0 in Hi |- *. simpl in Hi |- *.
    destruct (lastResult s' (tail s0 tabId state)) as [lr|] eqn:Hlr.
    2:{ rewrite Hi0 in Hi. injection Hi as <-. done. }
    destruct (truthy lr).
    { rewrite (opsList_update_op _ _ _ _ Hi0), list_lookup_insert_eq in Hi
        by (by eapply lookup_lt_Some).
      injection Hi as <-. done. }
    rewrite Hdis0, Hd0 in Hi |- *.
    destruct (run_callback_cases i _ s' Hi0) as (G1 & G2 & G3 & G4 & G5 & Hcb);
      [congruence|].
    destruct Hcb as [(Hbad & _)|[(v' & _ & _ & Hol & _)|
                     [(v' & Hk' & Hg & Hol & _ & Hb')|(Hbad & _)]]].
    + done.
    + rewrite Hol, list_lookup_insert_eq in Hi by (by eapply lookup_lt_Some).
      injection Hi as <-. done.
    + simpl in Hk', Hg. injection Hk' as <-. split; [|done].
      apply get_ext; [done|congruence|intros; apply foreign_run_callback|done].
    + simpl in Hbad. rewrite Hf', Hf0 in Hbad. done.
  - intros tr' o' out Hi' Hout.
    destruct (run_op_preserved failed_set s2 tr' i _ failed_set_next Hi2)
      as (o'' & Hi'' & [Hf|[(Hf & _)|Hf]]); [by left|..];
      rewrite Hi' in Hi''; injection Hi'' as <-; congruence.
  - simpl. unfold resume at 2. rewrite Hi2. simpl.
    set (s3 := update_op i _ s2).
    assert (opsList s3 !! i =
            Some (resolve_promise None (set_value (Some false) false o))) as Hi3.
    { unfold s3. rewrite (opsList_update_op _ _ _ _ Hi2).
      rewrite list_lookup_insert_eq by (by eapply lookup_lt_Some).
      simpl. by rewrite Hk. }
    unfold resume. rewrite Hi3. simpl.
    match goal with |- context [update_op i (set_pc (PFinished ?out)) ?sx] =>
      destruct (finish_cases i _ out s3 Hi3) as (_ & _ & _ & _ & Hol & _)
    end.
    simpl in Hol. rewrite Hol.
    eexists. rewrite list_lookup_insert_eq by (by eapply lookup_lt_Some). done.
Qed.

(** The theorem at the first call of [set] of a fresh cache, for a mirror
    call that throws. *)
Lemma set_failure_keeps_belief_witness :
  (get 1 "red" (run (new None)
     [ESet 1 "red" true; EResume 0; EMirrorReply 0 Threw])).1 = Returns false ∧
  ∃ o', opsList (run (new None)
          [ESet 1 "red" true; EResume 0; EMirrorReply 0 Threw;
           EResume 0; EResume 0]) !! 0%nat = Some o' ∧
        op_pc o' = PFinished (Resolved (Some false)).
Proof.
  assert ((set 1 "red" true (new None)).1 = Returns (Some 0%nat)) as Hq by reflexivity.
  destruct (set_failure_keeps_belief (new None) 1 "red" true 0 [EResume 0%nat]
              (set_pc PInCallback
                 (Op 1 "red" (OpSet true) None None (Some false) false PAwaitLast))
              Threw Hq) as (_ & Hget & _ & Hfin).
  - reflexivity.
  - reflexivity.
  - by right.
  - split; [|exact Hfin]. destruct (Hget eq_refl) as [H1 H2].
    exact (eq_trans H1 H2).
Defined.

End FailedSet.

(** ** What an event can change *)
Section StepEffects.
Import CustomStateCache.
Implicit Types (s : t) (o : op) (i j k : nat) (state st : string) (tabId : Z).

Lemma onTabRemoved_frame tabId s :
  _classNames (_onTabRemoved tabId s) = _classNames s ∧
  isDisposed (_onTabRemoved tabId s) = isDisposed s ∧
  mirrorLog (_onTabRemoved tabId s) = mirrorLog s ∧
  startLog (_onTabRemoved tabId s) = startLog s ∧
  (∀ t st, belief (_onTabRemoved tabId s) t st = belief s t st).
Proof.
  unfold _onTabRemoved. generalize (Assoc.keys (_statesCaches s)).
  intros states. revert s. induction states as [|state states IH]; intros s.
  - done.
  - simpl. destruct (IH (_queueOp tabId state OpTabRemoved s).2)
      as (E1 & E2 & E3 & E4 & Hb).
    rewrite E1, E2, E3, E4.
    destruct (queueOp_cases tabId state OpTabRemoved s)
      as [[_ Hq]|[(_ & _ & _ & Hq)|(_ & _ & _ & s' & Hq & ? & ? & ? & ? & _ & _ & Hb')]];
      rewrite Hq in Hb |- *; simpl in *; [done|done|].
    split_and!; try done. intros t st. by rewrite Hb, Hb'.
Qed.

(** The configuration is fixed; only [dispose] disposes. *)
Lemma step_config s e :
  _classNames (step s e) = _classNames s ∧
  (e ≠ EDispose → isDisposed (step s e) = isDisposed s).
Proof.
  destruct e as [tabId state v|tabId|tabId cn v apply| |j|j r]; simpl.
  - destruct (queueOp_cases tabId state (OpSet v) s)
      as [[_ Hq]|[(_ & _ & _ & Hq)|(_ & _ & _ & s' & Hq & ? & ? & _)]];
      unfold set; rewrite Hq; done.
  - by destruct (onTabRemoved_frame tabId s) as (? & ? & _).
  - destruct apply.
    + destruct (queueOp_cases tabId cn (OpSet v) s)
        as [[_ Hq]|[(_ & _ & _ & Hq)|(_ & _ & _ & s' & Hq & ? & ? & _)]];
        unfold _onStateChanged, set; rewrite Hq; done.
    + by destruct (onStateChanged_direct_cases tabId cn v s) as (? & ? & _).
  - split; [|done]. unfold dispose. by destruct (isDisposed s).
  - unfold resume. destruct (opsList s !! j) as [o|] eqn:Hj; [|done].
    destruct (op_pc o) eqn:Hpc; try done.
    + destruct (lastResult s (op_lastOp o)) as [r|]; [|done].
      assert (∀ v, _classNames (update_op j (resolve_promise v) s) = _classNames s ∧
                (EResume j ≠ EDispose →
                 isDisposed (update_op j (resolve_promise v) s) = isDisposed s))
        as Hskip.
      { intros v. by destruct (update_op_frame j (resolve_promise v) s) as (? & ? & _). }
      destruct (truthy r); [apply Hskip|].
      destruct (isDisposed s) eqn:Hd; [apply Hskip|].
      destruct (run_callback_cases j o s Hj Hd) as (? & ? & _). split; congruence.
    + destruct r as [b|]; simpl;
      match goal with |- context [update_op j ?f s] =>
        by destruct (update_op_frame j f s) as (? & ? & _)
      end.
    + by destruct (finish_cases j o
        (if op_outerError o then Rejected else Resolved (op_value o)) s Hj)
        as (? & ? & _).
  - destruct (mirror_replies_cases j r s)
      as [->|(o & v & _ & _ & _ & ? & ? & _)]; done.
Qed.



End StepEffects.

(** ** The messages to the mirror *)
Section MirrorCalls.
Import CustomStateCache.
Implicit Types (s : t) (o : op) (i j k : nat) (state st : string) (tabId : Z).







Lemma reachable_run s tr : reachable s → reachable (run s tr).
Proof.
  intros (cn & tr0 & ->). exists cn, (tr0 ++ tr). unfold run.
  by rewrite foldl_app.
Qed.

End MirrorCalls.

(** ** How one operation of [set] moves *)
Section SetMoves.
Import CustomStateCache.
Implicit Types (s : t) (o : op) (i j k : nat) (state st : string) (tabId : Z).




End SetMoves.

(** ** Two calls of [set] in succession *)
Section SetTwice.
Import CustomStateCache.
Implicit Types (s : t) (o : op) (k : nat) (st : string).
Context (tabId : Z) (state : string) (v : bool) (i : nat).













End SetTwice.

Section Idempotence.
Import CustomStateCache.




End Idempotence.

(** ** Re-applying the states of an attached tab *)
Section Attached.
Import CustomStateCache TabAttached.
Implicit Types (E : env) (tabId : Z) (a n k fuel : nat).

Lemma schedule_nil E tabId a : schedule E tabId a 0 = [].
Proof. done. Qed.

Lemma schedule_S E tabId a n :
  schedule E tabId a (S n) = attempt_of E tabId a ++ schedule E tabId (S a) n.
Proof. done. Qed.

Lemma notifications_schedule E tabId a n :
  length (notifications (schedule E tabId a n)) = n.
Proof.
  revert a. induction n as [|n IH]; intros a; [done|].
  rewrite schedule_S. unfold notifications in *.
  rewrite List.filter_app, length_app, IH. done.
Qed.

(** The loop runs whole attempts [a], ..., [a + n - 1], each acknowledged or
    not but answered, and then stops. *)
Lemma attempts_shape E tabId fuel a :
  (a ≤ 4)%nat → (4 - a ≤ fuel)%nat →
  ∃ n tl, (a + n ≤ 4)%nat ∧
    (attempts E tabId fuel a).1 = schedule E tabId a n ++ tl ∧
    stop E tabId (a + n) tl (attempts E tabId fuel a).2 ∧
    ∀ k, (a ≤ k < a + n)%nat →
         getTabStates tabId (at_attempt E k) ≠ [] ∧
         ∃ b, reply E k = Some (Acked b).
Proof.
  revert a. induction fuel as [|fuel IH]; intros a Ha Hfuel.
  - exists 0%nat, []. assert (a = 4%nat) as -> by lia. simpl.
    split_and!; [lia|done|by constructor|lia].
  - simpl. destruct (a <? 4)%nat eqn:Hlt.
    2:{ apply Nat.ltb_ge in Hlt. exists 0%nat, []. simpl.
        split_and!; [lia|done|constructor; lia|lia]. }
    apply Nat.ltb_lt in Hlt.
    destruct (getTabStates tabId (at_attempt E a)) as [|st sts] eqn:Hst.
    { exists 0%nat, [Delay (250 * (Z.of_nat a + 1))]. simpl.
      rewrite Nat.add_0_r. split_and!; [lia|done|by constructor|lia]. }
    rewrite bool_decide_eq_false_2 by done.
    destruct (reply E a) as [[b|]|] eqn:Hr.
    + destruct (IH (S a)) as (n & tl & Hn & Heff & Hstop & Hall); [lia..|].
      destruct (attempts E tabId fuel (S a)) as [effects e] eqn:Hrec.
      simpl in *. exists (S n), tl. split_and!.
      * lia.
      * rewrite schedule_S. unfold attempt_of at 1. rewrite Hst, Heff. done.
      * by replace (a + S n)%nat with (S a + n)%nat by lia.
      * intros k Hk. destruct (decide (k = a)) as [->|Hne].
        -- rewrite Hst. split; [done|by exists b].
        -- apply Hall. lia.
    + exists 0%nat. eexists. simpl. rewrite Nat.add_0_r.
      split_and!; [lia|done| |lia].
      replace [Delay (250 * (Z.of_nat a + 1));
               Notify (MirrorCall [tabId] (st :: sts) true); LogError]
        with (attempt_of E tabId a ++ [LogError])
        by (unfold attempt_of; by rewrite Hst).
      apply StopThrew; [done|by rewrite Hst|done].
    + exists 0%nat. eexists. simpl. rewrite Nat.add_0_r.
      split_and!; [lia|done| |lia].
      replace [Delay (250 * (Z.of_nat a + 1));
               Notify (MirrorCall [tabId] (st :: sts) true)]
        with (attempt_of E tabId a)
        by (unfold attempt_of; by rewrite Hst).
      apply StopSuspended; [done|by rewrite Hst|done].
Qed.

(** Fuel beyond the four iterations of the loop is never used. *)
Lemma attempts_fuel E tabId fuel fuel' a :
  (4 - a ≤ fuel)%nat → (4 - a ≤ fuel')%nat →
  attempts E tabId fuel a = attempts E tabId fuel' a.
Proof.
  revert fuel' a. induction fuel as [|fuel IH]; intros [|fuel'] a H1 H2; try done.
  - simpl. by rewrite (proj2 (Nat.ltb_ge a 4)) by lia.
  - simpl. by rewrite (proj2 (Nat.ltb_ge a 4)) by lia.
  - simpl. destruct (a <? 4)%nat eqn:Hlt; [|done]. apply Nat.ltb_lt in Hlt.
    rewrite (IH fuel' (S a)) by lia. done.
Qed.

#[local] Arguments attempts : simpl never.

Lemma stop_notifications E tabId k tl e :
  stop E tabId k tl e →
  (length (notifications tl) ≤ 1)%nat ∧
  (getTabStates tabId (at_attempt E k) = [] → notifications tl = []) ∧
  (k = 4%nat → notifications tl = []) ∧
  e ≠ Uncaught.
Proof.
  intros [Hk|Hk Hst|Hk Hst Hr|Hk Hst Hr]; unfold notifications, attempt_of;
    simpl; split_and!; try done; try lia; auto.
Qed.

Lemma stop_exhausted E tabId tl e :
  stop E tabId 4 tl e → tl = [] ∧ e = Returned.
Proof. intros H. inversion H; [done|lia..]. Qed.

(** C5. After a tab was attached, the handler re-asserts the states that the
    tab is believed to have at most 4 times, and it waits 250, 500, 750 and
    1000 ms before the attempts 1 to 4: what it does is a run of whole
    attempts (delay, then message), followed by nothing, by the delay alone
    of an attempt that found no state, or by an attempt whose message was
    never answered or threw.  With no state before the loop it does nothing;
    with no state when the delay of an attempt has elapsed, that attempt and
    the later ones send nothing.  With Tree Style Tab never acknowledging,
    it sends exactly the four messages and returns.  No exception leaves the
    handler, whatever the cache and Tree Style Tab do. *)
Theorem onTabAttached_retries (E : env) (tabId : Z) (s : CustomStateCache.t) :
  let r := _onTabAttached E tabId s in
  (length (notifications r.1) ≤ 4)%nat ∧
  (getTabStates tabId s = [] ∧ r = ([], Returned) ∨
   getTabStates tabId s ≠ [] ∧
   ∃ n tl, (n ≤ 4)%nat ∧ r.1 = schedule E tabId 0 n ++ tl ∧
           stop E tabId n tl r.2) ∧
  delays (schedule E tabId 0 4) = Delay <$> [250; 500; 750; 1000] ∧
  (∀ k, (k < 4)%nat → getTabStates tabId (at_attempt E k) = [] →
        (length (notifications r.1) ≤ k)%nat) ∧
  (getTabStates tabId s ≠ [] →
   (∀ k, getTabStates tabId (at_attempt E k) ≠ [] ∧
         reply E k = Some (Acked false)) →
   r = (schedule E tabId 0 4, Returned)) ∧
  r.2 ≠ Uncaught ∧
  (∀ extra, attempts E tabId (4 + extra) 0 = attempts E tabId 4 0).
Proof.
  intros r. subst r. unfold _onTabAttached.
  assert (∀ extra, attempts E tabId (4 + extra) 0 = attempts E tabId 4 0) as Hfuel.
  { intros extra. apply attempts_fuel; lia. }
  destruct (getTabStates tabId s) as [|st sts] eqn:Hs.
  { rewrite bool_decide_eq_true_2 by done. split_and!.
    - simpl. lia.
    - by left.
    - done.
    - intros. simpl. lia.
    - done.
    - done.
    - exact Hfuel. }
  rewrite bool_decide_eq_false_2 by done.
  destruct (attempts_shape E tabId 4 0) as (n & tl & Hn & Heff & Hstop & Hall);
    [lia..|].
  simpl in Hn, Hstop.
  destruct (stop_notifications _ _ _ _ _ Hstop) as (Hone & Hnone & Hfour & Hcaught).
  assert (length (notifications (attempts E tabId 4 0).1) =
          (n + length (notifications tl))%nat) as Hlen.
  { rewrite Heff. unfold notifications. rewrite List.filter_app, length_app.
    f_equal. apply notifications_schedule. }
  split_and!.
  - rewrite Hlen. destruct (decide (n = 4%nat)) as [->|]; [|lia].
    rewrite Hfour; [simpl; lia|done].
  - right. split; [done|]. by exists n, tl.
  - done.
  - intros k Hk Hempty. rewrite Hlen.
    destruct (decide (k < n)%nat) as [Hlt|Hge].
    { destruct (Hall k) as [Hne _]; [lia|done]. }
    destruct (decide (k = n)) as [->|Hne]; [|lia].
    rewrite Hnone; [simpl; lia|done].
  - intros _ Hnever.
    assert (n = 4%nat) as ->.
    { destruct Hstop as [Hk|Hk Hst|Hk Hst Hr|Hk Hst Hr]; [done|..].
      - by destruct (Hnever n).
      - destruct (Hnever n) as [_ Hr']. congruence.
      - destruct (Hnever n) as [_ Hr']. congruence. }
    destruct (stop_exhausted _ _ _ _ Hstop) as [-> He].
    rewrite app_nil_r in Heff.
    rewrite (surjective_pairing (attempts E tabId 4 0)). by rewrite Heff, He.
  - done.
  - exact Hfuel.
Qed.

(** The theorem for a tab that keeps its state while Tree Style Tab never
    acknowledges: four messages after 250, 500, 750 and 1000 ms. *)
Lemma onTabAttached_retries_witness :
  _onTabAttached never_acknowledged 7 red7 =
    ([Delay 250; Notify (MirrorCall [7] ["red"] true);
      Delay 500; Notify (MirrorCall [7] ["red"] true);
      Delay 750; Notify (MirrorCall [7] ["red"] true);
      Delay 1000; Notify (MirrorCall [7] ["red"] true)], Returned).
Proof.
  destruct (onTabAttached_retries never_acknowledged 7 red7)
    as (_ & _ & _ & _ & H & _).
  rewrite H; [reflexivity|by vm_compute|].
  intros k. split; [by vm_compute|reflexivity].
Defined.

End Attached.

(** ** Pushing the belief in batches *)
Section Batches.
Import CustomStateCache ForceNotify.
Implicit Types (E : env) (s : CustomStateCache.t) (state : string).
















End Batches.

(** ** SessionDataCache: what the events do *)
Section SessionSteps.
Import JS SessionDataCache.
Implicit Types (s : t) (h : nat) (e : event).

Ltac session_unfold :=
  unfold step, call_handler, resume, got_value, after_suppress, dispose,
    hydration_settles, start_settles, write_value, _createDataForEntry,
    _notifyDataChange, fire, set_handler,
    with_fired, with_handlers, with_objects, with_storage, with_start in *.

Ltac session_cases :=
  session_unfold; repeat (case_match; simpl in *); simplify_eq; simpl in *.

Lemma createDataForEntry_frame entryId data s :
  let s' := (_createDataForEntry entryId data s).2 in
  _isDisposed s' = _isDisposed s ∧ start s' = start s ∧
  handlers s' = handlers s ∧ fired s' = fired s.
Proof. unfold _createDataForEntry. by destruct data. Qed.

Lemma got_entry_ids_frame ids s :
  let s' := got_entry_ids ids s in
  _isDisposed s' = _isDisposed s ∧ start s' = start s ∧
  handlers s' = handlers s ∧ fired s' = fired s.
Proof.
  unfold got_entry_ids. revert s. induction ids as [|id ids IH]; intros s; [done|].
  simpl. destruct (IH (_createDataForEntry id (_storage s !! id) s).2)
    as (-> & -> & -> & ->).
  apply createDataForEntry_frame.
Qed.

(** Only [dispose] disposes, and for good. *)
Lemma step_disposed s e :
  _isDisposed s = true → _isDisposed (step s e) = true.
Proof.
  intros Hd. destruct e as [k|h| |ids|entryId data key v|data ok|ok];
    try (session_cases; congruence).
  simpl. by destruct (got_entry_ids_frame ids s) as (-> & _).
Qed.

(** [start] settles once. *)
Lemma step_start s e : is_Some (start s) → is_Some (start (step s e)).
Proof.
  intros Hd. destruct e as [k|h| |ids|entryId data key v|data ok|ok];
    try (session_cases; solve [congruence | eauto]).
  simpl. by destruct (got_entry_ids_frame ids s) as (_ & -> & _).
Qed.

(** The other events leave a handler as it is. *)
Lemma step_other_handler s e h x :
  handlers s !! h = Some x → e ≠ EResume h →
  handlers (step s e) !! h = Some x.
Proof.
  intros Hh Hne.
  assert (h < length (handlers s))%nat as Hlen by (by eapply lookup_lt_Some).
  destruct e as [k|h'| |ids|entryId data key v|data ok|ok];
    try (session_cases; solve [congruence | by rewrite lookup_app_l]).
  - assert (h' ≠ h) as Hh' by congruence.
    session_cases; rewrite ?list_lookup_insert_ne by done; congruence.
  - simpl. by destruct (got_entry_ids_frame ids s) as (_ & _ & -> & _).
Qed.

(** The handler of a removed entry, resumed. *)
Lemma resume_removed s h x entryId :
  handlers s !! h = Some x → h_kind x = OnEntryRemoved entryId →
  _isDisposed (resume h s) = _isDisposed s ∧ start (resume h s) = start s ∧
  match h_pc x with
  | HAwaitStart =>
      match start s with
      | None => resume h s = s
      | Some _ =>
          handlers (resume h s) !! h =
            Some (Handler (h_kind x) (HAwaitSuppress (_isDisposed s)))
      end
  | HAwaitSuppress true =>
      handlers (resume h s) !! h = Some (Handler (h_kind x) (HDone Returned)) ∧
      _storage (resume h s) = _storage s
  | HAwaitSuppress false =>
      handlers (resume h s) !! h = Some (Handler (h_kind x) (HDone Returned)) ∧
      _storage (resume h s) !! entryId = None
  | HAwaitHydration _ _ => True
  | HDone _ => resume h s = s
  end.
Proof.
  intros Hh Hk.
  assert (h < length (handlers s))%nat as Hlen by (by eapply lookup_lt_Some).
  unfold resume. rewrite Hh, Hk.
  destruct (h_pc x) as [|[|]|data awaited|]; session_cases;
    rewrite ?list_lookup_insert_eq by done; split_and!; try done;
    try congruence; by rewrite ?lookup_delete_eq.
Qed.

#[local] Arguments SessionDataCache.resume : simpl never.

Lemma removed_inv_step entryId h s e :
  removed_inv entryId h s → removed_inv entryId h (step s e).
Proof.
  intros (x & Hh & Hk & Hpc).
  destruct (decide (e = EResume h)) as [->|Hne].
  - simpl. destruct (resume_removed s h x entryId Hh Hk) as (Hd & Hs & Hres).
    destruct Hpc as [Hpc|[(b & Hpc & Hst & Hb)|[Hpc Hst]]]; rewrite Hpc in Hres.
    + destruct (start s) as [ok|] eqn:Hstart.
      * eexists. split; [exact Hres|]. split; [done|]. right. left.
        exists (_isDisposed s). rewrite Hs, Hd. by split_and!.
      * rewrite Hres. exists x. split_and!; auto.
    + destruct b; destruct Hres as [Hres _]; eexists;
        (split; [exact Hres|]); (split; [done|]); right; right;
        by rewrite Hs.
    + rewrite Hres. exists x. split_and!; auto.
  - exists x. split; [by apply step_other_handler|]. split; [done|].
    destruct Hpc as [Hpc|[(b & Hpc & Hst & Hb)|[Hpc Hst]]]; [by left| |].
    + right. left. exists b. split_and!; [done|by apply step_start|].
      intros Hb'. apply step_disposed. by apply Hb.
    + right. right. split; [done|by apply step_start].
Qed.

Lemma removed_inv_run entryId h s tr :
  removed_inv entryId h s → removed_inv entryId h (run s tr).
Proof.
  revert s. induction tr as [|e tr IH]; intros s Hinv; [done|].
  simpl. apply IH. by apply removed_inv_step.
Qed.

Lemma finished_pc s h :
  finished s h = true ↔ ∃ x en, handlers s !! h = Some x ∧ h_pc x = HDone en.
Proof.
  unfold finished, pc_of. destruct (handlers s !! h) as [x|]; simpl.
  - destruct (h_pc x) eqn:E; split; try done; try (by intros (? & ? & [= <-] & ?); congruence).
    intros _. eauto.
  - split; [done|]. by intros (? & ? & ? & _).
Qed.

(** C6. Let an entry-removed event reach the cache while [start] is pending.
    Whatever happens next, the handler never throws; it does not go on
    before [start] has resolved; once [start] has resolved, two resumptions
    settle it; and at the moment it settles, the entry is absent from the
    storage of the cache, as long as the cache was not disposed of. *)
Theorem entry_removed_before_start (s : t) (entryId : Z) (tr : list event) :
  start s = None →
  let h := length (handlers s) in
  let s1 := run (call_handler (OnEntryRemoved entryId) s) tr in
  pc_of s1 h ≠ Some (HDone Threw) ∧
  (start s1 = None → pc_of s1 h = Some HAwaitStart) ∧
  (is_Some (start s1) → finished (run s1 [EResume h; EResume h]) h = true) ∧
  (∀ e, finished s1 h = false → finished (step s1 e) h = true →
        _isDisposed (step s1 e) = false →
        is_Some (start s1) ∧ _storage (step s1 e) !! entryId = None).
Proof.
  intros Hstart h s1.
  assert (removed_inv entryId h (call_handler (OnEntryRemoved entryId) s)) as H0.
  { exists (Handler (OnEntryRemoved entryId) HAwaitStart). simpl.
    split; [by apply list_lookup_middle|]. split; [done|by left]. }
  assert (removed_inv entryId h s1) as (x & Hh & Hk & Hpc)
    by (by apply removed_inv_run).
  unfold pc_of. rewrite Hh. simpl. split_and!.
  - destruct Hpc as [->|[(b & -> & _)|[-> _]]]; done.
  - intros Hnone.
    destruct Hpc as [->|[(b & _ & [? Hs] & _)|[_ [? Hs]]]]; [done|congruence..].
  - intros [ok Hok]. simpl.
    destruct (resume_removed s1 h x entryId Hh Hk) as (Hd & Hs & Hres).
    assert (∀ s' x', handlers s' !! h = Some x' →
              h_kind x' = OnEntryRemoved entryId →
              (∃ b, h_pc x' = HAwaitSuppress b) ∨ (∃ en, h_pc x' = HDone en) →
              finished (resume h s') h = true) as Hlast.
    { intros s' x' Hh' Hk' Hpc'.
      destruct (resume_removed s' h x' entryId Hh' Hk') as (_ & _ & Hres').
      apply finished_pc.
      destruct Hpc' as [[b Hb]|[e He]]; rewrite ?Hb, ?He in Hres'.
      - destruct b; destruct Hres' as [Hres' _]; eauto.
      - rewrite Hres'. eauto. }
    destruct Hpc as [Hpc|[(b & Hpc & _)|[Hpc _]]]; rewrite Hpc in Hres.
    + rewrite Hok in Hres. eapply Hlast; [exact Hres|done|]. left. eauto.
    + assert (∃ x', handlers (resume h s1) !! h = Some x' ∧
                h_kind x' = OnEntryRemoved entryId ∧ h_pc x' = HDone Returned)
        as (x' & Hh' & Hk' & Hpc').
      { destruct b; destruct Hres as [Hres _]; eauto. }
      eapply Hlast; [exact Hh'|done|]. right. eauto.
    + rewrite Hres. eapply Hlast; [exact Hh|done|]. right. eauto.
  - intros e Hnot Hfin Hlive.
    destruct (decide (e = EResume h)) as [->|Hne].
    2:{ exfalso. unfold finished, pc_of in *.
        rewrite (step_other_handler s1 e h x Hh Hne) in Hfin. rewrite Hh in Hnot.
        simpl in *. by rewrite Hfin in Hnot. }
    simpl in *. destruct (resume_removed s1 h x entryId Hh Hk) as (Hd & Hs & Hres).
    unfold finished, pc_of in Hnot, Hfin. rewrite Hh in Hnot. simpl in Hnot.
    destruct Hpc as [Hpc|[(b & Hpc & Hst & Hb)|[Hpc _]]]; rewrite Hpc in Hres, Hnot.
    + destruct (start s1); [by rewrite Hres in Hfin|].
      rewrite Hres, Hh in Hfin. simpl in Hfin. by rewrite Hpc in Hfin.
    + split; [done|]. destruct b; [|by destruct Hres].
      rewrite Hd, Hb in Hlive; done.
    + done.
Qed.

(** The theorem at a fresh cache: the event for tab 1 arrives and the
    handler is resumed; then the ids of the tabs arrive, [start] resolves,
    and the handler runs. *)
Lemma entry_removed_before_start_witness :
  let tr := [EResume 0; EGotEntryIds [1; 2]; EStartSettles true; EResume 0] in
  let s1 := run (call_handler (OnEntryRemoved 1) (new ["marked"] false)) tr in
  pc_of s1 0 = Some (HAwaitSuppress false) ∧
  is_Some (_storage s1 !! 1) ∧
  finished (step s1 (EResume 0)) 0 = true ∧
  _storage (step s1 (EResume 0)) !! 1 = None.
Proof.
  intros tr s1.
  destruct (entry_removed_before_start (new ["marked"] false) 1 tr eq_refl)
    as (_ & _ & _ & H).
  destruct (H (EResume 0%nat)) as [_ Habsent]; [reflexivity..|].
  split_and!; [reflexivity|by eexists|reflexivity|exact Habsent].
Defined.

End SessionSteps.

(** ** SessionDataCache: a changed value *)
Section EntryChanged.
Import JS SessionDataCache.
Implicit Types (s : t) (h : nat) (hs : list handler).

Lemma lookup_last_handler hs (x : handler) : (hs ++ [x]) !! length hs = Some x.
Proof. by rewrite list_lookup_middle. Qed.

Lemma insert_last_handler hs (x y : handler) :
  <[length hs := y]> (hs ++ [x]) = hs ++ [y].
Proof.
  rewrite insert_app_r_alt by lia. by rewrite Nat.sub_diag.
Qed.

(** The handler of a changed value, one resumption at a time. *)
Lemma entry_changed_called s entryId key newValue :
  key ∈ _monitoredKeys s →
  call_handler (OnEntryChanged entryId key newValue) s =
  with_handlers (handlers s ++ [Handler (OnEntryChanged entryId key newValue) HAwaitStart]) s.
Proof. intros Hmon. unfold call_handler. by rewrite bool_decide_eq_true_2. Qed.

Lemma resume_await_start s hs k ok :
  handlers s = hs ++ [Handler k HAwaitStart] → start s = Some ok →
  resume (length hs) s =
  with_handlers (hs ++ [Handler k (HAwaitSuppress (_isDisposed s))]) s.
Proof.
  intros Hh Hs. unfold resume, set_handler.
  rewrite Hh, lookup_last_handler. cbn [h_pc h_kind]. rewrite Hs.
  by rewrite insert_last_handler.
Qed.

Lemma resume_await_suppress s hs entryId key newValue data :
  handlers s = hs ++ [Handler (OnEntryChanged entryId key newValue) (HAwaitSuppress false)] →
  _storage s !! entryId = Some data →
  resume (length hs) s =
  with_handlers (hs ++ [Handler (OnEntryChanged entryId key newValue)
                          (HAwaitHydration data (bool_decide (data ∈ _asyncStorage s)))]) s.
Proof.
  intros Hh Hst. unfold resume, after_suppress, set_handler.
  rewrite Hh, lookup_last_handler. cbn [h_pc h_kind]. rewrite Hst.
  by rewrite insert_last_handler.
Qed.

Lemma resume_await_hydration s hs entryId key newValue data m :
  handlers s = hs ++ [Handler (OnEntryChanged entryId key newValue)
                        (HAwaitHydration data (bool_decide (data ∈ _asyncStorage s)))] →
  objects s !! data = Some m →
  (data ∈ _asyncStorage s → hydration s !! data = Some Fulfilled) →
  _isDisposed s = false → key ≠ "" →
  resume (length hs) s =
  with_handlers (hs ++ [Handler (OnEntryChanged entryId key newValue) (HDone Returned)])
    (with_fired (fired s ++ [change_of entryId key newValue])
       (with_objects (<[data := changed m key newValue]> (objects s)) s)).
Proof.
  intros Hh Hobj Hhyd Hlive Hkey.
  assert (String.eqb key "" = false) as Hkey' by (by apply String.eqb_neq).
  unfold resume. rewrite Hh, lookup_last_handler. cbn [h_pc h_kind].
  assert ((if bool_decide (data ∈ _asyncStorage s)
           then default Fulfilled (hydration s !! data) else Fulfilled)
          = Fulfilled) as ->.
  { case_bool_decide; [|done]. by rewrite Hhyd. }
  unfold write_value. rewrite Hobj.
  unfold _notifyDataChange, fire, set_handler, with_objects, with_fired, with_handlers.
  cbn [_isDisposed handlers fired objects _monitoredKeys has_getStorageValue
       _storage _asyncStorage hydration start].
  rewrite Hlive, Hkey'.
  cbn [_isDisposed handlers fired objects _monitoredKeys has_getStorageValue
       _storage _asyncStorage hydration start].
  rewrite Hh, lookup_last_handler, insert_last_handler.
  cbn [h_kind]. unfold change_of, changed. rewrite Hkey'. reflexivity.
Qed.

(** C9, as stated, fails: the empty string is a defined value; it is stored
    under the key, yet the event that is fired has no value. *)
Lemma entry_changed_to_empty_string :
  let s := entry_changed 1 "marked" (Str "") two_tabs in
  data_of s 1 = Some {["marked" := Str ""]} ∧
  fired s = [{| entryId := 1; key := Some "marked"; value := None |}] ∧
  ¬ (value (change_of 1 "marked" (Str "")) = None ↔ Str "" = Undefined).
Proof.
  split_and!; [by vm_compute|by vm_compute|].
  simpl. intros [H _]. by specialize (H eq_refl).
Qed.

(** C9, amended.  On a started, live cache, for an entry that is known and
    hydrated and a monitored key that is not the empty string, the handler of
    a changed value stores the new value under the key when it is defined and
    deletes the key otherwise, and fires one event that carries the entry id
    and the key; the event carries the new value exactly when that value is
    truthy, so it has no value when the key was deleted and also when the
    value that was stored is the empty string. *)
Theorem entry_changed_updates_and_notifies (s : t) (entryId : Z) (key : string)
    (newValue : JS.value) (m : gmap string JS.value) :
  is_Some (start s) → _isDisposed s = false →
  hydrated s entryId m → key ∈ _monitoredKeys s → key ≠ "" →
  let s' := entry_changed entryId key newValue s in
  data_of s' entryId = Some (changed m key newValue) ∧
  (newValue ≠ Undefined → changed m key newValue !! key = Some newValue) ∧
  (newValue = Undefined → changed m key newValue !! key = None) ∧
  fired s' = fired s ++ [change_of entryId key newValue] ∧
  SessionDataCache.entryId (change_of entryId key newValue) = entryId ∧
  SessionDataCache.key (change_of entryId key newValue) = Some key ∧
  (value (change_of entryId key newValue) = Some newValue ↔
   truthy newValue = true) ∧
  (value (change_of entryId key newValue) = None ↔ truthy newValue = false) ∧
  pc_of s' (length (handlers s)) = Some (HDone Returned).
Proof.
  intros [ok Hstart] Hlive (data & Hst & Hobj & Hhyd) Hmon Hkey s'.
  assert (String.eqb key "" = false) as Hkey' by (by apply String.eqb_neq).
  assert (s' =
    with_handlers (handlers s ++ [Handler (OnEntryChanged entryId key newValue) (HDone Returned)])
      (with_fired (fired s ++ [change_of entryId key newValue])
         (with_objects (<[data := changed m key newValue]> (objects s)) s))) as Hs'.
  { subst s'. unfold entry_changed, run. cbn [foldl]. unfold step.
    rewrite entry_changed_called by done.
    set (k := OnEntryChanged entryId key newValue).
    rewrite (resume_await_start
               (with_handlers (handlers s ++ [Handler k HAwaitStart]) s)
               (handlers s) k ok eq_refl Hstart).
    change (_isDisposed (with_handlers _ s)) with (_isDisposed s).
    change (with_handlers ?a (with_handlers _ s)) with (with_handlers a s).
    rewrite Hlive.
    rewrite (resume_await_suppress
               (with_handlers (handlers s ++ [Handler k (HAwaitSuppress false)]) s)
               (handlers s) entryId key newValue data eq_refl Hst).
    change (_asyncStorage (with_handlers _ s)) with (_asyncStorage s).
    change (with_handlers ?a (with_handlers _ s)) with (with_handlers a s).
    rewrite (resume_await_hydration
               (with_handlers
                  (handlers s ++
                   [Handler k (HAwaitHydration data (bool_decide (data ∈ _asyncStorage s)))])
                  s)
               (handlers s) entryId key newValue data m eq_refl Hobj Hhyd Hlive Hkey).
    reflexivity. }
  split_and!.
  - rewrite Hs'. unfold data_of. cbn [_storage objects with_handlers with_fired with_objects].
    rewrite Hst. cbn. apply list_lookup_insert_eq. by eapply lookup_lt_Some.
  - intros Hdef. unfold changed. destruct newValue; [done|apply lookup_insert_eq..].
  - intros ->. apply lookup_delete_eq.
  - by rewrite Hs'.
  - done.
  - unfold change_of. cbn [SessionDataCache.key]. by rewrite Hkey'.
  - unfold change_of. cbn [value]. destruct (truthy newValue); split; done.
  - unfold change_of. cbn [value]. destruct (truthy newValue); split; done.
  - rewrite Hs'. unfold pc_of. cbn [handlers with_handlers].
    by rewrite lookup_last_handler.
Qed.

(** The theorem at the cache of tabs 1 and 2, for the value "red". *)
Lemma entry_changed_updates_and_notifies_witness :
  let s := entry_changed 1 "marked" (Str "red") two_tabs in
  data_of s 1 = Some {["marked" := Str "red"]} ∧
  fired s = [{| entryId := 1; key := Some "marked"; value := Some (Str "red") |}].
Proof.
  assert (hydrated two_tabs 1 ∅) as Hhyd.
  { exists 0%nat. split_and!; [by vm_compute..|]. intros _. by vm_compute. }
  assert ("marked" ∈ _monitoredKeys two_tabs) as Hmon by (by left).
  destruct (entry_changed_updates_and_notifies two_tabs 1 "marked" (Str "red") ∅
              ltac:(by eexists) eq_refl Hhyd Hmon ltac:(done))
    as (Hdata & _ & _ & Hfired & _).
  split; [exact Hdata|exact Hfired].
Defined.

End EntryChanged.

(** ** The marks of the tabs: the session cache and its timer *)
Section KeepTime.
Import MarkerTabData.
Implicit Types (st : t) (c : SessionDataCache.t).

(** [getCache] leaves the session cache, the timer and the released caches as
    they are when the session storage is off, and leaves a temporary cache. *)
Lemma getCache_off st :
  useSessionStorage st = false →
  let st' := (getCache st).2 in
  useSessionStorage st' = false ∧
  timeToKeepCacheInMilliseconds st' = timeToKeepCacheInMilliseconds st ∧
  sessionDataCache st' = sessionDataCache st ∧
  sessionTimeout st' = sessionTimeout st ∧
  released st' = released st ∧ log st' = log st ∧
  is_Some (temporaryCache st').
Proof.
  intros Huse. unfold getCache. rewrite Huse.
  destruct (temporaryCache st) as [tc|] eqn:Htc; cbn.
  - by rewrite Htc.
  - split_and!; try done; by eexists.
Qed.

Lemma removeSessionCache_off st c :
  useSessionStorage st = false → sessionDataCache st = Some c →
  let st' := removeSessionCache st in
  useSessionStorage st' = false ∧
  sessionDataCache st' = None ∧
  sessionTimeout st' = sessionTimeout st ∧
  released st' = released st ++ [SessionDataCache.dispose c] ∧
  is_Some (temporaryCache st').
Proof.
  intros Huse Hc. unfold removeSessionCache. rewrite Hc, Huse.
  destruct (getCache_off st Huse) as (H1 & H2 & H3 & H4 & H5 & H6 & H7).
  cbn. by rewrite H5.
Qed.

(** C7, as stated, fails: with a negative keep time, turning the session
    storage off drops the session cache at once. *)
Lemma negative_keep_time_frees_session_cache :
  timeToKeepCacheInMilliseconds keeps_forever < 0 ∧
  useSessionStorage keeps_forever = true ∧
  is_Some (sessionDataCache keeps_forever) ∧
  sessionDataCache (setUseSessionStorage false keeps_forever) = None.
Proof.
  split_and!; [done|done|by eexists|done].
Qed.

(** C7, amended.  When the session storage is turned off while there is a
    session cache: with a negative keep time the cache is disposed and
    dropped at once, without any new timer, and a temporary cache is in
    place; with a keep time that is not negative the cache is kept and a
    timer for that time is started that will free it. *)
Theorem keep_time_decides_release (st : t) (c : SessionDataCache.t) :
  useSessionStorage st = true → sessionDataCache st = Some c →
  let st' := setUseSessionStorage false st in
  (timeToKeepCacheInMilliseconds st < 0 →
     sessionDataCache st' = None ∧
     released st' = released st ++ [SessionDataCache.dispose c] ∧
     sessionTimeout st' = Timeout_dispose <$> sessionTimeout st ∧
     is_Some (temporaryCache st')) ∧
  (0 ≤ timeToKeepCacheInMilliseconds st →
     sessionDataCache st' = Some c ∧
     released st' = released st ∧
     sessionTimeout st' =
       Some (Timeout_new RemoveSessionCache (timeToKeepCacheInMilliseconds st))).
Proof.
  intros Huse Hc st'. subst st'. unfold setUseSessionStorage.
  rewrite Huse. rewrite bool_decide_eq_false_2 by done.
  cbn [useSessionStorage sessionDataCache timeToKeepCacheInMilliseconds
       with_use with_timeout].
  rewrite Hc. split.
  - intros Hneg. rewrite (proj2 (Z.ltb_lt _ _) Hneg).
    set (st1 := with_timeout _ _).
    destruct (removeSessionCache_off st1 c eq_refl Hc) as (_ & H2 & H3 & H4 & H5).
    done.
  - intros Hpos. rewrite (proj2 (Z.ltb_ge _ _) Hpos). cbn. by rewrite Hc.
Qed.

(** The theorem at the module whose keep time was set to [-5]. *)
Lemma keep_time_decides_release_witness :
  sessionDataCache (setUseSessionStorage false keeps_forever) = None ∧
  is_Some (temporaryCache (setUseSessionStorage false keeps_forever)).
Proof.
  destruct (keep_time_decides_release keeps_forever
              (TabSessionDataCache_new None [kTAB_DATA_KEY_MARKED] true)
              eq_refl eq_refl) as [Hneg _].
  destruct (Hneg ltac:(done)) as (H1 & _ & _ & H4).
  split; [exact H1|exact H4].
Defined.

End KeepTime.

(** ** The marks of the tabs: marking with an unknown color *)
Section UnknownColor.
Import MarkerTabData.

Lemma magenta_unknown : "magenta" ∉ Assoc.keys kCOLORS.
Proof. apply (bool_decide_eq_false_1 _). reflexivity. Qed.

(** C8, as stated, fails: for the unknown color "magenta" nothing reaches the
    caller as an error; the error is logged and the promise resolves with
    [false]. *)
Lemma createTabMark_magenta_resolves_false :
  ("magenta" ∉ Assoc.keys kCOLORS) ∧
  createTabMark (MarkEnv (MarkIs None) true true) 7 "magenta" false true =
    ([LogError], Resolved false) ∧
  (createTabMark (MarkEnv (MarkIs None) true true) 7 "magenta" false true).2 ≠ Rejected.
Proof.
  split_and!; [exact magenta_unknown|reflexivity|discriminate].
Qed.

(** C8, amended.  For a color that is not a key of [kCOLORS] the error that
    [createTabMark] throws is caught by the function itself: it is logged,
    no session value is written, no event is fired, and the promise that
    the caller gets resolves with [false]. *)
Theorem createTabMark_unknown_color (E : mark_env) (tabId : Z) (color : string)
    (forceSetSessionData notifyChange : bool) :
  color ∉ Assoc.keys kCOLORS →
  createTabMark E tabId color forceSetSessionData notifyChange =
  ([LogError], Resolved false).
Proof.
  intros Hcolor. unfold createTabMark, createTabMark_try.
  by rewrite bool_decide_eq_false_2.
Qed.

(** The theorem at the color "magenta". *)
Lemma createTabMark_unknown_color_witness :
  createTabMark (MarkEnv (MarkIs (Some "red")) false false) 3 "magenta" true true =
  ([LogError], Resolved false).
Proof.
  apply createTabMark_unknown_color.
  apply (bool_decide_eq_false_1 _). reflexivity.
Defined.

End UnknownColor.

(** ** The marks of the tabs: the ids of the marked tabs *)
Section MarkedIds.
Import JS MarkerTabData.
Implicit Types (c : SessionDataCache.t) (m : gmap string value).

(** The entries of the storage of a cache are its entries with their
    values. *)
Lemma elem_of_entries c tabId m :
  (tabId, m) ∈ entries c ↔ SessionDataCache.data_of c tabId = Some m.
Proof.
  unfold entries, SessionDataCache.data_of. rewrite list_elem_of_omap. split.
  - intros ([tabId' d] & Hin & Heq). rewrite merge_sort_Permutation in Hin.
    apply elem_of_map_to_list in Hin. cbn in Heq.
    destruct (SessionDataCache.objects c !! d) as [m'|] eqn:Hd; [|done].
    cbn in Heq. injection Heq as -> ->. rewrite Hin. cbn. exact Hd.
  - intros H. destruct (SessionDataCache._storage c !! tabId) as [d|] eqn:Hd; [|done].
    cbn in H. exists (tabId, d). split.
    + rewrite merge_sort_Permutation. by apply elem_of_map_to_list.
    + cbn. by rewrite H.
Qed.

Lemma NoDup_entries c : NoDup (entries c).*1.
Proof.
  unfold entries.
  assert (NoDup (merge_sort key_le (map_to_list (SessionDataCache._storage c))).*1) as H.
  { rewrite merge_sort_Permutation. apply NoDup_fst_map_to_list. }
  revert H. generalize (merge_sort key_le (map_to_list (SessionDataCache._storage c))).
  intros l. induction l as [|[tabId d] l IH]; [done|].
  rewrite fmap_cons, NoDup_cons. intros [Hnin Hnd]. cbn.
  destruct (SessionDataCache.objects c !! d) as [m|]; cbn; [|by apply IH].
  rewrite NoDup_cons. split; [|by apply IH].
  intros Hin. apply Hnin. apply list_elem_of_fmap in Hin as ([tabId' m'] & -> & Hin).
  apply list_elem_of_omap in Hin as ([tabId'' d'] & Hin & Heq). cbn in Heq.
  destruct (SessionDataCache.objects c !! d'); [|done]. cbn in Heq.
  injection Heq as -> ->. apply list_elem_of_fmap. by exists (tabId', d').
Qed.

Lemma NoDup_marked (f : Z * gmap string value → bool) (l : list (Z * gmap string value)) :
  NoDup l.*1 → NoDup (map (λ p, pretty p.1) (List.filter f l)).
Proof.
  induction l as [|p l IH]; [constructor|].
  rewrite fmap_cons, NoDup_cons. intros [Hnin Hnd]. cbn.
  destruct (f p); [|by apply IH]. cbn. apply NoDup_cons. split; [|by apply IH].
  intros Hin. apply Hnin. apply list_elem_of_In, in_map_iff in Hin as (q & Heq & Hin).
  apply filter_In in Hin as [Hin _]. apply (inj pretty) in Heq.
  apply list_elem_of_fmap. exists q. split; [done|]. by apply list_elem_of_In.
Qed.

(** C10.  When [getCache()] returns and the start of the cache is fulfilled,
    [getMarkedTabIds] resolves with an array that holds, once each and as
    strings, exactly the ids of the entries of the cache whose value under
    "marked" is truthy.  When [getCache()] throws or the start is rejected,
    it resolves with [null], which is not an empty array. *)
Theorem getMarkedTabIds_marked_or_null (E : ids_env) (st : t) :
  (getCache_returns E = true → start_settles E = Some true →
   ∃ ids, (getMarkedTabIds E st).1 = Resolved (Some ids) ∧ NoDup ids ∧
     ∀ id : string, id ∈ ids ↔
       ∃ (tabId : Z) m, SessionDataCache.data_of (at_resume E) tabId = Some m ∧
         truthy (default Undefined (m !! kTAB_DATA_KEY_MARKED)) = true ∧
         id = pretty tabId) ∧
  (getCache_returns E = false ∨ start_settles E = Some false →
   (getMarkedTabIds E st).1 = Resolved None ∧
   (getMarkedTabIds E st).1 ≠ Resolved (Some [])).
Proof.
  split.
  - intros Hret Hstart. unfold getMarkedTabIds. rewrite Hret, Hstart. cbn [fst].
    eexists. split; [reflexivity|]. split.
    + apply NoDup_marked, NoDup_entries.
    + intros id. rewrite list_elem_of_In, in_map_iff. split.
      * intros ([tabId m] & <- & Hin). apply filter_In in Hin as [Hin Hm].
        exists tabId, m. split_and!; [|exact Hm|done].
        by apply elem_of_entries, list_elem_of_In.
      * intros (tabId & m & Hdata & Hm & ->). exists (tabId, m). split; [done|].
        apply filter_In. split; [|exact Hm].
        by apply list_elem_of_In, elem_of_entries.
  - intros H. unfold getMarkedTabIds.
    destruct (getCache_returns E); [|done].
    destruct H as [H|H]; [done|]. by rewrite H.
Qed.

Example getMarkedTabIds_three_tabs :
  (getMarkedTabIds (IdsEnv true (Some true) three_tabs) init).1 =
  Resolved (Some ["3"; "12"]).
Proof. by vm_compute. Qed.

(** The theorem at the cache of the tabs 3, 7 and 12. *)
Lemma getMarkedTabIds_marked_or_null_witness :
  ∃ ids, (getMarkedTabIds (IdsEnv true (Some true) three_tabs) init).1 =
           Resolved (Some ids) ∧ NoDup ids ∧
     ∀ id : string, id ∈ ids ↔
       ∃ (tabId : Z) m, SessionDataCache.data_of three_tabs tabId = Some m ∧
         truthy (default Undefined (m !! kTAB_DATA_KEY_MARKED)) = true ∧
         id = pretty tabId.
Proof.
  exact (proj1 (getMarkedTabIds_marked_or_null (IdsEnv true (Some true) three_tabs) init)
           eq_refl eq_refl).
Defined.

End MarkedIds.

(** ** TSTCustomStateCache: the queries *)
Section Queries.
Import CustomStateCache TSTCacheOps.
Implicit Types (s : t) (e : event).

Lemma belief_absent s tabId state :
  state ∉ Assoc.keys (_statesCaches s) → belief s tabId state = None.
Proof. intros H%assoc_lookup_None. unfold belief. by rewrite H. Qed.

(** X1. A class name that the cache was not created for is never cached,
    whatever the calls and events: there is no entry for it, [get] is
    [false], [getTabStates] does not list it, and [set] queues nothing for
    it, so that its promise resolves with [false]. *)
Theorem only_allowed_states_are_cached (s : t) (tabId : Z) (state : string) :
  reachable s → allowed s state = false →
  (state ∉ Assoc.keys (_statesCaches s)) ∧
  (get tabId state s).1 = Returns false ∧
  (state ∉ getTabStates tabId s) ∧
  ∀ v, set tabId state v s = (Returns None, s).
Proof.
  intros Hr Ha. destruct (names_inv_reachable s Hr) as (Hnd & Hall & _).
  assert (state ∉ Assoc.keys (_statesCaches s)) as Hnin.
  { intros Hin. rewrite (Hall _ Hin) in Ha. done. }
  split_and!.
  - done.
  - rewrite get_fst, Ha. by rewrite orb_true_r.
  - unfold getTabStates. destruct (isDisposed s); [apply not_elem_of_nil|].
    intros ([st c] & Hin & Hf)%list_elem_of_omap. apply Hnin.
    destruct (default false (cache c !! tabId)); [|done].
    injection Hf as ->. by eapply elem_of_keys.
  - intros v. unfold set.
    destruct (queueOp_cases tabId state (OpSet v) s)
      as [[_ H]|[(_ & H & _)|(_ & H & _)]]; [done|congruence..].
Qed.

(** The theorem at a cache for "red" and "blue", for the class "green". *)
Lemma only_allowed_states_are_cached_witness :
  let s := run (new (Some ["red"; "blue"]))
             [ESet 1 "green" true; EStateChanged 1 "green" true false] in
  (get 1 "green" s).1 = Returns false ∧ set 1 "green" true s = (Returns None, s).
Proof.
  intros s.
  assert (reachable s) as Hr by (by eexists _, _).
  destruct (only_allowed_states_are_cached s 1 "green" Hr eq_refl)
    as (_ & H2 & _ & H4).
  split; [exact H2|exact (H4 true)].
Defined.

Lemma getTabStates_NoDup tabId (l : list (string * state_cache)) :
  NoDup (Assoc.keys l) →
  NoDup (omap (λ '(state, c),
                if default false (cache c !! tabId) then Some state else None) l).
Proof.
  induction l as [|[st c] l IH]; [constructor|].
  rewrite keys_cons, NoDup_cons. intros [Hnin Hnd]. cbn.
  destruct (default false (cache c !! tabId)); [|by apply IH].
  cbn. apply NoDup_cons. split; [|by apply IH].
  intros ([st' c'] & Hin & Hf)%list_elem_of_omap. apply Hnin.
  destruct (default false (cache c' !! tabId)); [|done].
  injection Hf as ->. by eapply elem_of_keys.
Qed.

Lemma getTabStates_get s tabId state :
  names_inv s →
  state ∈ getTabStates tabId s ↔ (get tabId state s).1 = Returns true.
Proof.
  intros (Hnd & Hall & _). rewrite get_fst. unfold getTabStates.
  destruct (isDisposed s) eqn:Hd; cbn [orb].
  { split; [by intros ?%elem_of_nil|done]. }
  rewrite list_elem_of_omap. unfold belief, foreign. split.
  - intros ([st c] & Hin & Hf).
    destruct (default false (cache c !! tabId)) eqn:Hb; [|done].
    injection Hf as ->. rewrite (Hall state) by (by eapply elem_of_keys).
    apply assoc_lookup_elem_of in Hin; [|done]. rewrite Hin. cbn. by rewrite Hb.
  - destruct (allowed s state); [|done]. cbn [negb].
    destruct (Assoc.lookup state (_statesCaches s)) as [c|] eqn:Hl.
    + cbn. intros [= Hb]. exists (state, c). split.
      * by apply assoc_lookup_elem_of.
      * by rewrite Hb.
    + by destruct (inherited state).
Qed.

(** X2. In every state that a cache can reach, [getTabStates(tabId)] lists, once
    each, exactly the class names for which [get(tabId, state)] is [true]. *)
Theorem getTabStates_lists_what_get_shows (s : t) (tabId : Z) (state : string) :
  reachable s →
  NoDup (getTabStates tabId s) ∧
  (state ∈ getTabStates tabId s ↔ (get tabId state s).1 = Returns true).
Proof.
  intros Hr. pose proof (names_inv_reachable s Hr) as Hinv. split.
  - unfold getTabStates. destruct (isDisposed s); [constructor|].
    apply getTabStates_NoDup, Hinv.
  - by apply getTabStates_get.
Qed.

(** The theorem at a cache that was told directly that tab 1 is red and
    blue and that tab 2 is not red. *)
Lemma getTabStates_lists_what_get_shows_witness :
  let s := run (new None)
             [EStateChanged 1 "red" true false; EStateChanged 1 "blue" true false;
              EStateChanged 2 "red" false false] in
  ("red" ∈ getTabStates 1 s ↔ (get 1 "red" s).1 = Returns true) ∧
  ("red" ∈ getTabStates 2 s ↔ (get 2 "red" s).1 = Returns true).
Proof.
  intros s.
  assert (reachable s) as Hr by (by eexists _, _).
  split.
  - exact (proj2 (getTabStates_lists_what_get_shows s 1 "red" Hr)).
  - exact (proj2 (getTabStates_lists_what_get_shows s 2 "red" Hr)).
Defined.

(** X3. [getAffectedTabIds(state)] lists, once each, exactly the tabs for which
    [get(tabId, state)] is [true]; it throws when [get] throws, for the name
    of a member of [Object.prototype]. *)
Theorem getAffectedTabIds_lists_what_get_shows (s : t) (tabId : Z) (state : string) :
  match (getAffectedTabIds state s).1 with
  | Returns tabIds =>
      NoDup tabIds ∧ (tabId ∈ tabIds ↔ (get tabId state s).1 = Returns true)
  | Throws => (get tabId state s).1 = Throws
  end.
Proof.
  unfold getAffectedTabIds, get.
  destruct (_getCache state s) as [[|c|] s']; cbn [fst].
  - split; [constructor|]. split; [by intros ?%elem_of_nil|done].
  - split; [apply NoDup_fst_map_to_list|].
    rewrite list_elem_of_fmap. split.
    + intros ([t' v] & -> & Hin). apply elem_of_map_to_list in Hin.
      apply map_lookup_filter_Some in Hin as [Hl Hv]. cbn in *. by rewrite Hl, Hv.
    + intros [= Hb]. destruct (cache c !! tabId) as [v|] eqn:Hl; [|done].
      cbn in Hb. subst v. exists (tabId, true). split; [done|].
      apply elem_of_map_to_list, map_lookup_filter_Some. done.
  - done.
Qed.

End Queries.

(** ** TSTCustomStateCache: a disposed cache *)
Section Disposed.
Import CustomStateCache.
Implicit Types (s : t) (e : event).

Lemma getCache_disposed state s :
  isDisposed s = true → _getCache state s = (NoCache, s).
Proof. intros H. unfold _getCache. by rewrite H. Qed.

Lemma queueOp_disposed tabId state (k : op_kind) s :
  isDisposed s = true → _queueOp tabId state k s = (Returns None, s).
Proof. intros H. unfold _queueOp. by rewrite getCache_disposed. Qed.

Lemma update_state_cache_empty state f s :
  _statesCaches s = [] → update_state_cache state f s = s.
Proof. intros H. unfold update_state_cache. by rewrite H. Qed.

Lemma update_op_statesCaches i f s :
  _statesCaches (update_op i f s) = _statesCaches s.
Proof. apply update_op_frame. Qed.

(** Nothing that happens to a disposed cache calls Tree Style Tab or invokes
    a callback, and the cache stays disposed and empty. *)
Lemma step_disposed_inert s e :
  isDisposed s = true → _statesCaches s = [] →
  isDisposed (step s e) = true ∧ _statesCaches (step s e) = [] ∧
  mirrorLog (step s e) = mirrorLog s ∧ startLog (step s e) = startLog s.
Proof.
  intros Hd He.
  assert (∀ i f, isDisposed (update_op i f s) = true ∧
                 _statesCaches (update_op i f s) = [] ∧
                 mirrorLog (update_op i f s) = mirrorLog s ∧
                 startLog (update_op i f s) = startLog s) as Hup.
  { intros i f. destruct (update_op_frame i f s) as (_ & -> & -> & -> & ->). done. }
  destruct e as [tabId state v|tabId|tabId cls v apply| |i|i r]; cbn [step].
  - unfold set. by rewrite queueOp_disposed.
  - unfold _onTabRemoved. by rewrite He.
  - unfold _onStateChanged, set. rewrite queueOp_disposed, getCache_disposed by done.
    by destruct apply.
  - unfold dispose. by rewrite Hd.
  - unfold resume. destruct (opsList s !! i) as [o|] eqn:Hi; [|done].
    destruct (op_pc o) as [| |r| |out]; try done.
    + destruct (lastResult s (op_lastOp o)) as [r|]; [|done].
      rewrite Hd. destruct (truthy r); apply Hup.
    + destruct r; apply Hup.
    + rewrite update_state_cache_empty by done. apply Hup.
  - unfold mirror_replies. destruct (opsList s !! i) as [o|] eqn:Hi; [|done].
    destruct (op_pc o) as [| |r'| |out]; try done.
    destruct (op_kind_of o) as [v|]; [|done].
    destruct r as [[|]|]; rewrite ?getCache_disposed by done; apply Hup.
Qed.

Lemma run_disposed_inert s tr :
  isDisposed s = true → _statesCaches s = [] →
  isDisposed (run s tr) = true ∧ _statesCaches (run s tr) = [] ∧
  mirrorLog (run s tr) = mirrorLog s ∧ startLog (run s tr) = startLog s.
Proof.
  revert s. induction tr as [|e tr IH]; intros s Hd He; [done|].
  destruct (step_disposed_inert s e Hd He) as (H1 & H2 & H3 & H4).
  destruct (IH (step s e) H1 H2) as (H5 & H6 & H7 & H8).
  cbn. unfold run in *. by rewrite H5, H6, H7, H8, H3, H4.
Qed.

Lemma reachable_disposed_empty s :
  reachable s → isDisposed s = true → _statesCaches s = [].
Proof.
  intros (classNames & tr & ->). induction tr as [|e tr IH] using rev_ind; [done|].
  unfold run in *. rewrite foldl_snoc. intros Hd.
  destruct (isDisposed (foldl step (new classNames) tr)) eqn:Hd0.
  - by apply step_disposed_inert; [|apply IH].
  - destruct (decide (e = EDispose)) as [->|Hne].
    + cbn [step]. unfold dispose. by rewrite Hd0.
    + destruct (step_config (foldl step (new classNames) tr) e) as [_ H].
      rewrite (H Hne), Hd0 in Hd. done.
Qed.

(** X4. A disposed cache.  Whatever happens next (calls, events, resumptions of
    queued operations, replies of Tree Style Tab), the cache stays disposed,
    sends no further message to Tree Style Tab and invokes no queued
    callback; [get] is [false] and [getTabStates] is empty for every tab and
    class, and [set] queues nothing, so that its promise resolves with
    [false]. *)
Theorem disposed_cache_is_inert (s : t) (tr : list event) :
  reachable s → isDisposed s = true →
  let s' := run s tr in
  isDisposed s' = true ∧
  mirrorLog s' = mirrorLog s ∧ startLog s' = startLog s ∧
  ∀ tabId state v,
    (get tabId state s').1 = Returns false ∧ getTabStates tabId s' = [] ∧
    set tabId state v s' = (Returns None, s').
Proof.
  intros Hr Hd s'. subst s'.
  destruct (run_disposed_inert s tr Hd (reachable_disposed_empty s Hr Hd))
    as (H1 & H2 & H3 & H4).
  split_and!; try done. intros tabId state v. split_and!.
  - by rewrite get_fst, H1.
  - unfold getTabStates. by rewrite H1.
  - unfold set. by apply queueOp_disposed.
Qed.

(** The theorem at a cache that was disposed of while a call of [set] was
    waiting for Tree Style Tab. *)
Lemma disposed_cache_is_inert_witness :
  let s := run (new None) [ESet 1 "red" true; EResume 0; EDispose] in
  let s' := run s [EMirrorReply 0 (Acked true); EResume 0; EResume 0;
                   ESet 1 "blue" true] in
  mirrorLog s' = [(0%nat, MirrorCall [1] ["red"] true)] ∧
  (get 1 "red" s').1 = Returns false.
Proof.
  set (s := run (new None) [ESet 1 "red" true; EResume 0; EDispose]).
  assert (reachable s) as Hr by (by eexists _, _).
  destruct (disposed_cache_is_inert s
              [EMirrorReply 0 (Acked true); EResume 0; EResume 0; ESet 1 "blue" true]
              Hr eq_refl) as (_ & H2 & _ & H4).
  split; [exact H2|exact (proj1 (H4 1 "red" true))].
Defined.

End Disposed.

(** ** TSTCustomStateCache: what the promises of the queue settle with *)
Section Outcomes.
Import CustomStateCache TSTCacheOps.
Implicit Types (s : t) (e : event) (o : op).

Section Forall_ops.
Context (P : op → Prop).
Hypothesis Hnext : ∀ o o', P o → op_next o o' → P o'.
Hypothesis Hnew : ∀ tabId state (k : op_kind) lastOp,
  P (Op tabId state k lastOp None (defaultValue k) false PAwaitLast).

Lemma ops_forall_queueOp tabId state (k : op_kind) s :
  Forall P (opsList s) → Forall P (opsList (_queueOp tabId state k s).2).
Proof.
  intros H.
  destruct (queueOp_cases tabId state k s)
    as [[_ ->]|[(_ & _ & _ & ->)|(_ & _ & _ & s' & -> & _ & _ & _ & _ & Hol & _)]];
    [done..|].
  cbn. rewrite Hol. apply Forall_app. split; [done|].
  apply Forall_singleton, Hnew.
Qed.

Lemma ops_forall_step s e :
  Forall P (opsList s) → Forall P (opsList (step s e)).
Proof.
  intros H. destruct e as [tabId state v|tabId|tabId cn v apply| |j|j r]; cbn [step].
  - by apply ops_forall_queueOp.
  - unfold _onTabRemoved. generalize (Assoc.keys (_statesCaches s)).
    intros states. revert s H.
    induction states as [|state states IH]; intros s H; [done|].
    cbn. apply IH. by apply ops_forall_queueOp.
  - destruct apply; [by apply ops_forall_queueOp|].
    by destruct (onStateChanged_direct_cases tabId cn v s)
      as (_ & _ & _ & _ & -> & _).
  - unfold dispose. by destruct (isDisposed s).
  - destruct (resume_ops j s) as [->|(oj & oj' & Hj & Hn & ->)]; [done|].
    apply Forall_insert; [done|]. eapply Hnext; [|done].
    by eapply Forall_lookup_1.
  - destruct (mirror_replies_ops j r s) as [->|(oj & Hj & Hpc & ->)]; [done|].
    apply Forall_insert; [done|].
    eapply (Hnext oj); [by eapply Forall_lookup_1|].
    right. rewrite Hpc. eauto.
Qed.

(** A property of the queued operations that holds when an operation is
    queued, and that every move of an operation keeps, holds in every state
    that a cache can reach. *)
Lemma ops_forall_reachable s : reachable s → Forall P (opsList s).
Proof.
  intros (cn & tr & ->). unfold run.
  generalize (new cn), (Forall_nil_2 P : Forall P (opsList (new cn))).
  induction tr as [|e tr IH]; intros s H; [done|].
  cbn. apply IH. by apply ops_forall_step.
Qed.

End Forall_ops.

(** X5. The promise of [set] rejects exactly when the cache is live and allows
    the class name and that name is the name of a member of
    [Object.prototype]: [_queueOp] then throws before it queues anything.
    The operations that are queued are for other names, and the promise of
    a queued operation never rejects, whatever Tree Style Tab answers and in
    whatever order the operations are resumed; for [set] it resolves with a
    boolean. *)
Theorem set_rejects_only_for_inherited_names (s : t) (i : nat) (o : op) :
  reachable s →
  (∀ tabId state v,
     (set tabId state v s).1 = Throws ↔
     isDisposed s = false ∧ allowed s state = true ∧ inherited state = true) ∧
  (opsList s !! i = Some o →
   inherited (op_state o) = false ∧
   op_pc o ≠ PFinished Rejected ∧
   (∀ v out, op_kind_of o = OpSet v → op_pc o = PFinished out →
             ∃ b : bool, out = Resolved (Some b))).
Proof.
  intros Hr. split.
  - intros tabId state v. unfold set.
    pose proof (names_inv_foreign s state (names_inv_reachable s Hr)) as Hf.
    destruct (queueOp_cases tabId state (OpSet v) s)
      as [[Hno ->]|[(Hd & Ha & Hfo & ->)|(Hd & Ha & Hfo & s' & -> & _)]]; cbn.
    + split; [done|]. intros (Hd & Ha & _). destruct Hno; congruence.
    + split; [|done]. intros _. split_and!; congruence.
    + split; [done|]. intros (_ & _ & Hin). congruence.
  - intros Hi.
    assert (no_throw o ∧ (∀ v, op_kind_of o = OpSet v → is_Some (op_value o)))
      as [(Hin & He & Hc & Hf) Hv].
    { split; [by eapply no_throw_reachable|].
      assert (Forall (λ o', ∀ v, op_kind_of o' = OpSet v → is_Some (op_value o'))
                (opsList s)) as Hall; [|apply (Forall_lookup_1 _ _ _ _ Hall Hi)].
      apply ops_forall_reachable; [| |done].
      - intros o1 o2 Hv1 Hn. destruct (op_next_same o1 o2 Hn) as (_ & _ & Hk & _).
        rewrite Hk. intros v Hkind. specialize (Hv1 v Hkind).
        destruct Hn as [->|Hn]; [done|].
        destruct (op_pc o1) as [| |[b|]| |out] eqn:Hpc; try done.
        + by destruct Hn as [[r ->]|[->|[->|[_ [->| ->]]]]].
        + by destruct Hn as [b ->].
        + subst o2. by eexists.
        + by subst o2.
        + by subst o2.
      - intros tabId state k lastOp v Hk. cbn in Hk. subst k. by eexists. }
    split; [done|]. split.
    + intros Hpc. by specialize (Hf _ Hpc).
    + intros v out Hk Hpc. rewrite (Hf _ Hpc).
      destruct (Hv v Hk) as [b ->]. by exists b.
Qed.

(** The theorem at a call of [set] whose message Tree Style Tab answers with
    an error, and at a call of [set] for the class "constructor". *)
Lemma set_rejects_only_for_inherited_names_witness :
  let s := run (new None) [ESet 1 "red" true; EResume 0; EMirrorReply 0 Threw;
                           EResume 0; EResume 0] in
  (set 1 "constructor" true s).1 = Throws ∧
  ∃ o, opsList s !! 0%nat = Some o ∧
       op_pc o ≠ PFinished Rejected ∧
       ∀ out, op_pc o = PFinished out → ∃ b : bool, out = Resolved (Some b).
Proof.
  intros s.
  assert (reachable s) as Hr by (by eexists _, _).
  destruct (opsList s !! 0%nat) as [o|] eqn:Ho; [|by vm_compute in Ho].
  destruct (set_rejects_only_for_inherited_names s 0 o Hr) as [Hthrows Hq].
  destruct (Hq Ho) as (_ & Hnr & Hb).
  split; [by apply Hthrows|].
  exists o. split; [reflexivity|]. split; [exact Hnr|].
  intros out. apply (Hb true).
  vm_compute in Ho. by injection Ho as <-.
Defined.

End Outcomes.

(** ** TSTCustomStateCache: a call of [set] from its start to its end *)
Section RoundTrip.
Import CustomStateCache TSTCacheOps.
Implicit Types (s : t) (e : event) (o : op).

Lemma resume_runs_callback i o s :
  opsList s !! i = Some o → op_pc o = PAwaitLast → op_lastOp o = None →
  isDisposed s = false → resume i s = run_callback i o s.
Proof.
  intros Hi Hpc Hl Hd. unfold resume. rewrite Hi, Hpc, Hl. cbn. by rewrite Hd.
Qed.

Lemma resume_callback_returned i o b s :
  opsList s !! i = Some o → op_pc o = PAwaitCallback (CbReturn b) →
  resume i s =
  update_op i (λ o', resolve_promise
                      (if setOpReturnValue (op_kind_of o) then Some b else None)
                      (set_value (Some b) false o')) s.
Proof. intros Hi Hpc. unfold resume. by rewrite Hi, Hpc. Qed.

Lemma resume_promise_settled i o s :
  opsList s !! i = Some o → op_pc o = PAwaitPromise →
  resume i s =
  update_op i (set_pc (PFinished (if op_outerError o then Rejected
                                  else Resolved (op_value o))))
    (update_state_cache (op_state o)
       (λ c, if decide (ops c !! op_tabId o = Some i)
             then ops_delete (op_tabId o) c else c) s).
Proof. intros Hi Hpc. unfold resume. by rewrite Hi, Hpc. Qed.

Lemma mirror_acknowledges i o v s :
  opsList s !! i = Some o → op_pc o = PInCallback → op_kind_of o = OpSet v →
  isDisposed s = false → allowed s (op_state o) = true →
  foreign s (op_state o) = false →
  let s' := mirror_replies i (Acked true) s in
  opsList s' = <[i := set_pc (PAwaitCallback (CbReturn true)) o]> (opsList s) ∧
  _classNames s' = _classNames s ∧ isDisposed s' = false ∧
  mirrorLog s' = mirrorLog s ∧
  (∀ t st, tail s' t st = tail s t st) ∧
  belief s' (op_tabId o) (op_state o) = Some v.
Proof.
  intros Hi Hpc Hk Hd Ha Hf s'. subst s'.
  destruct (mirror_replies_set i (Acked true) s o v Hi Hpc Hk)
    as (H1 & H2 & H3 & _ & H5 & H6 & H7).
  unfold set_returns in H5. rewrite Hd, Ha, Hf in H5.
  split_and!; try done; [congruence|].
  rewrite H7. by rewrite decide_True.
Qed.

(** X6. A call of [set] that changes the belief, on a live cache, for an allowed
    class and a tab with no operation pending for that class; [get] returns
    the other value before the call, so that the class is not the name of a
    member of [Object.prototype], for which [get] throws.  When Tree
    Style Tab acknowledges the message, the call sends exactly that one
    message, [get] then shows the new value, the promise of the call
    resolves with [true], and the entry of the queue is removed again. *)
Theorem set_then_get (s : t) (tabId : Z) (state : string) (v : bool) :
  isDisposed s = false → allowed s state = true →
  tail s tabId state = None → (get tabId state s).1 = Returns (negb v) →
  let i := length (opsList s) in
  let s' := run s [ESet tabId state v; EResume i; EMirrorReply i (Acked true);
                   EResume i; EResume i] in
  (get tabId state s').1 = Returns v ∧
  mirrorLog s' = mirrorLog s ++ [(i, MirrorCall [tabId] [state] v)] ∧
  (∃ o, opsList s' !! i = Some o ∧ op_pc o = PFinished (Resolved (Some true))) ∧
  tail s' tabId state = None.
Proof.
  intros Hd Ha Ht Hg i s'. subst s'.
  assert (foreign s state = false) as Hfs.
  { rewrite get_fst, Hd, Ha in Hg. cbn in Hg. by destruct (foreign s state). }
  unfold run. cbn [foldl step].
  (* the call *)
  unfold set in *.
  pose proof (foreign_queueOp tabId state (OpSet v) s) as Hfq.
  destruct (queueOp_cases tabId state (OpSet v) s)
    as [[[?|?] _]|[(_ & _ & ? & _)|
        (_ & _ & _ & s1 & Hq1 & Hc1 & Hd1 & Hm1 & Hs1 & Hol1 & Ht1 & Hb1)]];
    [congruence..|].
  rewrite Hq1 in Hfq |- *.
  cbn [snd] in Hfq |- *. rewrite Ht in Hol1. fold i in Hol1, Ht1.
  set (o1 := Op tabId state (OpSet v) None None (defaultValue (OpSet v)) false PAwaitLast) in *.
  assert (opsList s1 !! i = Some o1) as Hi1.
  { rewrite Hol1. by apply list_lookup_middle. }
  pose proof Hd1 as Hd1e. rewrite Hd in Hd1.
  (* the callback is invoked *)
  rewrite (resume_runs_callback i o1 s1) by done.
  destruct (run_callback_cases i o1 s1 Hi1 Hd1)
    as (Hc2 & Hd2 & _ & Ht2 & _ &
        [[? _]|[(v' & Hk & Hg' & _)|[(v' & Hk & _ & Hol2 & Hm2 & Hb2)|(Hfo & _)]]]);
    [done| | |].
  { exfalso. injection Hk as <-. cbn [op_tabId op_state o1] in Hg'.
    rewrite (get_ext s s1 Hc1 Hd1e Hfq Hb1) in Hg'. rewrite Hg in Hg'.
    injection Hg' as Hg'. by destruct v. }
  2:{ cbn [op_state o1] in Hfo. rewrite Hfq in Hfo. congruence. }
  injection Hk as <-. cbn [op_tabId op_state o1] in Hm2.
  set (s2 := run_callback i o1 s1) in *.
  set (o2 := set_pc PInCallback o1) in *.
  assert (opsList s2 !! i = Some o2) as Hi2.
  { rewrite Hol2. apply list_lookup_insert_eq. by eapply lookup_lt_Some. }
  assert (allowed s2 state = true) as Ha2.
  { unfold allowed in *. by rewrite Hc2, Hc1. }
  (* Tree Style Tab acknowledges *)
  assert (foreign s2 state = false) as Hf2.
  { unfold s2. by rewrite foreign_run_callback, Hfq. }
  destruct (mirror_acknowledges i o2 v s2 Hi2 eq_refl eq_refl Hd2 Ha2 Hf2)
    as (Hol3 & Hc3 & Hd3 & Hm3 & Ht3 & Hb3).
  cbn [op_tabId op_state o2 set_pc o1] in Hb3.
  set (s3 := mirror_replies i (Acked true) s2) in *.
  set (o3 := set_pc (PAwaitCallback (CbReturn true)) o2) in *.
  assert (opsList s3 !! i = Some o3) as Hi3.
  { rewrite Hol3. apply list_lookup_insert_eq. by eapply lookup_lt_Some. }
  (* the callback has returned *)
  rewrite (resume_callback_returned i o3 true s3) by done.
  cbn [setOpReturnValue op_kind_of o3 o2 o1 set_pc].
  set (f := λ o', resolve_promise None (set_value (Some true) false o')).
  destruct (update_op_frame i f s3) as (Hc4 & Hd4 & Hsc4 & Hm4 & _).
  pose proof (opsList_update_op i f s3 o3 Hi3) as Hol4.
  set (s4 := update_op i f s3) in *.
  assert (opsList s4 !! i = Some (f o3)) as Hi4.
  { rewrite Hol4. apply list_lookup_insert_eq. by eapply lookup_lt_Some. }
  (* the promise of the queue has settled *)
  rewrite (resume_promise_settled i (f o3) s4) by done.
  destruct (finish_cases i (f o3) (Resolved (Some true)) s4 Hi4)
    as (Hc5 & Hd5 & Hm5 & _ & Hol5 & Ht5 & Hb5).
  cbn [op_outerError op_value op_state op_tabId f o3 o2 o1 set_pc set_value
       resolve_promise] in *.
  set (s5 := update_op i (set_pc (PFinished (Resolved (Some true)))) _) in *.
  assert (belief s5 tabId state = Some v) as Hbelief.
  { rewrite Hb5. unfold belief. rewrite Hsc4. exact Hb3. }
  split_and!.
  - rewrite get_fst, Hd5, Hd4, Hd3.
    replace (foreign s5 state) with false.
    2:{ unfold s5, s4. rewrite !foreign_update_op, foreign_update_state_cache,
          foreign_update_op.
        symmetry. rewrite <- Hf2.
        apply (foreign_step s2 (EMirrorReply i (Acked true))). done. }
    unfold allowed in *.
    rewrite Hc5, Hc4, Hc3, Hc2, Hc1, Ha. cbn. by rewrite Hbelief.
  - by rewrite Hm5, Hm4, Hm3, Hm2, Hm1.
  - exists (set_pc (PFinished (Resolved (Some true))) (f o3)).
    split; [|reflexivity]. rewrite Hol5.
    apply list_lookup_insert_eq. by eapply lookup_lt_Some.
  - rewrite Ht5. rewrite decide_True; [done|]. split; [done|].
    unfold tail. rewrite Hsc4. fold (tail s3 tabId state).
    rewrite Ht3, Ht2, Ht1. by rewrite decide_True.
Qed.

(** The theorem at a new cache: tab 1 becomes red. *)
Lemma set_then_get_witness :
  let s' := run (new None) [ESet 1 "red" true; EResume 0;
                            EMirrorReply 0 (Acked true); EResume 0; EResume 0] in
  (get 1 "red" s').1 = Returns true ∧
  mirrorLog s' = [(0%nat, MirrorCall [1] ["red"] true)].
Proof.
  destruct (set_then_get (new None) 1 "red" true eq_refl eq_refl eq_refl eq_refl)
    as (H1 & H2 & _).
  split; [exact H1|exact H2].
Defined.

End RoundTrip.

(** ** TSTCustomStateCache: a removed tab *)
Section TabRemoved.
Import CustomStateCache TSTCacheOps.
Implicit Types (s : t) (e : event) (o : op).

Lemma queue_removals tabId (states : list string) s :
  isDisposed s = false → NoDup states →
  (∀ st, st ∈ states →
     allowed s st = true ∧ foreign s st = false ∧ tail s tabId st = None) →
  let s1 := foldl (λ s' state, (_queueOp tabId state OpTabRemoved s').2) s states in
  opsList s1 = opsList s ++ (removal tabId <$> states) ∧
  _classNames s1 = _classNames s ∧ isDisposed s1 = false ∧
  mirrorLog s1 = mirrorLog s ∧
  (∀ t st, belief s1 t st = belief s t st).
Proof.
  revert s. induction states as [|state states IH]; intros s Hd Hnd Hall.
  { cbn. by rewrite app_nil_r. }
  apply NoDup_cons in Hnd as [Hnin Hnd]. cbn [foldl].
  destruct (Hall state) as (Ha & Hf & Ht); [by left|].
  pose proof (foreign_queueOp tabId state OpTabRemoved s) as Hfq.
  destruct (queueOp_cases tabId state OpTabRemoved s)
    as [[[?|?] _]|[(_ & _ & ? & _)|
        (_ & _ & _ & s1 & Hq1 & Hc1 & Hd1 & Hm1 & _ & Hol1 & Ht1 & Hb1)]];
    [congruence..|].
  rewrite Hq1 in Hfq |- *.
  cbn [snd] in Hfq |- *. rewrite Ht in Hol1. rewrite Hd in Hd1.
  destruct (IH s1 Hd1 Hnd) as (Hol & Hc & Hd' & Hm & Hb).
  { intros st Hin. destruct (Hall st) as (Ha' & Hf' & Ht'); [by right|]. split_and!.
    - unfold allowed in *. by rewrite Hc1.
    - by rewrite Hfq.
    - rewrite Ht1, decide_False; [done|]. intros [= ->]. done. }
  cbn zeta. split_and!.
  - rewrite Hol, Hol1, <- app_assoc. done.
  - congruence.
  - done.
  - congruence.
  - intros t st. by rewrite Hb.
Qed.

Lemma run_removals tabId (states : list string) s (pre : list op) :
  opsList s = pre ++ (removal tabId <$> states) →
  isDisposed s = false → NoDup states →
  (∀ st, st ∈ states → allowed s st = true ∧ foreign s st = false) →
  let s2 := run s (EResume <$> seq (length pre) (length states)) in
  _classNames s2 = _classNames s ∧ isDisposed s2 = false ∧
  mirrorLog s2 = mirrorLog s ∧
  (∀ st, st ∈ states → belief s2 tabId st = None) ∧
  (∀ t st, ¬ (t = tabId ∧ st ∈ states) → belief s2 t st = belief s t st).
Proof.
  revert s pre. induction states as [|state states IH]; intros s pre Hol Hd Hnd Hall.
  { cbn. split_and!; try done. by intros st ?%elem_of_nil. }
  apply NoDup_cons in Hnd as [Hnin Hnd].
  cbn [length seq fmap list_fmap]. unfold run. cbn [foldl step].
  assert (opsList s !! length pre = Some (removal tabId state)) as Hi.
  { rewrite Hol. by apply list_lookup_middle. }
  rewrite (resume_runs_callback _ (removal tabId state)) by done.
  destruct (run_callback_cases _ _ s Hi Hd)
    as (Hc1 & Hd1 & _ & _ & Hb1 &
        [(_ & Hol1 & Hm1 & Hnone)|[(v & ? & _)|[(v & ? & _)|(Hfo & _)]]]);
    [|done..|].
  2:{ cbn [op_state removal] in Hfo.
      destruct (Hall state) as [_ Hf]; [by left|]. congruence. }
  cbn [op_tabId op_state removal scope] in *.
  set (s1 := run_callback _ _ s) in *.
  destruct (IH s1 (pre ++ [set_pc (PAwaitCallback (CbReturn true)) (removal tabId state)]))
    as (Hc2 & Hd2 & Hm2 & Hb2 & Hb2').
  { rewrite Hol1, Hol. rewrite insert_app_r_alt by lia.
    rewrite Nat.sub_diag. cbn. by rewrite <- app_assoc. }
  { done. }
  { done. }
  { intros st Hin. destruct (Hall st) as [Ha' Hf']; [by right|].
    split; [unfold allowed in *; by rewrite Hc1|].
    unfold s1. by rewrite foreign_run_callback. }
  rewrite length_app in *. cbn [length] in *.
  replace (length pre + 1)%nat with (S (length pre)) in * by lia.
  unfold run in *. split_and!.
  - congruence.
  - done.
  - congruence.
  - intros st [->|Hin]%elem_of_cons.
    + rewrite Hb2' by (intros [_ ?]; done). apply Hnone, Hall. by left.
    + by apply Hb2.
  - intros t st Hn. rewrite Hb2', Hb1; [done| |].
    + intros [= -> ->]. apply Hn. split; [done|by left].
    + intros [-> Hin]. apply Hn. split; [done|by right].
Qed.

(** X7. A removed tab.  On a live cache with no operation pending for the tab,
    once the operations that [_onTabRemoved] queued (one for each cached
    class) have been resumed, the cache holds no class for the tab:
    [getTabStates] is empty and [get] is [false] for every class (for an
    allowed name of a member of [Object.prototype], [get] throws as it always
    does).  No message was sent to Tree Style Tab, and what the cache
    believes of the other tabs is unchanged. *)
Theorem tab_removed_forgets_tab (s : t) (tabId : Z) :
  reachable s → isDisposed s = false →
  (∀ state, tail s tabId state = None) →
  let s' := run s (ETabRemoved tabId ::
                   (EResume <$> seq (length (opsList s)) (length (_statesCaches s)))) in
  getTabStates tabId s' = [] ∧
  (∀ state, (get tabId state s').1 =
              if allowed s state && inherited state then Throws else Returns false) ∧
  mirrorLog s' = mirrorLog s ∧
  (∀ t state, t ≠ tabId → (get t state s').1 = (get t state s).1).
Proof.
  intros Hr Hd Ht s'.
  assert (reachable s') as Hr' by (by apply reachable_run).
  pose proof (names_inv_reachable s Hr) as Hinv.
  destruct Hinv as (Hnd & Hall & Hni).
  assert (∀ st, st ∈ Assoc.keys (_statesCaches s) → foreign s st = false) as Hown.
  { intros st Hin. rewrite (names_inv_foreign s st); [by apply Hni|done]. }
  pose proof (foreign_onTabRemoved tabId s) as Hf1.
  subst s'. unfold run in *. cbn [foldl step] in *. unfold _onTabRemoved in *.
  destruct (queue_removals tabId (Assoc.keys (_statesCaches s)) s Hd Hnd)
    as (Hol1 & Hc1 & Hd1 & Hm1 & Hb1).
  { intros st Hin. split_and!; [by apply Hall|by apply Hown|apply Ht]. }
  set (s1 := foldl _ s (Assoc.keys (_statesCaches s))) in *.
  destruct (run_removals tabId (Assoc.keys (_statesCaches s)) s1 (opsList s)
              Hol1 Hd1 Hnd) as (Hc2 & Hd2 & Hm2 & Hb2 & Hb2').
  { intros st Hin. split; [|rewrite Hf1; by apply Hown].
    unfold allowed in *. rewrite Hc1. by apply Hall. }
  unfold Assoc.keys in Hb2, Hb2', Hc2, Hd2, Hm2. rewrite length_map in *.
  unfold run in *.
  set (s2 := foldl step s1 _) in *.
  assert (∀ state, allowed s2 state = allowed s state) as Ha2.
  { intros state. unfold allowed. by rewrite Hc2, Hc1. }
  assert (∀ state, foreign s2 state = foreign s state) as Hf2.
  { intros state. rewrite !names_inv_foreign; [done|done|].
    by apply names_inv_reachable. }
  assert (∀ state, (get tabId state s2).1 =
            if allowed s state && inherited state then Throws else Returns false)
    as Hget.
  { intros state. rewrite get_fst, Hd2, Ha2, Hf2. cbn [orb].
    rewrite (names_inv_foreign s state) by done.
    destruct (allowed s state); [|done]. cbn [negb andb].
    destruct (inherited state); [done|].
    destruct (decide (state ∈ map fst (_statesCaches s))) as [Hin|Hnin].
    - by rewrite Hb2.
    - rewrite Hb2' by (by intros [_ ?]). rewrite Hb1. by rewrite belief_absent. }
  split_and!.
  - destruct (getTabStates tabId s2) as [|st l] eqn:Hl; [done|].
    assert (st ∈ getTabStates tabId s2) as Hin by (rewrite Hl; by left).
    apply getTabStates_get in Hin; [|by apply names_inv_reachable].
    rewrite Hget in Hin. by destruct (allowed s st && inherited st).
  - done.
  - congruence.
  - intros t state Hne. rewrite !get_fst, Hd2, Hd, Ha2, Hf2.
    rewrite Hb2' by (by intros [? _]). by rewrite Hb1.
Qed.

(** The theorem at a cache that believes tab 1 to be red and blue and tab 2
    to be red. *)
Lemma tab_removed_forgets_tab_witness :
  let s := run (new None)
             [EStateChanged 1 "red" true false; EStateChanged 1 "blue" true false;
              EStateChanged 2 "red" true false] in
  let s' := run s [ETabRemoved 1; EResume 0; EResume 1] in
  getTabStates 1 s' = [] ∧ (get 2 "red" s').1 = Returns true.
Proof.
  intros s.
  assert (reachable s) as Hr by (by eexists _, _).
  assert (∀ state, tail s 1 state = None) as Ht.
  { intros state. unfold tail.
    set (l := _statesCaches s). vm_compute in (value of l). subst l. cbn.
    destruct (String.eqb state "red"); [done|].
    by destruct (String.eqb state "blue"). }
  destruct (tab_removed_forgets_tab s 1 Hr eq_refl Ht) as (H1 & _ & _ & H4).
  split; [exact H1|]. exact (eq_trans (H4 2 "red" ltac:(done)) eq_refl).
Defined.

End TabRemoved.

(** ** TSTCustomStateCache: [clear] *)
Section Clear.
Import CustomStateCache TSTCacheOps.
Implicit Types (s : t) (o : op).

(** The beliefs of a class, as a map. *)
Lemma cache_entries_elem c tabId v :
  (tabId, v) ∈ cache_entries c ↔ cache c !! tabId = Some v.
Proof.
  unfold cache_entries. rewrite merge_sort_Permutation. apply elem_of_map_to_list.
Qed.

Lemma cache_entries_NoDup c : NoDup (cache_entries c).*1.
Proof.
  unfold cache_entries. rewrite merge_sort_Permutation. apply NoDup_fst_map_to_list.
Qed.

(** The calls of [set] for the tabs of one class. *)
Lemma clear_tabs state (l : list (Z * bool)) (acc : list clear_op * t) :
  isDisposed acc.2 = false → allowed acc.2 state = true →
  inherited state = false →
  let r := foldl (clear_tab state) acc l in
  ∃ new, opsList r.2 = opsList acc.2 ++ new ∧
    scope <$> new = (λ p, (p.1, state)) <$> List.filter snd l ∧
    Forall (λ o, op_kind_of o = OpSet false) new ∧
    _classNames r.2 = _classNames acc.2 ∧ isDisposed r.2 = false ∧
    mirrorLog r.2 = mirrorLog acc.2 ∧
    (∀ t st, belief r.2 t st = belief acc.2 t st).
Proof.
  revert acc. induction l as [|[tabId v] l IH]; intros acc Hd Ha Hin.
  { exists []. cbn. by rewrite app_nil_r. }
  cbn [foldl]. destruct v.
  - assert (clear_tab state acc (tabId, true) =
            (acc.1 ++ [ClearSet (_queueOp tabId state (OpSet false) acc.2).1],
             (_queueOp tabId state (OpSet false) acc.2).2)) as -> by reflexivity.
    pose proof (not_inherited_not_foreign acc.2 state Hin) as Hf.
    destruct (queueOp_cases tabId state (OpSet false) acc.2)
      as [[[?|?] _]|[(_ & _ & ? & _)|
          (_ & _ & _ & s1 & -> & Hc1 & Hd1 & Hm1 & _ & Hol1 & _ & Hb1)]];
      [congruence..|].
    cbn [snd fst]. rewrite Hd in Hd1.
    destruct (IH (acc.1 ++ [ClearSet (Returns (Some (length (opsList acc.2))))], s1))
      as (new & Hol & Hsc & Hk & Hc & Hd' & Hm & Hb); [done| |done|].
    { cbn. unfold allowed in *. by rewrite Hc1. }
    cbn [snd] in *. eexists (_ :: new). split_and!.
    + rewrite Hol, Hol1, <- app_assoc. done.
    + cbn. by rewrite Hsc.
    + by constructor.
    + by rewrite Hc.
    + done.
    + by rewrite Hm.
    + intros t st. by rewrite Hb.
  - assert (clear_tab state acc (tabId, false) = (acc.1 ++ [ClearTrue], acc.2))
      as -> by reflexivity.
    destruct (IH (acc.1 ++ [ClearTrue], acc.2)) as (new & H); [done..|].
    by exists new.
Qed.

Lemma clear_state_entries state (acc : list clear_op * t) :
  clear_state state acc = foldl (clear_tab state) acc (entries_at acc.2 state).
Proof.
  unfold clear_state, entries_at. by destruct (Assoc.lookup state (_statesCaches acc.2)).
Qed.

Lemma entries_at_ext s s' state :
  (∀ t, belief s' t state = belief s t state) →
  entries_at s' state = entries_at s state.
Proof.
  intros Hb. unfold entries_at, belief in *.
  destruct (Assoc.lookup state (_statesCaches s')) as [c'|],
    (Assoc.lookup state (_statesCaches s)) as [c|]; cbn in *.
  - unfold cache_entries. f_equal. f_equal. by apply map_eq.
  - assert (cache c' = ∅) as Hc by (apply map_eq; intros i; by rewrite Hb, lookup_empty).
    unfold cache_entries. by rewrite Hc, map_to_list_empty.
  - assert (cache c = ∅) as Hc by (apply map_eq; intros i; by rewrite <- Hb, lookup_empty).
    unfold cache_entries. by rewrite Hc, map_to_list_empty.
  - done.
Qed.

Lemma entries_at_elem s state tabId v :
  (tabId, v) ∈ entries_at s state ↔ belief s tabId state = Some v.
Proof.
  unfold entries_at, belief.
  destruct (Assoc.lookup state (_statesCaches s)) as [c|]; cbn.
  - apply cache_entries_elem.
  - split; [by intros ?%elem_of_nil|done].
Qed.

Lemma entries_at_NoDup s state : NoDup (entries_at s state).*1.
Proof.
  unfold entries_at. destruct (Assoc.lookup state (_statesCaches s)) as [c|].
  - apply cache_entries_NoDup.
  - constructor.
Qed.

(** The calls of [set] for the classes. *)
Lemma clear_states (states : option (list string)) (l : list string) s0
    (acc : list clear_op * t) :
  isDisposed acc.2 = false → _classNames acc.2 = _classNames s0 →
  (∀ t st, belief acc.2 t st = belief s0 t st) →
  (∀ state, state ∈ l → allowed s0 state = true ∧ inherited state = false) →
  let r := foldl (λ acc state, if cleared states state then clear_state state acc else acc)
                 acc l in
  ∃ new, opsList r.2 = opsList acc.2 ++ new ∧
    scope <$> new =
      (l ≫= λ state,
         if cleared states state
         then (λ p : Z * bool, (p.1, state)) <$> List.filter snd (entries_at s0 state)
         else []) ∧
    Forall (λ o, op_kind_of o = OpSet false) new ∧
    mirrorLog r.2 = mirrorLog acc.2 ∧
    (∀ t st, belief r.2 t st = belief s0 t st).
Proof.
  revert acc. induction l as [|state l IH]; intros acc Hd Hc Hb Hall.
  { exists []. cbn. by rewrite app_nil_r. }
  cbn [foldl]. rewrite bind_cons.
  assert (∀ st, st ∈ l → allowed s0 st = true ∧ inherited st = false) as Hall'.
  { intros st Hin. apply Hall. by right. }
  destruct (cleared states state) eqn:Hcl.
  - rewrite clear_state_entries.
    rewrite (entries_at_ext s0 acc.2) by (intros t; apply Hb).
    destruct (clear_tabs state (entries_at s0 state) acc Hd)
      as (new1 & Hol1 & Hsc1 & Hk1 & Hc1 & Hd1 & Hm1 & Hb1).
    { unfold allowed in *. rewrite Hc. apply Hall. by left. }
    { apply Hall. by left. }
    cbn zeta in *.
    destruct (IH (foldl (clear_tab state) acc (entries_at s0 state)))
      as (new2 & Hol2 & Hsc2 & Hk2 & Hm2 & Hb2); [done|congruence| |done|].
    { intros t st. by rewrite Hb1. }
    exists (new1 ++ new2). split_and!.
    + by rewrite Hol2, Hol1, <- app_assoc.
    + by rewrite fmap_app, Hsc1, Hsc2.
    + by apply Forall_app.
    + congruence.
    + done.
  - destruct (IH acc) as (new & H); [done..|]. by exists new.
Qed.

(** X8. [clear].  On a live cache it calls [set(tabId, state, false)] once for
    each tab and class that the cache believes to be set (of the classes
    of [states], when it is given), and for nothing else; it sends nothing
    itself and changes no belief.  On a disposed cache it returns [false]
    and does nothing. *)
Theorem clear_unsets_what_is_believed (s : t) (states : option (list string)) :
  reachable s →
  (isDisposed s = true → clear states s = (None, s)) ∧
  (isDisposed s = false →
   ∃ new, opsList (clear states s).2 = opsList s ++ new ∧
     Forall (λ o, op_kind_of o = OpSet false) new ∧
     NoDup (scope <$> new) ∧
     (∀ tabId state, (tabId, state) ∈ scope <$> new ↔
        belief s tabId state = Some true ∧ cleared states state = true) ∧
     mirrorLog (clear states s).2 = mirrorLog s ∧
     (∀ tabId state, belief (clear states s).2 tabId state = belief s tabId state)).
Proof.
  intros Hr. destruct (names_inv_reachable s Hr) as (Hnd & Hall & Hni).
  unfold clear. split; [by intros ->|]. intros Hd. rewrite Hd. cbn [snd].
  destruct (clear_states states (Assoc.keys (_statesCaches s)) s ([], s))
    as (new & Hol & Hsc & Hk & Hm & Hb); [done|done|done|by split; auto|].
  cbn zeta in *. cbn [snd] in *. exists new.
  split_and!; [done|done| | |done|done].
  - rewrite Hsc. apply NoDup_bind; [| |done].
    + intros st1 st2 [tabId st] _ _.
      destruct (cleared states st1), (cleared states st2);
        try (by intros ?%elem_of_nil); try (by intros _ ?%elem_of_nil).
      by intros (? & [= _ ->] & _)%list_elem_of_fmap (? & [= _ ->] & _)%list_elem_of_fmap.
    + intros st _. destruct (cleared states st); [|constructor].
      apply NoDup_fmap_2_strong.
      * intros [t1 v1] [t2 v2] [_ H1]%list_elem_of_In%filter_In
          [_ H2]%list_elem_of_In%filter_In [= ->].
        cbn in *. by subst.
      * assert (∀ l : list (Z * bool), NoDup l.*1 → NoDup (List.filter snd l)) as Hf.
        { intros l. induction l as [|[t0 v0] l IH]; [constructor|].
          rewrite fmap_cons, NoDup_cons. intros [Hnin Hl]. cbn.
          destruct v0; [|by apply IH]. apply NoDup_cons. split; [|by apply IH].
          intros [Hin _]%list_elem_of_In%filter_In. apply Hnin.
          apply list_elem_of_fmap. exists (t0, true). split; [done|].
          by apply list_elem_of_In. }
        apply Hf, entries_at_NoDup.
  - intros tabId state. rewrite Hsc, list_elem_of_bind. split.
    + intros (st & Hin & Hst). destruct (cleared states st) eqn:Hcl;
        [|by apply elem_of_nil in Hin].
      apply list_elem_of_fmap in Hin as ([t0 v0] & [= -> ->] & Hin).
      apply list_elem_of_In, filter_In in Hin as [Hin Hv]. cbn in Hv. subst v0.
      split; [|done]. by apply entries_at_elem, list_elem_of_In.
    + intros [Hbel Hcl]. exists state. split.
      * rewrite Hcl. apply list_elem_of_fmap. exists (tabId, true). split; [done|].
        apply list_elem_of_In, filter_In. split; [|done].
        by apply list_elem_of_In, entries_at_elem.
      * destruct (decide (state ∈ Assoc.keys (_statesCaches s))) as [|Hnin]; [done|].
        by rewrite belief_absent in Hbel.
Qed.

(** The theorem at a cache that believes tab 1 to be red and blue and tab 2
    not to be red. *)
Lemma clear_unsets_what_is_believed_witness :
  let s := run (new None)
             [EStateChanged 1 "red" true false; EStateChanged 1 "blue" true false;
              EStateChanged 2 "red" false false] in
  ∃ new, opsList (clear (Some ["red"]) s).2 = new ∧
    ∀ tabId state, (tabId, state) ∈ scope <$> new ↔
      belief s tabId state = Some true ∧ cleared (Some ["red"]) state = true.
Proof.
  intros s.
  assert (reachable s) as Hr by (by eexists _, _).
  destruct (clear_unsets_what_is_believed s (Some ["red"]) Hr) as [_ H].
  destruct (H eq_refl) as (new & Hol & _ & _ & Hiff & _).
  exists new. split; [exact Hol|exact Hiff].
Defined.

End Clear.

(** ** TSTCustomStateCache: a state that is reported as applied *)
Section Reported.
Import CustomStateCache TSTCacheOps.
Implicit Types (s : t).

(** X9. The handler of a state change that is already applied in Tree Style Tab
    ([apply] is [false]); it queues nothing and sends nothing.  On a live
    cache and for an allowed class that has an entry or is not the name of a
    member of [Object.prototype], [get] shows the reported value at once,
    for that tab and class only.  For an allowed name of a member of
    [Object.prototype] that has no entry, the handler throws and the cache
    stays as it is.  On a disposed cache, or for a class that is not
    allowed, the handler returns and the cache stays as it is. *)
Theorem reported_state_is_believed (s : t) (tabId : Z) (className : string)
    (value : bool) :
  let r := _onStateChanged tabId className value false s in
  opsList r.2 = opsList s ∧ mirrorLog r.2 = mirrorLog s ∧
  (isDisposed s = false → allowed s className = true →
   foreign s className = false →
     r.1 = Returns () ∧
     (get tabId className r.2).1 = Returns value ∧
     ∀ t st, (t, st) ≠ (tabId, className) → (get t st r.2).1 = (get t st s).1) ∧
  (isDisposed s = false → allowed s className = true →
   foreign s className = true → r = (Throws, s)) ∧
  (isDisposed s = true ∨ allowed s className = false → r = (Returns (), s)).
Proof.
  destruct (onStateChanged_direct_cases tabId className value s)
    as (Hc & Hd & Hm & _ & Hol & _ & Hb).
  pose proof (foreign_step s (EStateChanged tabId className value false)) as Hf.
  cbn [step] in Hf.
  cbn zeta in *. split_and!; [done|done| | |].
  - intros Hlive Ha Hfo. split_and!.
    + by rewrite onStateChanged_fst, Hlive, Ha, Hfo.
    + rewrite get_fst, Hd, Hlive, Hf, Hfo by done.
      unfold allowed in *. rewrite Hc, Ha. cbn.
      rewrite Hb, decide_True by done. done.
    + intros t st Hne. rewrite !get_fst, Hd, Hf by done.
      unfold allowed. rewrite Hc.
      rewrite Hb, decide_False; [done|]. by intros [? _].
  - intros Hlive Ha Hfo. unfold _onStateChanged.
    destruct (getCache_cases className s)
      as [[[?|?] _]|[(_ & _ & _ & ->)|(_ & _ & ? & _)]]; [congruence..|done|congruence].
  - intros Hor. unfold _onStateChanged.
    destruct (getCache_cases className s)
      as [[_ ->]|[(? & ? & _)|(? & ? & _)]]; [done|destruct Hor; congruence..].
Qed.

(** The theorem at a new cache, for the class "red". *)
Lemma reported_state_is_believed_witness :
  let r := _onStateChanged 1 "red" true false (new None) in
  (get 1 "red" r.2).1 = Returns true ∧ opsList r.2 = [] ∧ mirrorLog r.2 = [].
Proof.
  destruct (reported_state_is_believed (new None) 1 "red" true) as (H1 & H2 & H3 & _).
  destruct (H3 eq_refl eq_refl eq_refl) as (_ & H4 & _).
  split; [exact H4|split; [exact H1|exact H2]].
Defined.

End Reported.

(** ** TSTCustomStateCache: [updateFromTST] *)
Section UpdateFromTST.
Import CustomStateCache TSTCacheOps.
Implicit Types (s : t) (tab : tst_tab).

Lemma unrestricted_update_state_cache state f s :
  unrestricted s → unrestricted (update_state_cache state f s).
Proof.
  intros (Hd & Hc & Hn).
  destruct (update_state_cache_frame state f s) as (Hc' & Hd' & _).
  split_and!; [congruence|congruence|by apply names_inv_update_state_cache].
Qed.

(** On such a cache [_getCache] finds a member of [Object.prototype] exactly
    for the names of those members. *)
Lemma getCache_unrestricted state s :
  unrestricted s →
  unrestricted (_getCache state s).2 ∧
  ((_getCache state s).1 = Inherited ↔ inherited state = true).
Proof.
  intros (Hd & Hc & Hn).
  pose proof (names_inv_getCache state s Hn) as Hn'.
  pose proof (names_inv_foreign s state Hn) as Hf.
  destruct (getCache_cases state s)
    as [[Hno Hg]|[(_ & _ & Hfo & Hg)|(_ & _ & Hfo & c & s' & Hg & _ & Hc' & Hd' & _)]];
    rewrite Hg in *; cbn [fst snd] in *.
  - split; [done|]. split; [done|]. intros Hin.
    destruct Hno as [?|Ha]; [congruence|].
    unfold allowed in Ha. rewrite Hc, andb_true_r in Ha.
    apply negb_false_iff, String.eqb_eq in Ha. by subst.
  - split; [done|]. split; [congruence|done].
  - split; [split_and!; congruence|]. split; [done|congruence].
Qed.

Lemma believe_unrestricted state tabId s :
  unrestricted s →
  unrestricted (believe state tabId s).1 ∧
  (believe state tabId s).2 = inherited state.
Proof.
  intros Hu. destruct (getCache_unrestricted state s Hu) as [Hu' Hi]. unfold believe.
  destruct (_getCache state s) as [[|c|] s']; cbn [fst snd] in *.
  - split; [done|]. destruct (inherited state); [|done].
    by destruct Hi as [_ Hi]; specialize (Hi eq_refl).
  - split; [by apply unrestricted_update_state_cache|].
    destruct (inherited state); [|done].
    by destruct Hi as [_ Hi]; specialize (Hi eq_refl).
  - split; [done|]. symmetry. by apply Hi.
Qed.

Lemma forget_unrestricted state tabId s :
  unrestricted s →
  unrestricted (forget state tabId s).1 ∧
  (forget state tabId s).2 = inherited state.
Proof.
  intros Hu. destruct (getCache_unrestricted state s Hu) as [Hu' Hi]. unfold forget.
  destruct (_getCache state s) as [[|c|] s']; cbn [fst snd] in *.
  - split; [done|]. destruct (inherited state); [|done].
    by destruct Hi as [_ Hi]; specialize (Hi eq_refl).
  - split; [by apply unrestricted_update_state_cache|].
    destruct (inherited state); [|done].
    by destruct Hi as [_ Hi]; specialize (Hi eq_refl).
  - split; [done|]. symmetry. by apply Hi.
Qed.

(** A loop whose body throws for the elements that [g] tells. *)
Lemma for_of_unrestricted {A} (body : t → A → t * bool) (g : A → bool)
    (l : list A) s :
  (∀ s x, x ∈ l → unrestricted s →
          unrestricted (body s x).1 ∧ (body s x).2 = g x) →
  unrestricted s →
  unrestricted (for_of body s l).1 ∧ (for_of body s l).2 = existsb g l.
Proof.
  intros Hbody Hu. unfold for_of.
  set (f := λ (acc : t * bool) x, if acc.2 then acc else body acc.1 x).
  assert (∀ acc, unrestricted acc.1 →
            unrestricted (foldl f acc l).1 ∧
            (foldl f acc l).2 = acc.2 || existsb g l) as H; [|by apply (H (s, false))].
  clear s Hu. induction l as [|x l IH]; intros acc Hu.
  { cbn. by rewrite orb_false_r. }
  cbn [foldl existsb].
  destruct (IH (λ s y Hy, Hbody s y (list_elem_of_further _ _ _ Hy)) (f acc x))
    as [IH1 IH2].
  { unfold f. destruct acc.2; [done|]. apply Hbody; [by left|done]. }
  split; [done|]. rewrite IH2. unfold f. destruct acc.2 eqn:Hacc.
  - by rewrite Hacc.
  - destruct (Hbody acc.1 x) as [_ ->]; [by left|done|]. done.
Qed.

Lemma remove_first_subseteq state (l : list string) : remove_first state l ⊆ l.
Proof.
  induction l as [|x l IH]; [done|]. cbn.
  destruct (String.eqb state x).
  - intros y Hy. by right.
  - intros y [->|Hy]%elem_of_cons; [by left|]. right. by apply IH.
Qed.

(** Lines 313-322: the states of one tab. *)
Lemma add_states_unrestricted (init : option (list string)) tab s :
  unrestricted s →
  let r := add_states init tab s in
  unrestricted r.2.1 ∧ r.2.2 = has_inherited_class tab ∧
  (r.1 = None ↔ init = None) ∧
  (∀ l0 l, init = Some l0 → r.1 = Some l → l ⊆ l0).
Proof.
  intros Hu. unfold add_states, has_inherited_class.
  set (f := λ (acc : option (list string) * (t * bool)) state, _).
  assert (∀ l acc, unrestricted acc.2.1 →
            unrestricted (foldl f acc l).2.1 ∧
            (foldl f acc l).2.2 = acc.2.2 || existsb inherited l ∧
            ((foldl f acc l).1 = None ↔ acc.1 = None) ∧
            (∀ l0 l', acc.1 = Some l0 → (foldl f acc l).1 = Some l' → l' ⊆ l0))
    as H; [|by apply (H (tab_states tab) (init, (s, false)))].
  clear s Hu. intros l. induction l as [|x l IH]; intros acc Hu.
  { cbn. rewrite orb_false_r. split_and!; try done.
    intros l0 l' -> [= ->]. done. }
  cbn [foldl existsb].
  assert (unrestricted (f acc x).2.1 ∧
          (f acc x).2.2 = acc.2.2 || inherited x ∧
          ((f acc x).1 = None ↔ acc.1 = None) ∧
          (∀ l0 l', acc.1 = Some l0 → (f acc x).1 = Some l' → l' ⊆ l0))
    as (F1 & F2 & F3 & F4).
  { unfold f. destruct acc.2.2 eqn:Hacc.
    - split_and!; try done. intros l0 l' -> [= ->]. done.
    - cbn [fst snd].
      destruct (believe_unrestricted x (tab_id tab) acc.2.1 Hu) as [B1 B2].
      split_and!; [done|done|by destruct acc.1|].
      intros l0 l' ->. cbn. intros [= <-]. apply remove_first_subseteq. }
  destruct (IH (f acc x) F1) as (I1 & I2 & I3 & I4).
  split_and!.
  - done.
  - rewrite I2, F2. by rewrite orb_assoc.
  - by rewrite I3.
  - intros l0 l' Hacc Hl'.
    destruct (f acc x).1 as [l1|] eqn:Hf1.
    + transitivity l1; [by eapply I4|by eapply F4].
    + rewrite (proj2 I3 eq_refl) in Hl'. done.
Qed.

(** Lines 310-340 for one tab. *)
Lemma update_tab_any_unrestricted originalStates remove add s tab :
  unrestricted s →
  (∀ l st, originalStates = Some l → st ∈ l → inherited st = false) →
  let r := update_tab_any originalStates remove add s tab in
  unrestricted r.1 ∧
  r.2 = if add
        then has_inherited_class tab || negb remove ||
             bool_decide (originalStates = None)
        else bool_decide (originalStates = None).
Proof.
  intros Hu Hos. unfold update_tab_any. destruct add.
  - destruct (add_states_unrestricted (if remove then originalStates else None) tab s Hu)
      as (A1 & A2 & A3 & A4).
    cbn zeta in *.
    set (r := add_states _ tab s) in *.
    destruct r.2.2 eqn:Hthrew.
    { split; [done|]. by rewrite Hthrew, <- A2. }
    rewrite <- A2. cbn [orb].
    destruct r.1 as [l|] eqn:Hr1.
    + destruct remove; [|by destruct A3 as [_ A3]; specialize (A3 eq_refl)].
      destruct originalStates as [l0|];
        [|by destruct A3 as [_ A3]; specialize (A3 eq_refl)].
      cbn [negb orb]. rewrite bool_decide_eq_false_2 by done.
      destruct (for_of_unrestricted (λ s state, forget state (tab_id tab) s)
                  inherited l r.2.1) as [F1 F2]; [|done|].
      { intros s' x _ Hu'. by apply forget_unrestricted. }
      split; [done|]. rewrite F2.
      apply not_true_is_false. intros (x & Hx & Hin)%existsb_exists.
      apply list_elem_of_In in Hx.
      rewrite (Hos l0 x eq_refl) in Hin; [done|]. by apply (A4 l0 l).
    + split; [done|]. destruct A3 as [A3 _]. specialize (A3 eq_refl).
      destruct remove; [|done]. subst originalStates. done.
  - destruct originalStates as [l0|]; [|done].
    rewrite bool_decide_eq_false_2 by done.
    destruct (for_of_unrestricted
                (λ s state, if bool_decide (state ∈ tab_states tab) then (s, false)
                            else forget state (tab_id tab) s)
                (λ state, if bool_decide (state ∈ tab_states tab) then false
                          else inherited state) l0 s) as [F1 F2]; [|done|].
    { intros s' x _ Hu'. destruct (bool_decide (x ∈ tab_states tab)); [done|].
      by apply forget_unrestricted. }
    split; [done|]. rewrite F2.
    apply not_true_is_false. intros (x & Hx & Hin)%existsb_exists.
    apply list_elem_of_In in Hx.
    destruct (bool_decide (x ∈ tab_states tab)); [done|].
    by rewrite (Hos l0 x eq_refl) in Hin.
Qed.

Lemma update_any_throws (tstTabs : list tst_tab) remove add s :
  unrestricted s →
  (update_any tstTabs remove add s).2 =
  existsb (λ tab, if add
                  then has_inherited_class tab || negb remove ||
                       bool_decide (_statesCaches s = [])
                  else bool_decide (_statesCaches s = [])) tstTabs.
Proof.
  intros Hu. unfold update_any.
  set (os := match Assoc.keys (_statesCaches s) with [] => None | l => Some l end).
  assert (bool_decide (os = None) = bool_decide (_statesCaches s = [])) as Hos.
  { unfold os. by destruct (_statesCaches s). }
  rewrite <- Hos.
  apply for_of_unrestricted; [|done].
  intros s' tab _ Hu'. apply update_tab_any_unrestricted; [done|].
  intros l st Hl Hin. destruct Hu as (_ & _ & _ & _ & Hni). apply Hni.
  unfold os in Hl. destruct (Assoc.keys (_statesCaches s)); [done|].
  by injection Hl as <-.
Qed.

(** X10. [updateFromTST] without state names (the cache was created for all
    class names, and [states] is not given), on a live cache: its promise
    rejects exactly when Tree Style Tab describes at least one tab and
    [remove] is not set or the cache has no entry yet, because a
    [for ... of] loop then runs over [false] or [null] (lines 312 and 323,
    lines 305-307 and 330), or [add] is set and a tab has a class that is
    the name of a member of [Object.prototype], for which line 320 throws;
    otherwise it resolves. *)
Theorem updateFromTST_rejects_without_names (E : update_env) (s : t)
    (tabIds : option (list Z)) (remove add : bool) (tstTabs : list tst_tab) :
  isDisposed s = false → _classNames s = None → remove || add = true →
  (tabIds = None → isDisposed (u_after_query E) = false) →
  u_tst_tabs E (default (u_all_tabs E) tabIds) = Some tstTabs →
  unrestricted (u_after_tabs E) →
  (updateFromTST E s tabIds None remove add).2 = true ↔
  tstTabs ≠ [] ∧
  (remove = false ∨ _statesCaches (u_after_tabs E) = [] ∨
   (add = true ∧ ∃ tab state, tab ∈ tstTabs ∧ state ∈ tab_states tab ∧
                              inherited state = true)).
Proof.
  intros Hd Hcn Hflags Hq Htabs Hu. unfold updateFromTST.
  rewrite Hd. assert (negb remove && negb add = false) as ->
    by (by destruct remove, add).
  unfold ForceNotify._getAffectedStates. rewrite Hcn.
  rewrite bool_decide_eq_false_2 by done.
  assert ((match u_tst_tabs E (default (u_all_tabs E) tabIds) with
           | Some tstTabs =>
               if isDisposed (u_after_tabs E) then (u_after_tabs E, false)
               else update_any tstTabs remove add (u_after_tabs E)
           | None => (u_after_tabs E, true)
           end).2 = true ↔
          tstTabs ≠ [] ∧
          (remove = false ∨ _statesCaches (u_after_tabs E) = [] ∨
           (add = true ∧ ∃ tab state, tab ∈ tstTabs ∧ state ∈ tab_states tab ∧
                                      inherited state = true))) as H.
  { rewrite Htabs, (proj1 Hu), update_any_throws by done.
    rewrite existsb_exists. split.
    - intros (tab & Htab & Hcond). apply list_elem_of_In in Htab.
      split; [by intros ->; apply elem_of_nil in Htab|].
      destruct add.
      + apply orb_true_iff in Hcond as [Hcond|Hcond];
          [apply orb_true_iff in Hcond as [Hcond|Hcond]|].
        * right. right. split; [done|].
          apply existsb_exists in Hcond as (state & Hin & Hst).
          exists tab, state. split_and!; [done|by apply list_elem_of_In|done].
        * left. by destruct remove.
        * right. left. by apply bool_decide_eq_true in Hcond.
      + right. left. by apply bool_decide_eq_true in Hcond.
    - intros [Hne Hcase]. destruct tstTabs as [|tab0 tabs]; [done|].
      destruct Hcase as [->|[Hnil|(-> & tab & state & Htab & Hin & Hst)]].
      + exists tab0. split; [by left|]. destruct add; [|done].
        by rewrite orb_true_r.
      + exists tab0. split; [by left|]. rewrite (bool_decide_eq_true_2 _ Hnil).
        destruct add; [by rewrite orb_true_r|done].
      + exists tab. split; [by apply list_elem_of_In|].
        assert (has_inherited_class tab = true) as ->; [|done].
        apply existsb_exists. exists state. by rewrite <- list_elem_of_In. }
  destruct tabIds as [ids|]; cbn [default] in *; [done|].
  by rewrite Hq.
Qed.

(** The theorem at a new cache for all class names, which [updateFromTST]
    is to fill from one tab that is red in Tree Style Tab. *)
Lemma updateFromTST_rejects_without_names_witness :
  let E := UpdateEnv [1] (new None) (λ _, Some [TstTab 1 ["red"]]) (new None) in
  (updateFromTST E (new None) (Some [1]) None true true).2 = true.
Proof.
  intros E.
  assert (unrestricted (new None)) as Hu.
  { split_and!; [reflexivity|reflexivity|].
    apply names_inv_reachable. by exists None, []. }
  apply (updateFromTST_rejects_without_names E (new None) (Some [1]) true true
           [TstTab 1 ["red"]]); [reflexivity|reflexivity|reflexivity|done|reflexivity|exact Hu|].
  split; [done|]. right. by left.
Defined.

Lemma updated_idemp remove add h old :
  updated remove add h (updated remove add h old) = updated remove add h old.
Proof. unfold updated. by destruct h, add, remove. Qed.

(** The tabs of one state whose entry exists. *)
Lemma update_tabs state remove add (tabs : list tst_tab) s :
  is_Some (Assoc.lookup state (_statesCaches s)) → NoDup (tab_id <$> tabs) →
  let s' := foldl (update_tab state remove add) s tabs in
  _classNames s' = _classNames s ∧ isDisposed s' = isDisposed s ∧
  opsList s' = opsList s ∧ mirrorLog s' = mirrorLog s ∧
  (∀ tab, tab ∈ tabs →
     belief s' (tab_id tab) state =
     updated remove add (bool_decide (state ∈ tab_states tab))
       (belief s (tab_id tab) state)) ∧
  (∀ t st, (st ≠ state ∨ t ∉ tab_id <$> tabs) → belief s' t st = belief s t st).
Proof.
  revert s. induction tabs as [|tab tabs IH]; intros s He Hnd.
  { cbn. split_and!; try done. by intros tab ?%elem_of_nil. }
  rewrite fmap_cons in Hnd. apply NoDup_cons in Hnd as [Hnin Hnd].
  cbn [foldl]. set (s1 := update_tab state remove add s tab).
  assert (_classNames s1 = _classNames s ∧ isDisposed s1 = isDisposed s ∧
          opsList s1 = opsList s ∧ mirrorLog s1 = mirrorLog s ∧
          is_Some (Assoc.lookup state (_statesCaches s1)) ∧
          ∀ t st, belief s1 t st =
            if decide (st = state ∧ t = tab_id tab)
            then updated remove add (bool_decide (state ∈ tab_states tab)) (belief s t st)
            else belief s t st) as (Hc1 & Hd1 & Hol1 & Hm1 & He1 & Hb1).
  { destruct He as [c Hl]. unfold s1, update_tab, updated.
    destruct (bool_decide (state ∈ tab_states tab)), add, remove;
      try (split_and!; [done..|by eexists|intros t st; by case_decide]);
      (match goal with
       | |- context [update_state_cache state ?f s] =>
           destruct (update_state_cache_frame state f s) as (H1 & H2 & H3 & H4 & _);
           split_and!; [done..| |]
       end);
      try (rewrite lookup_update_state_cache, decide_True, Hl by done; by eexists);
      intros t st; rewrite belief_update_state_cache; unfold belief;
      (destruct (decide (state = st)) as [<-|Hne];
       [rewrite Hl; cbn;
        destruct (decide (t = tab_id tab)) as [->|Hne'];
        [rewrite decide_True by done;
         first [by rewrite lookup_insert_eq | by rewrite lookup_delete_eq]
        |rewrite decide_False by (by intros [_ ?]);
         first [by rewrite lookup_insert_ne | by rewrite lookup_delete_ne]]
       |rewrite decide_False by (intros [? _]; congruence); done]). }
  destruct (IH s1 He1 Hnd) as (Hc & Hd & Hol & Hm & Hb & Hb').
  cbn zeta. split_and!; try congruence.
  - intros tab' [->|Hin]%elem_of_cons.
    + rewrite Hb' by (by right). rewrite Hb1. by rewrite decide_True.
    + rewrite (Hb tab' Hin), Hb1. rewrite decide_False; [done|].
      intros [_ Heq]. apply Hnin. rewrite <- Heq.
      apply list_elem_of_fmap. by exists tab'.
  - intros t st Hor. rewrite Hb'.
    + rewrite Hb1, decide_False; [done|]. intros [-> ->].
      destruct Hor as [?|Hn]; [done|]. apply Hn. by left.
    + destruct Hor as [?|Hn]; [by left|]. right. intros ?. apply Hn. by right.
Qed.

(** One state that is not the name of a member of [Object.prototype]. *)
Lemma update_state state remove add (tabs : list tst_tab) s :
  NoDup (tab_id <$> tabs) → inherited state = false →
  let r := match _getCache state s with
           | (Entry _, s') => (foldl (update_tab state remove add) s' tabs, false)
           | (NoCache, s') => (s', false)
           | (Inherited, s') => (s', existsb (accessed state remove add) tabs)
           end in
  r.2 = false ∧
  _classNames r.1 = _classNames s ∧ isDisposed r.1 = isDisposed s ∧
  opsList r.1 = opsList s ∧ mirrorLog r.1 = mirrorLog s ∧
  (∀ tab, tab ∈ tabs → isDisposed s = false → allowed s state = true →
     belief r.1 (tab_id tab) state =
     updated remove add (bool_decide (state ∈ tab_states tab))
       (belief s (tab_id tab) state)) ∧
  (∀ t st, (st ≠ state ∨ t ∉ tab_id <$> tabs ∨ isDisposed s = true ∨
            allowed s state = false) →
     belief r.1 t st = belief s t st).
Proof.
  intros Hnd Hin.
  pose proof (not_inherited_not_foreign s state Hin) as Hf.
  destruct (getCache_cases state s)
    as [[Hor ->]|[(_ & _ & ? & _)|
        (Hd & Ha & _ & c & s1 & -> & Hl & Hc1 & Hd1 & Hol1 & Hm1 & _ & _ & Hb1)]];
    [|congruence|].
  { cbn zeta. cbn [fst snd]. split_and!; try done.
    intros tab _ ? ?. destruct Hor; congruence. }
  destruct (update_tabs state remove add tabs s1 ltac:(by eexists) Hnd)
    as (Hc & Hd' & Hol & Hm & Hb & Hb').
  cbn zeta in *. cbn [fst snd]. split_and!; try congruence.
  - intros tab Htab _ _. by rewrite Hb, Hb1.
  - intros t st [?|[?|[?|?]]]; [|  |congruence..].
    + rewrite Hb' by (by left). apply Hb1.
    + rewrite Hb' by (by right). apply Hb1.
Qed.

Lemma update_states (l : list string) remove add (tabs : list tst_tab) s :
  NoDup (tab_id <$> tabs) → (∀ state, state ∈ l → inherited state = false) →
  let r := update_known l tabs remove add s in
  r.2 = false ∧
  _classNames r.1 = _classNames s ∧ isDisposed r.1 = isDisposed s ∧
  opsList r.1 = opsList s ∧ mirrorLog r.1 = mirrorLog s ∧
  (∀ tab state, tab ∈ tabs → state ∈ l → isDisposed s = false →
     allowed s state = true →
     belief r.1 (tab_id tab) state =
     updated remove add (bool_decide (state ∈ tab_states tab))
       (belief s (tab_id tab) state)) ∧
  (∀ t st, (st ∉ l ∨ t ∉ tab_id <$> tabs ∨ isDisposed s = true ∨
            allowed s st = false) →
     belief r.1 t st = belief s t st).
Proof.
  intros Hnd. revert s. unfold update_known, for_of.
  induction l as [|state l IH]; intros s Hin.
  { cbn. split_and!; try done. by intros tab state _ ?%elem_of_nil. }
  cbn [foldl snd fst].
  destruct (update_state state remove add tabs s Hnd)
    as (Ht1 & Hc1 & Hd1 & Hol1 & Hm1 & Hb1 & Hb1'); [apply Hin; by left|].
  cbn zeta in *.
  set (r1 := match _getCache state s with
             | (Entry _, s') => (foldl (update_tab state remove add) s' tabs, false)
             | (NoCache, s') => (s', false)
             | (Inherited, s') => (s', existsb (accessed state remove add) tabs)
             end) in *.
  assert (r1 = (r1.1, false)) as Hr1 by (rewrite <- Ht1; by destruct r1).
  rewrite Hr1.
  destruct (IH r1.1) as (Ht & Hc & Hd & Hol & Hm & Hb & Hb');
    [intros; apply Hin; by right|].
  assert (∀ st, allowed r1.1 st = allowed s st) as Ha1.
  { intros st. unfold allowed. by rewrite Hc1. }
  split_and!; try congruence.
  - intros tab st Htab Hst Hlive Hallow.
    destruct (decide (st ∈ l)) as [Hl|Hnl].
    + rewrite Hb by (rewrite ?Hd1, ?Ha1; done).
      destruct (decide (st = state)) as [->|Hne].
      * rewrite Hb1 by done. apply updated_idemp.
      * by rewrite Hb1' by (by left).
    + apply elem_of_cons in Hst as [->|?]; [|done].
      rewrite Hb' by (by left). by apply Hb1.
  - intros t st Hor. rewrite Hb'.
    + apply Hb1'. destruct (decide (st = state)) as [->|Hne]; [|by left].
      destruct Hor as [Hn|[?|[?|?]]]; auto.
      exfalso. apply Hn. by left.
    + rewrite Hd1, Ha1. destruct Hor as [Hn|[?|[?|?]]]; auto.
      left. intros ?. apply Hn. by right.
Qed.

(** X11. [updateFromTST] with known state names, on a cache that is live when
    Tree Style Tab has answered.  Its promise rejects only when an affected
    state is the name of a member of [Object.prototype].  When none is: for
    every tab that Tree Style Tab described and every affected state that is
    allowed, the belief becomes [true] when the tab has the state and [add]
    is set, is deleted when the tab lacks the state and [remove] is set, and
    stays as it was otherwise; the beliefs for other tabs and other states
    stay as they were; nothing is sent to Tree Style Tab and the promise
    does not reject. *)
Theorem updateFromTST_mirrors_the_sidebar (E : update_env) (s : t)
    (tabIds : option (list Z)) (states : option (list string)) (remove add : bool)
    (l : list string) (tstTabs : list tst_tab) :
  isDisposed s = false → remove || add = true →
  ForceNotify._getAffectedStates states s = Some l → l ≠ [] →
  (tabIds = None → isDisposed (u_after_query E) = false) →
  u_tst_tabs E (default (u_all_tabs E) tabIds) = Some tstTabs →
  isDisposed (u_after_tabs E) = false → NoDup (tab_id <$> tstTabs) →
  let r := updateFromTST E s tabIds states remove add in
  (r.2 = true → ∃ state, state ∈ l ∧ inherited state = true) ∧
  ((∀ state, state ∈ l → inherited state = false) →
   r.2 = false ∧ mirrorLog r.1 = mirrorLog (u_after_tabs E) ∧
   (∀ tab state, tab ∈ tstTabs → state ∈ l → allowed (u_after_tabs E) state = true →
      belief r.1 (tab_id tab) state =
      updated remove add (bool_decide (state ∈ tab_states tab))
        (belief (u_after_tabs E) (tab_id tab) state)) ∧
   (∀ t st, st ∉ l ∨ t ∉ tab_id <$> tstTabs →
      belief r.1 t st = belief (u_after_tabs E) t st)).
Proof.
  intros Hd Hflags Haff Hne Hq Htabs Hd' Hnd r.
  assert (r = update_known l tstTabs remove add (u_after_tabs E)) as Hr.
  { subst r. unfold updateFromTST.
    rewrite Hd. assert (negb remove && negb add = false) as ->
      by (by destruct remove, add).
    rewrite Haff. rewrite bool_decide_eq_false_2 by (by intros [= ->]).
    destruct tabIds as [ids|].
    - change (u_tst_tabs E ids = Some tstTabs) in Htabs. by rewrite Htabs, Hd'.
    - change (u_tst_tabs E (u_all_tabs E) = Some tstTabs) in Htabs.
      by rewrite Hq, Htabs, Hd'. }
  assert ((∀ state, state ∈ l → inherited state = false) →
          r.2 = false ∧ mirrorLog r.1 = mirrorLog (u_after_tabs E) ∧
          (∀ tab state, tab ∈ tstTabs → state ∈ l →
             allowed (u_after_tabs E) state = true →
             belief r.1 (tab_id tab) state =
             updated remove add (bool_decide (state ∈ tab_states tab))
               (belief (u_after_tabs E) (tab_id tab) state)) ∧
          (∀ t st, st ∉ l ∨ t ∉ tab_id <$> tstTabs →
             belief r.1 t st = belief (u_after_tabs E) t st)) as Hgood.
  { intros Hin. rewrite Hr.
    destruct (update_states l remove add tstTabs (u_after_tabs E) Hnd Hin)
      as (Ht & _ & _ & _ & Hm & Hb & Hb').
    cbn zeta in *. split_and!; [done|done| |].
    - intros tab state Htab Hst Ha. by apply Hb.
    - intros t st [?|?]; apply Hb'; auto. }
  split; [|done].
  intros Hthrew.
  destruct (decide (Forall (λ state, inherited state = false) l)) as [Hall|Hex].
  - destruct Hgood as [Hno _]; [by apply Forall_forall|]. congruence.
  - apply not_Forall_Exists in Hex; [|apply _].
    apply Exists_exists in Hex as (state & Hst & Hi).
    exists state. split; [done|]. cbn in Hi. by destruct (inherited state).
Qed.

(** The theorem at a cache for "red" and "blue" that believes tab 1 to be
    red, when Tree Style Tab shows tab 1 as blue and tab 2 as red. *)
Lemma updateFromTST_mirrors_the_sidebar_witness :
  let s := run (new (Some ["red"; "blue"])) [EStateChanged 1 "red" true false] in
  let E := UpdateEnv [1; 2] s (λ _, Some [TstTab 1 ["blue"]; TstTab 2 ["red"]]) s in
  let r := updateFromTST E s None None true true in
  belief r.1 1 "red" = None ∧ belief r.1 1 "blue" = Some true ∧
  belief r.1 2 "red" = Some true.
Proof.
  intros s E r.
  destruct (updateFromTST_mirrors_the_sidebar E s None None true true ["red"; "blue"]
              [TstTab 1 ["blue"]; TstTab 2 ["red"]])
    as (_ & Hgood); [reflexivity|reflexivity|reflexivity|done|done|reflexivity|
                     reflexivity|by apply (bool_decide_unpack _)|].
  destruct Hgood as (_ & _ & Hb & _).
  { intros state [->|[->|[]%elem_of_nil]%elem_of_cons]%elem_of_cons; reflexivity. }
  split_and!.
  - exact (eq_trans (Hb (TstTab 1 ["blue"]) "red" ltac:(by left) ltac:(by left) eq_refl)
             eq_refl).
  - exact (eq_trans (Hb (TstTab 1 ["blue"]) "blue" ltac:(by left)
                       ltac:(right; by left) eq_refl) eq_refl).
  - exact (eq_trans (Hb (TstTab 2 ["red"]) "red" ltac:(right; by left)
                       ltac:(by left) eq_refl) eq_refl).
Defined.

End UpdateFromTST.

(** ** TSTCustomStateCache: what [forceNotifyTST] sends *)
Section ForceNotifyEdges.
Import CustomStateCache ForceNotify.
Implicit Types (s : CustomStateCache.t) (c : mirror_call).

Lemma batch_tabs (tabIdsWithState : list (Z * bool)) (hasState : bool) tabId :
  tabId ∈ batch tabIdsWithState hasState → tabId ∈ tabIdsWithState.*1.
Proof.
  unfold batch. intros ([t b] & -> & Hin)%list_elem_of_fmap.
  apply list_elem_of_In, filter_In in Hin as [Hin _].
  apply list_elem_of_fmap. exists (t, b). split; [done|]. by apply list_elem_of_In.
Qed.

Lemma gathered_tabs (f : Z → result bool) (tabIds : list Z) tabIdsWithState :
  gathered (map (λ tabId, (tabId, f tabId)) tabIds) = Returns tabIdsWithState →
  tabIdsWithState.*1 = tabIds.
Proof.
  revert tabIdsWithState. induction tabIds as [|t l IH]; intros tws; cbn.
  { by intros [= <-]. }
  destruct (f t); [|done].
  destruct (gathered (map (λ tabId, (tabId, f tabId)) l)) as [rest|]; [|done].
  intros [= <-]. cbn. f_equal. by apply IH.
Qed.

Lemma notify_state_calls E s tabIds remove add state c :
  c ∈ (notify_state E s tabIds remove add state).1 →
  mc_states c = [state] ∧
  (if mc_value c then add = true else remove = true) ∧
  (∀ tabId, tabId ∈ mc_tabIds c → tabId ∈ tabIds).
Proof.
  unfold notify_state.
  destruct (gathered _) as [tabIdsWithState|] eqn:Hg; cbn [fst];
    [|by intros ?%elem_of_nil].
  apply gathered_tabs in Hg.
  destruct (isDisposed (after_gather E state)); cbn [fst]; [by intros ?%elem_of_nil|].
  unfold notify.
  destruct remove, add; cbn; intros Hin;
    repeat (apply elem_of_cons in Hin as [->|Hin]);
    try (by apply elem_of_nil in Hin);
    cbn; (split_and!; [done|done|rewrite <- Hg; apply batch_tabs]).
Qed.

Lemma elem_of_all_calls E s tabIds remove add (l : list string) c :
  c ∈ concat (map fst (map (notify_state E s tabIds remove add) l)) →
  ∃ state, state ∈ l ∧ c ∈ (notify_state E s tabIds remove add state).1.
Proof.
  induction l as [|state l IH]; cbn; [by intros ?%elem_of_nil|].
  intros [Hin|Hin]%elem_of_app.
  - exists state. split; [by left|done].
  - destruct (IH Hin) as (st & Hst & Hc). exists st. split; [by right|done].
Qed.

(** X12. [forceNotifyTST] sends only what it was asked for: each message names
    one of the affected states, tells Tree Style Tab to add the state only
    when [add] is set and to remove it only when [remove] is set, and lists
    only tabs of the call.  On a disposed cache it sends nothing and
    resolves with [false]; when neither [add] nor [remove] is set, or when
    no state is affected, it sends nothing and resolves with [undefined]. *)
Theorem forceNotifyTST_sends_only_what_was_asked (E : env) (s : CustomStateCache.t)
    (tabIds : option (list Z)) (states : option (list string)) (remove add : bool) :
  let r := forceNotifyTST E s tabIds states remove add in
  (∀ c, c ∈ concat r.1 →
     (∃ state, mc_states c = [state] ∧ state ∈ affected s states) ∧
     (if mc_value c then add = true else remove = true) ∧
     (∀ tabId, tabId ∈ mc_tabIds c → tabId ∈ tabs_of E tabIds)) ∧
  (isDisposed s = true → r = ([], Resolved (Some false))) ∧
  (isDisposed s = false →
   (remove = false ∧ add = false) ∨ affected s states = [] →
   r = ([], Resolved None)).
Proof.
  unfold forceNotifyTST. fold (affected s states).
  destruct (isDisposed s) eqn:Hd.
  { split_and!; [by intros c ?%elem_of_nil|done|done]. }
  destruct (negb remove && negb add) eqn:Hflags.
  { split_and!; [by intros c ?%elem_of_nil|done|done]. }
  destruct (affected s states) as [|state l] eqn:Haff.
  { cbn. split_and!; [by intros c ?%elem_of_nil|done|done]. }
  rewrite bool_decide_eq_false_2 by done.
  split_and!; [|done|].
  2: { intros _ [[-> ->]|?]; done. }
  intros c Hin.
  assert (∃ s' ids, (∀ tabId, tabId ∈ ids → tabId ∈ tabs_of E tabIds) ∧
            c ∈ concat (map fst (map (notify_state E s' ids remove add) (state :: l))))
    as (s' & ids & Hids & Hc).
  { destruct tabIds as [ids|]; cbn [fst] in Hin.
    - by exists s, ids.
    - destruct (isDisposed (after_query E)); [by apply elem_of_nil in Hin|].
      by exists (after_query E), (all_tabs E). }
  apply elem_of_all_calls in Hc as (st & Hst & Hc).
  apply notify_state_calls in Hc as (H1 & H2 & H3).
  split_and!; [by exists st|done|]. intros tabId Htab. by apply Hids, H3.
Qed.

Lemma forceNotifyTST_sends_only_what_was_asked_witness :
  let r := forceNotifyTST (quiet red13_blue2) red13_blue2 (Some [1; 2; 3])
             (Some ["red"]) false true in
  let c := MirrorCall [1; 3] ["red"] true in
  r.1 = [[c]] ∧
  (∃ state, mc_states c = [state] ∧ state ∈ affected red13_blue2 (Some ["red"])) ∧
  (∀ tabId, tabId ∈ mc_tabIds c → tabId ∈ [1; 2; 3]).
Proof.
  intros r c.
  assert (r.1 = [[c]]) as Hr by (by vm_compute).
  assert (c ∈ concat r.1) as Hc by (rewrite Hr; by left).
  destruct (forceNotifyTST_sends_only_what_was_asked (quiet red13_blue2) red13_blue2
              (Some [1; 2; 3]) (Some ["red"]) false true) as (H & _).
  destruct (H c Hc) as (H1 & _ & H3).
  split; [exact Hr|split; [exact H1|exact H3]].
Defined.

End ForceNotifyEdges.

(** ** SessionDataCache: disposal, and the handlers of created and removed
    entries *)
Section SessionHandlers.
Import JS SessionDataCache SessionEvents.
Implicit Types (s : t) (h : nat) (e : event) (hs : list handler).

Ltac session_steps :=
  unfold step, call_handler, resume, got_value, after_suppress, dispose,
    hydration_settles, start_settles, write_value, _createDataForEntry,
    _notifyDataChange, fire, set_handler,
    with_fired, with_handlers, with_objects, with_storage, with_start in *;
  repeat (case_match; simpl in *); simplify_eq; simpl in *.

Lemma step_disposed_fires_nothing s e :
  _isDisposed s = true → fired (step s e) = fired s.
Proof.
  intros Hd. destruct e as [k|h| |ids|entryId data key v|data ok|ok];
    try (session_steps; congruence).
  simpl. by destruct (got_entry_ids_frame ids s) as (_ & _ & _ & ->).
Qed.

(** X13. A disposed cache stays disposed and never fires its data-changed event
    again, whatever events, values and resumptions reach it. *)
Theorem disposed_cache_fires_nothing (s : t) (tr : list event) :
  _isDisposed s = true →
  _isDisposed (run s tr) = true ∧ fired (run s tr) = fired s.
Proof.
  revert s. induction tr as [|e tr IH]; intros s Hd; [done|].
  cbn. destruct (IH (step s e)) as [H1 H2]; [by apply step_disposed|].
  unfold run in *. rewrite H1, H2. split; [done|].
  by apply step_disposed_fires_nothing.
Qed.

(** The theorem at a cache that is disposed of while the handler of a
    changed value waits for its start. *)
Lemma disposed_cache_fires_nothing_witness :
  fired (run (dispose (run two_tabs [EHandler (OnEntryChanged 1 "marked" (Str "red"))]))
           [EResume 0; EResume 0; EResume 0; EGotValue 2 1 "marked" (Str "blue")])
  = [].
Proof.
  exact (proj2 (disposed_cache_fires_nothing
                  (dispose (run two_tabs [EHandler (OnEntryChanged 1 "marked" (Str "red"))]))
                  [EResume 0; EResume 0; EResume 0; EGotValue 2 1 "marked" (Str "blue")]
                  eq_refl)).
Defined.

Lemma called_handler s (k : handler_kind) :
  (∀ entryId key newValue, k ≠ OnEntryChanged entryId key newValue) →
  call_handler k s = with_handlers (handlers s ++ [Handler k HAwaitStart]) s.
Proof.
  intros Hk. destruct k as [id|id|id k v]; [done..|]. by destruct (Hk id k v).
Qed.

Lemma resume_suppressed_removed s hs entryId :
  handlers s = hs ++ [Handler (OnEntryRemoved entryId) (HAwaitSuppress false)] →
  resume (length hs) s =
  match _storage s !! entryId with
  | None => with_handlers (hs ++ [Handler (OnEntryRemoved entryId) (HDone Returned)]) s
  | Some data =>
      with_handlers (hs ++ [Handler (OnEntryRemoved entryId) (HDone Returned)])
        (_notifyDataChange entryId None Undefined
           (with_storage (delete entryId (_storage s)) (_asyncStorage s ∖ {[data]})
              (hydration s) s))
  end.
Proof.
  intros Hh. unfold resume, after_suppress, set_handler.
  rewrite Hh, lookup_last_handler. cbn [h_pc h_kind].
  destruct (_storage s !! entryId) as [data|].
  - unfold _notifyDataChange, fire, with_fired, with_storage.
    cbn [_isDisposed handlers]. destruct (_isDisposed s);
      cbn [handlers]; by rewrite ?Hh, ?lookup_last_handler, insert_last_handler.
  - by rewrite insert_last_handler.
Qed.

(** X14. A removed entry, on a started cache that is not disposed.  When the
    handler has ended, the entry is gone from the cache and the other
    entries are as they were; if the entry was known, one data-changed
    event was fired, with the entry id and neither key nor value, and if it
    was not known, no event was fired. *)
Theorem entry_removed_notifies_once (s : t) (entryId : Z) :
  is_Some (start s) → _isDisposed s = false →
  let s' := entry_removed entryId s in
  data_of s' entryId = None ∧
  (∀ other, other ≠ entryId → data_of s' other = data_of s other) ∧
  fired s' = fired s ++
    match _storage s !! entryId with
    | Some _ => [{| entryId := entryId; key := None; value := None |}]
    | None => []
    end ∧
  pc_of s' (length (handlers s)) = Some (HDone Returned).
Proof.
  intros [ok Hstart] Hlive s'. subst s'.
  unfold entry_removed, run. cbn [foldl]. unfold step.
  rewrite called_handler by done.
  set (k := OnEntryRemoved entryId).
  rewrite (resume_await_start
             (with_handlers (handlers s ++ [Handler k HAwaitStart]) s)
             (handlers s) k ok eq_refl Hstart).
  change (_isDisposed (with_handlers _ s)) with (_isDisposed s).
  change (with_handlers ?a (with_handlers _ s)) with (with_handlers a s).
  rewrite Hlive.
  rewrite (resume_suppressed_removed
             (with_handlers (handlers s ++ [Handler k (HAwaitSuppress false)]) s)
             (handlers s) entryId eq_refl).
  change (_storage (with_handlers _ s)) with (_storage s).
  unfold data_of, pc_of.
  destruct (_storage s !! entryId) as [data|] eqn:Hst.
  - unfold _notifyDataChange, fire, with_fired, with_storage, with_handlers.
    cbn [_isDisposed]. rewrite Hlive.
    cbn [_storage objects fired handlers JS.truthy].
    rewrite lookup_delete_eq, lookup_last_handler. split_and!; try done.
    intros other Hne. by rewrite lookup_delete_ne.
  - cbn [_storage objects fired handlers with_handlers].
    rewrite Hst, app_nil_r, lookup_last_handler. done.
Qed.

(** The theorem at the cache of the tabs 1 and 2. *)
Lemma entry_removed_notifies_once_witness :
  let s' := entry_removed 2 two_tabs in
  data_of s' 2 = None ∧ data_of s' 1 = Some ∅ ∧
  fired s' = [{| entryId := 2; key := None; value := None |}].
Proof.
  destruct (entry_removed_notifies_once two_tabs 2 ltac:(by eexists) eq_refl)
    as (H1 & H2 & H3 & _).
  split_and!; [exact H1|exact (eq_trans (H2 1 ltac:(done)) eq_refl)|exact H3].
Defined.

Lemma storage_wf_created entryId data s :
  storage_wf s → (data = None ∨ data = _storage s !! entryId) →
  storage_wf (_createDataForEntry entryId data s).2.
Proof.
  intros Hwf Hdata id d. unfold _createDataForEntry.
  destruct data as [d0|]; cbn.
  - destruct Hdata as [|Hd0]; [done|]. symmetry in Hd0.
    destruct (decide (entryId = id)) as [->|Hne].
    + rewrite lookup_insert_eq. intros [= <-]. by eapply Hwf.
    + rewrite lookup_insert_ne by done. apply Hwf.
  - rewrite length_app. cbn. destruct (decide (entryId = id)) as [->|Hne].
    + rewrite lookup_insert_eq. intros [= <-]. lia.
    + rewrite lookup_insert_ne by done. intros Hd%Hwf. lia.
Qed.

Lemma storage_wf_ext s s' :
  _storage s' = _storage s → length (objects s') = length (objects s) →
  storage_wf s → storage_wf s'.
Proof. intros Hs Hl Hwf id d. rewrite Hs, Hl. apply Hwf. Qed.

Lemma storage_wf_step s e : storage_wf s → storage_wf (step s e).
Proof.
  intros Hwf. destruct e as [k|h| |ids|entryId data key v|data ok|ok]; cbn [step].
  - revert Hwf. apply storage_wf_ext; unfold call_handler; by repeat case_match.
  - unfold resume. destruct (handlers s !! h) as [x|] eqn:Hh; [|done].
    destruct (h_pc x) as [|[|]|data awaited|en].
    + destruct (start s); [|done]. revert Hwf.
      apply storage_wf_ext; unfold set_handler; by rewrite Hh.
    + revert Hwf. apply storage_wf_ext; unfold set_handler; by rewrite Hh.
    + unfold after_suppress. destruct (h_kind x) as [id|id|id key v].
      * assert (storage_wf (_createDataForEntry id None s).2) as Hwf'
          by (apply storage_wf_created; auto).
        revert Hwf'. apply storage_wf_ext; unfold set_handler; by case_match.
      * destruct (_storage s !! id) as [d|] eqn:Hd.
        -- assert (storage_wf
                     (_notifyDataChange id None Undefined
                        (with_storage (delete id (_storage s))
                           (_asyncStorage s ∖ {[d]}) (hydration s) s))) as Hwf'.
           { intros id' d'. unfold _notifyDataChange, fire, with_fired, with_storage.
             destruct (_isDisposed s); cbn;
               intros [_ Hl]%lookup_delete_Some; by eapply Hwf. }
           revert Hwf'. apply storage_wf_ext; unfold set_handler; by case_match.
        -- revert Hwf. apply storage_wf_ext; unfold set_handler; by rewrite Hh.
      * destruct (_storage s !! id) as [d|] eqn:Hd;
          revert Hwf; apply storage_wf_ext; unfold set_handler; by rewrite Hh.
    + destruct (if awaited then default Fulfilled (hydration s !! data) else Fulfilled);
        try done.
      * destruct (h_kind x) as [id|id|id key v]; try done.
        assert (storage_wf (_notifyDataChange id (Some key) v (write_value data key v s)))
          as Hwf'.
        { revert Hwf. apply storage_wf_ext;
            unfold _notifyDataChange, fire, with_fired, write_value, with_objects;
            repeat case_match; cbn; by rewrite ?length_insert. }
        revert Hwf'. apply storage_wf_ext; unfold set_handler; by case_match.
      * revert Hwf. apply storage_wf_ext; unfold set_handler; by rewrite Hh.
    + done.
  - unfold dispose. destruct (_isDisposed s); [done|]. intros id d. cbn.
    by rewrite lookup_empty.
  - unfold got_entry_ids. revert s Hwf.
    induction ids as [|id ids IH]; intros s Hwf; [done|].
    cbn. apply IH. apply storage_wf_created; auto.
  - revert Hwf. apply storage_wf_ext;
      unfold got_value, _notifyDataChange, fire, with_fired, with_objects;
      repeat case_match; cbn; by rewrite ?length_insert.
  - done.
  - unfold start_settles. by destruct (start s).
Qed.

(** The storage of a cache that was created empty stays well formed. *)
Lemma storage_wf_run monitoredKeys getStorageValue tr :
  storage_wf (run (new monitoredKeys getStorageValue) tr).
Proof.
  unfold run.
  assert (storage_wf (new monitoredKeys getStorageValue)) as H.
  { intros id d. cbn. by rewrite lookup_empty. }
  revert H. generalize (new monitoredKeys getStorageValue).
  induction tr as [|e tr IH]; intros s H; [done|].
  cbn. by apply IH, storage_wf_step.
Qed.

Lemma resume_suppressed_created s hs entryId :
  handlers s = hs ++ [Handler (OnEntryCreated entryId) (HAwaitSuppress false)] →
  resume (length hs) s =
  with_handlers (hs ++ [Handler (OnEntryCreated entryId) (HDone Returned)])
    (_createDataForEntry entryId None s).2.
Proof.
  intros Hh. unfold resume, after_suppress, set_handler.
  rewrite Hh, lookup_last_handler. cbn [h_pc h_kind].
  destruct (createDataForEntry_frame entryId None s) as (_ & _ & Hh' & _).
  cbn zeta in Hh'. rewrite Hh', Hh, lookup_last_handler, insert_last_handler.
  done.
Qed.

(** X15. A created entry, on a started cache that is not disposed and whose
    storage is well formed.  When the handler has ended, the entry has a
    fresh, empty object (also when the cache knew the entry before), the
    other entries are as they were, and no data-changed event was fired. *)
Theorem entry_created_starts_empty (s : t) (entryId : Z) :
  is_Some (start s) → _isDisposed s = false → storage_wf s →
  let s' := entry_created entryId s in
  data_of s' entryId = Some ∅ ∧
  (∀ other, other ≠ entryId → data_of s' other = data_of s other) ∧
  fired s' = fired s ∧ storage_wf s' ∧
  pc_of s' (length (handlers s)) = Some (HDone Returned).
Proof.
  intros [ok Hstart] Hlive Hwf s'. subst s'.
  unfold entry_created, run. cbn [foldl]. unfold step.
  rewrite called_handler by done.
  set (k := OnEntryCreated entryId).
  rewrite (resume_await_start
             (with_handlers (handlers s ++ [Handler k HAwaitStart]) s)
             (handlers s) k ok eq_refl Hstart).
  change (_isDisposed (with_handlers _ s)) with (_isDisposed s).
  change (with_handlers ?a (with_handlers _ s)) with (with_handlers a s).
  rewrite Hlive.
  rewrite (resume_suppressed_created
             (with_handlers (handlers s ++ [Handler k (HAwaitSuppress false)]) s)
             (handlers s) entryId eq_refl).
  unfold data_of, pc_of, storage_wf, _createDataForEntry, with_storage, with_objects,
    with_handlers.
  cbn [snd _storage objects fired handlers _monitoredKeys has_getStorageValue].
  rewrite lookup_last_handler. split_and!; try done.
  - rewrite lookup_insert_eq. cbn. by rewrite list_lookup_middle.
  - intros other Hne. rewrite lookup_insert_ne by done.
    destruct (_storage s !! other) as [d|] eqn:Hd; [|done]. cbn.
    apply lookup_app_l. by eapply Hwf.
  - intros id d. rewrite length_app. cbn.
    destruct (decide (entryId = id)) as [->|Hne].
    + rewrite lookup_insert_eq. intros [= <-]. lia.
    + rewrite lookup_insert_ne by done. intros Hd%Hwf. lia.
Qed.

(** The theorem at the cache of the tabs 1 and 2, for a new tab 5. *)
Lemma entry_created_starts_empty_witness :
  let s' := entry_created 5 two_tabs in
  data_of s' 5 = Some ∅ ∧ fired s' = [].
Proof.
  assert (storage_wf two_tabs) as Hwf by apply storage_wf_run.
  destruct (entry_created_starts_empty two_tabs 5 ltac:(by eexists) eq_refl Hwf)
    as (H1 & _ & H3 & _).
  split; [exact H1|exact H3].
Defined.

End SessionHandlers.

(** ** SessionDataCache: changes that are ignored, and the start *)
Section SessionEdges.
Import JS SessionDataCache SessionEvents.
Implicit Types (s : t) (h : nat) (e : event) (hs : list handler).

Lemma resume_finished s hs (k : handler_kind) en :
  handlers s = hs ++ [Handler k (HDone en)] → resume (length hs) s = s.
Proof. intros Hh. unfold resume. by rewrite Hh, lookup_last_handler. Qed.

Lemma resume_suppressed_unknown s hs entryId key newValue :
  handlers s = hs ++ [Handler (OnEntryChanged entryId key newValue) (HAwaitSuppress false)] →
  _storage s !! entryId = None →
  resume (length hs) s =
  with_handlers (hs ++ [Handler (OnEntryChanged entryId key newValue) (HDone Returned)]) s.
Proof.
  intros Hh Hst. unfold resume, after_suppress, set_handler.
  rewrite Hh, lookup_last_handler. cbn [h_pc h_kind]. rewrite Hst.
  by rewrite insert_last_handler.
Qed.

(** X16. A changed value that the cache ignores: the key is not monitored, or
    (on a started cache that is not disposed) the entry is not known.  The
    handler returns, and the values, the entries and the events that were
    fired are as before. *)
Theorem entry_changed_ignored (s : t) (entryId : Z) (key : string)
    (newValue : JS.value) :
  key ∉ _monitoredKeys s ∨
  (is_Some (start s) ∧ _isDisposed s = false ∧ _storage s !! entryId = None) →
  let s' := entry_changed entryId key newValue s in
  objects s' = objects s ∧ _storage s' = _storage s ∧ fired s' = fired s ∧
  pc_of s' (length (handlers s)) = Some (HDone Returned).
Proof.
  intros H s'. subst s'. unfold entry_changed, run. cbn [foldl]. unfold step.
  destruct (decide (key ∈ _monitoredKeys s)) as [Hmon|Hmon].
  - destruct H as [?|([ok Hstart] & Hlive & Hst)]; [done|].
    rewrite entry_changed_called by done.
    set (k := OnEntryChanged entryId key newValue).
    rewrite (resume_await_start
               (with_handlers (handlers s ++ [Handler k HAwaitStart]) s)
               (handlers s) k ok eq_refl Hstart).
    change (_isDisposed (with_handlers _ s)) with (_isDisposed s).
    change (with_handlers ?a (with_handlers _ s)) with (with_handlers a s).
    rewrite Hlive.
    rewrite (resume_suppressed_unknown
               (with_handlers (handlers s ++ [Handler k (HAwaitSuppress false)]) s)
               (handlers s) entryId key newValue eq_refl Hst).
    change (with_handlers ?a (with_handlers _ s)) with (with_handlers a s).
    subst k.
    rewrite (resume_finished
               (with_handlers
                  (handlers s ++
                   [Handler (OnEntryChanged entryId key newValue) (HDone Returned)]) s)
               (handlers s) (OnEntryChanged entryId key newValue) Returned eq_refl).
    unfold pc_of. cbn. by rewrite lookup_last_handler.
  - set (k := OnEntryChanged entryId key newValue).
    assert (call_handler k s =
            with_handlers (handlers s ++ [Handler k (HDone Returned)]) s) as ->.
    { unfold call_handler, k. by rewrite bool_decide_eq_false_2. }
    rewrite !(resume_finished
                (with_handlers (handlers s ++ [Handler k (HDone Returned)]) s)
                (handlers s) k Returned eq_refl).
    unfold pc_of. cbn. by rewrite lookup_last_handler.
Qed.

(** The theorem at the cache of the tabs 1 and 2: a key that is not
    monitored, and a tab that is not known. *)
Lemma entry_changed_ignored_witness :
  fired (entry_changed 1 "pinned" (Str "yes") two_tabs) = [] ∧
  fired (entry_changed 9 "marked" (Str "red") two_tabs) = [] ∧
  data_of (entry_changed 9 "marked" (Str "red") two_tabs) 9 = None.
Proof.
  destruct (entry_changed_ignored two_tabs 1 "pinned" (Str "yes")) as (_ & _ & H1 & _).
  { left. apply (bool_decide_eq_false_1 _). reflexivity. }
  destruct (entry_changed_ignored two_tabs 9 "marked" (Str "red")) as (_ & H2 & H3 & _).
  { right. split_and!; [by eexists|reflexivity|reflexivity]. }
  split_and!; [exact H1|exact H3|].
  unfold data_of. by rewrite H2.
Defined.

Lemma data_of_created entryId s other :
  storage_wf s →
  data_of (_createDataForEntry entryId (_storage s !! entryId) s).2 other =
  match data_of s other with
  | Some m => Some m
  | None => if decide (other = entryId) then Some ∅ else None
  end.
Proof.
  intros Hwf. unfold data_of, _createDataForEntry.
  destruct (_storage s !! entryId) as [d|] eqn:Hd; cbn.
  - destruct (decide (other = entryId)) as [->|Hne].
    + rewrite lookup_insert_eq, Hd. cbn.
      destruct (lookup_lt_is_Some_2 (objects s) d) as [m ->]; [by eapply Hwf|done].
    + rewrite lookup_insert_ne by done.
      destruct (_storage s !! other) as [d'|]; [|done]. cbn.
      by destruct (objects s !! d').
  - destruct (decide (other = entryId)) as [->|Hne].
    + rewrite lookup_insert_eq, Hd. cbn. by rewrite list_lookup_middle.
    + rewrite lookup_insert_ne by done.
      destruct (_storage s !! other) as [d'|] eqn:Hd'; [|done]. cbn.
      rewrite lookup_app_l by (by eapply Hwf).
      by destruct (objects s !! d').
Qed.

(** X17. The start of a cache keeps the initial storage: when the ids of the
    entries arrive, an entry that the cache already holds keeps its values,
    an id that is new gets an empty object, and no data-changed event is
    fired. *)
Theorem start_keeps_initial_storage (s : t) (ids : list Z) (entryId : Z) :
  storage_wf s →
  let s' := got_entry_ids ids s in
  data_of s' entryId =
    match data_of s entryId with
    | Some m => Some m
    | None => if bool_decide (entryId ∈ ids) then Some ∅ else None
    end ∧
  fired s' = fired s.
Proof.
  intros Hwf s'. subst s'. split; [|apply got_entry_ids_frame].
  unfold got_entry_ids. revert s Hwf.
  induction ids as [|id ids IH]; intros s Hwf.
  { cbn. by destruct (data_of s entryId). }
  cbn [foldl]. rewrite IH by (apply storage_wf_created; auto).
  rewrite data_of_created by done.
  destruct (data_of s entryId) as [m|]; [done|].
  destruct (decide (entryId = id)) as [->|Hne].
  - rewrite (bool_decide_eq_true_2 (id ∈ id :: ids)); [done|by left].
  - destruct (decide (entryId ∈ ids)) as [Hin|Hnin].
    + rewrite !bool_decide_eq_true_2; [done|by right|done].
    + rewrite !bool_decide_eq_false_2; [done| |done].
      rewrite not_elem_of_cons. done.
Qed.

(** The theorem at a cache that holds the mark of tab 1 when the ids 1 and 7
    arrive. *)
Lemma start_keeps_initial_storage_witness :
  let s := run (new ["marked"] true)
             [EGotEntryIds [1; 2]; EGotValue 1 0 "marked" (Str "red")] in
  data_of (got_entry_ids [1; 7] s) 1 = Some {["marked" := Str "red"]} ∧
  data_of (got_entry_ids [1; 7] s) 7 = Some ∅.
Proof.
  intros s.
  assert (storage_wf s) as Hwf by apply storage_wf_run.
  split.
  - exact (eq_trans (proj1 (start_keeps_initial_storage s [1; 7] 1 Hwf)) eq_refl).
  - exact (eq_trans (proj1 (start_keeps_initial_storage s [1; 7] 7 Hwf)) eq_refl).
Defined.

End SessionEdges.

(** ** The marks of the tabs: what the variables of the module keep to *)
Section ModuleInvariant.
Import MarkerTabData TabMarks.
Implicit Types (st : t) (e : module_event).

Lemma getCache_frame st :
  let st' := (getCache st).2 in
  timeToKeepCacheInMilliseconds st' = timeToKeepCacheInMilliseconds st ∧
  useSessionStorage st' = useSessionStorage st ∧
  sessionTimeout st' = sessionTimeout st ∧
  released st' = released st ∧
  (useSessionStorage st = false → sessionDataCache st' = sessionDataCache st) ∧
  (is_Some (sessionDataCache st) → sessionDataCache st' = sessionDataCache st) ∧
  (useSessionStorage st = true → is_Some (sessionDataCache st')).
Proof.
  unfold getCache.
  destruct (useSessionStorage st) eqn:Hu,
    (sessionDataCache st) as [c|] eqn:Hc, (temporaryCache st) as [tc|] eqn:Htc;
    cbn; rewrite ?Hu, ?Hc; split_and!; try done; try (by intros [? ?]); by eexists.
Qed.

Lemma removeSessionCache_frame st :
  let st' := removeSessionCache st in
  timeToKeepCacheInMilliseconds st' = timeToKeepCacheInMilliseconds st ∧
  useSessionStorage st' = useSessionStorage st ∧
  sessionTimeout st' = sessionTimeout st ∧
  (useSessionStorage st = false → sessionDataCache st' = None) ∧
  (useSessionStorage st = true → sessionDataCache st' = sessionDataCache st).
Proof.
  unfold removeSessionCache.
  destruct (sessionDataCache st) as [c|] eqn:Hc; [|by rewrite Hc].
  destruct (useSessionStorage st) eqn:Hu; [by rewrite Hc, Hu|].
  destruct (getCache_frame st) as (H1 & H2 & H3 & _). cbn zeta in *.
  cbn. by rewrite H1, H2, H3, Hu.
Qed.

Lemma module_inv_off st :
  timer_active st = false → -1 ≤ timeToKeepCacheInMilliseconds st →
  (useSessionStorage st = false → sessionDataCache st = None) →
  (useSessionStorage st = true → is_Some (sessionDataCache st)) →
  module_inv st.
Proof.
  intros Hoff Ha Hno He. split; [done| | |done].
  - intros tm Htm Hact. unfold timer_active in Hoff. rewrite Htm in Hoff. congruence.
  - rewrite Hoff. split; [done|]. intros [Hu [c Hc]]. rewrite Hno in Hc; done.
Qed.

Lemma module_inv_on st tm :
  sessionTimeout st = Some tm → isActive tm = true →
  timeInMilliseconds tm = timeToKeepCacheInMilliseconds st →
  callback tm = RemoveSessionCache →
  -1 ≤ timeToKeepCacheInMilliseconds st →
  useSessionStorage st = false → is_Some (sessionDataCache st) →
  module_inv st.
Proof.
  intros Htm Hact Ht Hcb Ha Hu Hc. split; [done| | |by rewrite Hu].
  - intros tm'. rewrite Htm. by intros [= <-] _.
  - unfold timer_active. by rewrite Htm, Hact.
Qed.

Lemma module_inv_cases st :
  module_inv st →
  (timer_active st = false ∧
   (useSessionStorage st = false → sessionDataCache st = None)) ∨
  (∃ tm, sessionTimeout st = Some tm ∧ isActive tm = true ∧
     timeInMilliseconds tm = timeToKeepCacheInMilliseconds st ∧
     callback tm = RemoveSessionCache ∧
     useSessionStorage st = false ∧ is_Some (sessionDataCache st)).
Proof.
  intros [Ha Hb Hc He]. destruct (timer_active st) eqn:Hact.
  - right. unfold timer_active in Hact.
    destruct (sessionTimeout st) as [tm|] eqn:Htm; [|done].
    destruct (Hb tm eq_refl Hact) as [? ?]. destruct Hc as [[? ?] _]; [done|].
    by exists tm.
  - left. split; [done|]. intros Hu.
    destruct (sessionDataCache st) as [c|] eqn:Hsc; [|done].
    assert (false = true) as ?%eq_sym by (apply Hc; split; [done|by eexists]).
    done.
Qed.

Lemma timer_active_ext st st' :
  sessionTimeout st' = sessionTimeout st → timer_active st' = timer_active st.
Proof. unfold timer_active. by intros ->. Qed.

Lemma module_inv_init : module_inv init.
Proof. by apply module_inv_off. Qed.

Lemma module_inv_step st e : module_inv st → module_inv (module_step st e).
Proof.
  intros Hinv. pose proof (inv_time st Hinv) as Ha.
  pose proof (inv_session st Hinv) as He.
  destruct e as [value|value| |]; cbn [module_step].
  - (* setTimeToKeepCacheInMilliseconds *)
    unfold setTimeToKeepCacheInMilliseconds.
    set (v := if value <? 0 then -1 else value).
    assert (-1 ≤ v) as Hv by (unfold v; destruct (Z.ltb_spec value 0); lia).
    destruct (Z.eqb_spec v (timeToKeepCacheInMilliseconds st)); [done|].
    cbn [sessionTimeout with_time].
    destruct (module_inv_cases st Hinv)
      as [[Hoff Hno]|(tm & Htm & Hact & _ & Hcb & Hu & Hc)].
    + assert (module_inv (with_time v st)) as H by (by apply module_inv_off).
      unfold timer_active in Hoff.
      destruct (sessionTimeout st) as [tm|]; [|done]. by rewrite Hoff.
    + rewrite Htm, Hact.
      by apply (module_inv_on _ (Timeout_new (callback tm) v)).
  - (* setUseSessionStorage *)
    unfold setUseSessionStorage.
    destruct (decide (value = useSessionStorage st)) as [->|Hne].
    { by rewrite bool_decide_eq_true_2. }
    rewrite bool_decide_eq_false_2 by done.
    set (st1 := with_timeout _ (with_use value st)).
    assert (timer_active st1 = false) as Hoff.
    { unfold timer_active, st1. cbn. by destruct (sessionTimeout st). }
    change (useSessionStorage st1) with value.
    change (sessionDataCache st1) with (sessionDataCache st).
    change (timeToKeepCacheInMilliseconds st1)
      with (timeToKeepCacheInMilliseconds st).
    destruct value.
    + (* turned on *)
      destruct (sessionDataCache st) as [c|] eqn:Hsc.
      * apply module_inv_off; cbn; rewrite ?Hsc; try done; by eexists.
      * destruct (getCache_frame st1) as (H1 & H2 & H3 & _ & _ & _ & H7).
        cbn zeta in *. apply module_inv_off.
        -- by rewrite (timer_active_ext st1).
        -- by rewrite H1.
        -- by rewrite H2.
        -- intros _. by apply H7.
    + (* turned off *)
      destruct (sessionDataCache st) as [c|] eqn:Hsc.
      * destruct (Z.ltb_spec (timeToKeepCacheInMilliseconds st) 0).
        -- destruct (removeSessionCache_frame st1) as (H1 & H2 & H3 & H4 & _).
           cbn zeta in *. apply module_inv_off.
           ++ by rewrite (timer_active_ext st1).
           ++ by rewrite H1.
           ++ intros _. by apply H4.
           ++ by rewrite H2.
        -- eapply module_inv_on; cbn; rewrite ?Hsc; try done; by eexists.
      * apply module_inv_off; cbn; by rewrite ?Hsc.
  - (* getCache *)
    destruct (getCache_frame st) as (H1 & H2 & H3 & _ & H5 & H6 & H7).
    cbn zeta in *.
    destruct (module_inv_cases st Hinv)
      as [[Hoff Hno]|(tm & Htm & Hact & Ht & Hcb & Hu & Hc)].
    + apply module_inv_off.
      * by rewrite (timer_active_ext st).
      * by rewrite H1.
      * rewrite H2. intros Hu. rewrite H5 by done. by apply Hno.
      * rewrite H2. apply H7.
    + apply (module_inv_on _ tm); rewrite ?H1, ?H2, ?H3, ?H5; done.
  - (* the timer fires *)
    unfold timeout_fires.
    destruct (module_inv_cases st Hinv)
      as [[Hoff Hno]|(tm & Htm & Hact & Ht & Hcb & Hu & Hc)].
    + unfold timer_active in Hoff.
      destruct (sessionTimeout st) as [tm|]; [|done]. by rewrite Hoff.
    + rewrite Htm, Hact. set (st1 := with_timeout _ st).
      destruct (removeSessionCache_frame st1) as (H1 & H2 & H3 & H4 & _).
      cbn zeta in *. apply module_inv_off.
      * by rewrite (timer_active_ext st1).
      * by rewrite H1.
      * intros _. by apply H4.
      * rewrite H2. unfold st1. cbn. by rewrite Hu.
Qed.

(** X18. What the module keeps to, whatever the order in which its setters are
    called, its cache is asked for and its timer fires: the keep time is at
    least [-1]; a running timer carries the current keep time and frees the
    session cache; the timer runs exactly while there is a session cache
    that is no longer in use; and while the session storage is in use there
    is a session cache. *)
Theorem module_keeps_its_invariant (tr : list module_event) :
  module_inv (module_run init tr).
Proof.
  unfold module_run. generalize module_inv_init. generalize init.
  induction tr as [|e tr IH]; intros st H; [done|].
  cbn. by apply IH, module_inv_step.
Qed.

End ModuleInvariant.

(** ** The marks of the tabs: turning the session storage off *)
Section TurnedOff.
Import JS MarkerTabData TabMarks.
Implicit Types (st : t) (c : SessionDataCache.t).

(** A cache that is created with an initial storage holds its entries. *)
Lemma data_of_initialStorage (l : list (Z * gmap string value))
    (monitoredKeys : list string) (getTabData : bool) (tabId : Z) m :
  NoDup l.*1 →
  SessionDataCache.data_of
    (TabSessionDataCache_new (Some l) monitoredKeys getTabData) tabId = Some m ↔
  (tabId, m) ∈ l.
Proof.
  unfold TabSessionDataCache_new. cbn [default].
  set (c0 := SessionDataCache.new monitoredKeys getTabData).
  set (f := λ c p, SessionDataCache.with_storage _ _ _ _).
  assert (∀ l, NoDup l.*1 →
    (∀ id d, SessionDataCache._storage (foldl f c0 l) !! id = Some d →
             (d < length (SessionDataCache.objects (foldl f c0 l)))%nat) ∧
    (SessionDataCache.data_of (foldl f c0 l) tabId = Some m ↔ (tabId, m) ∈ l)) as H.
  { clear l. intros l. induction l as [|p l IH] using rev_ind; intros Hnd.
    { split.
      - intros id d. cbn. by rewrite lookup_empty.
      - unfold SessionDataCache.data_of. cbn. rewrite lookup_empty. cbn.
        split; [done|by intros ?%elem_of_nil]. }
    rewrite fmap_app in Hnd. apply NoDup_app in Hnd as (Hnd & Hnin & _).
    rewrite foldl_snoc. destruct (IH Hnd) as [Hwf Hdata].
    set (c1 := foldl f c0 l) in *. split.
    - intros id d. unfold f. cbn. rewrite length_app. cbn.
      destruct (decide (p.1 = id)) as [->|Hne].
      + rewrite lookup_insert_eq. intros [= <-]. lia.
      + rewrite lookup_insert_ne by done. intros ?%Hwf. lia.
    - rewrite elem_of_app, list_elem_of_singleton.
      destruct (decide (p.1 = tabId)) as [Heq|Hne].
      + assert ((tabId, m) ∉ l) as Hnl.
        { intros Hin. apply (Hnin tabId).
          - apply list_elem_of_fmap. by exists (tabId, m).
          - cbn. rewrite Heq. by left. }
        unfold SessionDataCache.data_of, f. cbn.
        rewrite Heq, lookup_insert_eq. cbn. rewrite list_lookup_middle by done.
        destruct p as [id m']. cbn in *. subst id. split.
        * intros [= ->]. by right.
        * intros [?|[= ->]]; done.
      + rewrite <- Hdata. unfold SessionDataCache.data_of, f. cbn.
        rewrite lookup_insert_ne by done.
        destruct (SessionDataCache._storage c1 !! tabId) as [d|] eqn:Hd; cbn.
        * rewrite lookup_app_l by (by eapply Hwf).
          split; [by left|]. intros [?|Hp]; [done|]. subst p. by destruct Hne.
        * split; [done|]. intros [?|Hp]; [done|]. subst p. by destruct Hne. }
  intros Hnd. by apply H.
Qed.

Lemma option_ext {A} (x y : option A) : (∀ a, x = Some a ↔ y = Some a) → x = y.
Proof.
  intros H. destruct x as [a|].
  - symmetry. by apply H.
  - destruct y as [a|]; [|done]. by apply H.
Qed.

(** The copy that a cache is created from holds the values of the cache
    that was copied. *)
Lemma data_of_copy c (monitoredKeys : list string) (getTabData : bool) tabId :
  SessionDataCache.data_of
    (TabSessionDataCache_new (Some (deepCopy c)) monitoredKeys getTabData) tabId =
  SessionDataCache.data_of c tabId.
Proof.
  apply option_ext. intros m.
  rewrite data_of_initialStorage by apply NoDup_entries.
  apply elem_of_entries.
Qed.

(** X19. The marks outlive the session storage.  When the session storage is
    turned off while the module has a session cache and no temporary cache,
    the cache that [getCache()] returns from then on holds, for every tab,
    the values that the session cache held; this is so whether the keep
    time is negative (the session cache is freed at once) or not (it is
    freed later by the timer). *)
Theorem marks_outlive_session_storage (st : t) (c : SessionDataCache.t) (tabId : Z) :
  useSessionStorage st = true → sessionDataCache st = Some c →
  temporaryCache st = None →
  let st' := setUseSessionStorage false st in
  SessionDataCache.data_of (getCache st').1 tabId = SessionDataCache.data_of c tabId ∧
  temporaryCache (getCache st').2 = Some (getCache st').1 ∧
  SessionDataCache._isDisposed (getCache st').1 = false.
Proof.
  intros Hu Hc Htc st'. subst st'. unfold setUseSessionStorage.
  rewrite Hu, bool_decide_eq_false_2 by done.
  cbn [useSessionStorage sessionDataCache timeToKeepCacheInMilliseconds
       with_use with_timeout]. rewrite Hc.
  assert (∀ b, SessionDataCache._isDisposed
                 (TabSessionDataCache_new (Some (deepCopy c)) [kTAB_DATA_KEY_MARKED] b)
               = false) as Hlive.
  { intros b. unfold TabSessionDataCache_new. cbn [default].
    generalize (deepCopy c), (eq_refl : SessionDataCache._isDisposed
      (SessionDataCache.new [kTAB_DATA_KEY_MARKED] b) = false).
    generalize (SessionDataCache.new [kTAB_DATA_KEY_MARKED] b).
    intros c0 l. revert c0. induction l as [|p l IH]; intros c0 H0; [done|].
    cbn [foldl]. by apply IH. }
  destruct (timeToKeepCacheInMilliseconds st <? 0).
  - unfold removeSessionCache, getCache. cbn. rewrite Hc, Htc. cbn.
    split_and!; [apply data_of_copy|done|apply Hlive].
  - unfold getCache. cbn. rewrite Htc, Hc. cbn.
    split_and!; [apply data_of_copy|done|apply Hlive].
Qed.

(** The theorem at a module whose session cache holds the tabs 3, 7 and 12. *)
Lemma marks_outlive_session_storage_witness :
  let st := with_session (Some three_tabs) (with_use true init) in
  SessionDataCache.data_of (getCache (setUseSessionStorage false st)).1 3 =
  Some {["marked" := Str "red"]}.
Proof.
  intros st.
  exact (eq_trans
           (proj1 (marks_outlive_session_storage st three_tabs 3 eq_refl eq_refl eq_refl))
           eq_refl).
Defined.

(** X20. Freeing the session cache clears the session storage: a call of
    [browser.sessions.removeTabValue(tabId, key)] is made exactly for the
    keys that the entries of the session cache hold, and for nothing else. *)
Theorem removeSessionCache_clears_every_value (st : t) (c : SessionDataCache.t)
    (tabId : Z) (key : string) :
  useSessionStorage st = false → sessionDataCache st = Some c →
  let st' := removeSessionCache st in
  RemoveTabValue tabId key ∈ log st' ↔
  RemoveTabValue tabId key ∈ log st ∨
  ∃ m, SessionDataCache.data_of c tabId = Some m ∧ is_Some (m !! key).
Proof.
  intros Hu Hc st'. subst st'. unfold removeSessionCache. rewrite Hc, Hu.
  assert (log (getCache st).2 = log st) as Hlog.
  { unfold getCache. rewrite Hu. by destruct (temporaryCache st). }
  cbn [log with_log with_session with_released]. rewrite Hlog, elem_of_app.
  apply or_iff_compat_l. rewrite list_elem_of_In, in_flat_map. split.
  - intros ([id m] & Hin & Hk). apply list_elem_of_In, elem_of_entries in Hin.
    apply list_elem_of_In, list_elem_of_fmap in Hk as (k & [= -> ->] & Hk).
    exists m. split; [done|].
    apply list_elem_of_fmap in Hk as ([k' v] & -> & Hk).
    apply elem_of_map_to_list in Hk. by exists v.
  - intros (m & Hm & [v Hv]). exists (tabId, m). split.
    + by apply list_elem_of_In, elem_of_entries.
    + apply list_elem_of_In, list_elem_of_fmap. exists key. split; [done|].
      apply list_elem_of_fmap. exists (key, v). split; [done|].
      by apply elem_of_map_to_list.
Qed.

(** The theorem at a module whose session cache holds the tabs 3, 7 and 12. *)
Lemma removeSessionCache_clears_every_value_witness :
  let st := with_session (Some three_tabs) init in
  RemoveTabValue 12 "marked" ∈ log (removeSessionCache st) ∧
  RemoveTabValue 7 "marked" ∉ log (removeSessionCache st).
Proof.
  intros st. split.
  - apply (removeSessionCache_clears_every_value st three_tabs 12 "marked" eq_refl eq_refl).
    right. exists {["marked" := Str "blue"]}. split; [reflexivity|by eexists].
  - intros H.
    apply (removeSessionCache_clears_every_value st three_tabs 7 "marked" eq_refl eq_refl)
      in H as [H|(m & Hm & [v Hv])].
    + by apply elem_of_nil in H.
    + assert (m = ∅) as -> by (by injection Hm as <-). by rewrite lookup_empty in Hv.
Defined.

End TurnedOff.

(** ** The marks of the tabs: setting, removing and reading a mark *)
Section MarkAndUnmark.
Import JS MarkerTabData TabMarks.

Ltac not_in_list H :=
  repeat (apply elem_of_cons in H as [H|H]; [discriminate H|]);
  by apply elem_of_nil in H.

Ltac in_list := solve [repeat first [by left | right]].

(** X21. [createTabMark] never rejects.  It resolves with [false] exactly when
    its own [catch] logged an error, and then it fired no event; an error
    that [getTabMark] logged while the mark was read (the call is made for a
    known color when the session storage is not forced) changes nothing of
    that.  It fires the event of the session values only right after a call
    of [setTabValue] that was fulfilled, and the event of the marks only
    when it was asked to notify.  When the tab already has the color and the
    session storage is not forced, it does nothing and resolves with
    [true]. *)
Theorem createTabMark_reports_failure (E : mark_env) (tabId : Z) (color : string)
    (forceSetSessionData notifyChange : bool) :
  let r := createTabMark E tabId color forceSetSessionData notifyChange in
  let change := {| entryId := tabId; key := kTAB_DATA_KEY_MARKED;
                   newValue := Some color |} in
  (∃ b : bool, r.2 = Resolved b ∧
     (b = false ↔ LogError ∈ r.1) ∧
     (b = false → List.filter is_event r.1 = [])) ∧
  (FireSession change ∈ r.1 →
     setTabValue_fulfilled E = true ∧
     ∃ rest, r.1 = (if forceSetSessionData then []
                    else mark_read_log (getTabMark_result E)) ++
                   SetTabValue tabId kTAB_DATA_KEY_MARKED color ::
                   FireSession change :: rest) ∧
  (FireTemp change ∈ r.1 → notifyChange = true) ∧
  (LogErrorInGetTabMark ∈ r.1 ↔
     color ∈ Assoc.keys kCOLORS ∧ forceSetSessionData = false ∧
     getTabMark_result E = MarkUnread) ∧
  (color ∈ Assoc.keys kCOLORS → forceSetSessionData = false →
   getTabMark_result E = MarkIs (Some color) → r = ([], Resolved true)).
Proof.
  unfold createTabMark, createTabMark_try.
  destruct (decide (color ∈ Assoc.keys kCOLORS)) as [Hc|Hc].
  2: { rewrite bool_decide_eq_false_2 by done. cbn. split_and!; try done.
       - exists false. split_and!; [done| |done]. split; [intros _; by left|done].
       - intros H. not_in_list H.
       - intros H. not_in_list H.
       - split; [intros H; not_in_list H|by intros (? & _)]. }
  rewrite bool_decide_eq_true_2 by done. cbn [negb].
  destruct (getTabMark_result E) as [m|] eqn:HE; cbn [mark_read_value mark_read_log];
    [destruct (decide (m = Some color)) as [Hm|Hm];
       [rewrite bool_decide_eq_true_2 by done|rewrite bool_decide_eq_false_2 by done]
    |rewrite bool_decide_eq_false_2 by done];
    destruct forceSetSessionData, (useSessionStorage_then E),
      (setTabValue_fulfilled E), notifyChange; cbn;
      (split_and!;
       [first [ exists true; split_and!; [done|split; [done|intros H; not_in_list H]|done]
              | exists false; split_and!; [done|split; [intros _; in_list|done]|done] ]
       | first [ intros _; split; [done|by eexists] | intros H; not_in_list H ]
       | first [ done | intros H; not_in_list H ]
       | split; [first [ intros _; by split_and! | intros H; not_in_list H ]
                |first [ by intros (_ & ? & ?) | intros _; in_list ]]
       | first [ done | congruence ] ]).
Qed.

(** X22. [removeTabMark] for one tab never rejects; it resolves with [false]
    exactly when its own [catch] logged an error, and then it fired no
    event; an error that [getTabMark] logged while the mark was read (the
    call is made when the session storage is not forced) changes nothing of
    that.  For a tab that has no mark it does nothing and resolves with
    [true], unless the session storage is forced. *)
Theorem removeTabMark_reports_failure (E : unmark_env) (tabId : Z)
    (forceSetSessionData notifyChange : bool) :
  let r := removeTabMark E tabId forceSetSessionData notifyChange in
  (∃ b : bool, r.2 = Resolved b ∧
     (b = false ↔ LogError ∈ r.1) ∧
     (b = false ↔ (useSessionStorage_for E tabId || forceSetSessionData) = true ∧
                  removeTabValue_fulfilled E tabId = false ∧
                  (forceSetSessionData = true ∨
                   mark_read_value (mark_of E tabId) ≠ None)) ∧
     (b = false → List.filter is_event r.1 = [])) ∧
  (LogErrorInGetTabMark ∈ r.1 ↔
     forceSetSessionData = false ∧ mark_of E tabId = MarkUnread) ∧
  (forceSetSessionData = false → mark_of E tabId = MarkIs None →
   r = ([], Resolved true)).
Proof.
  unfold removeTabMark, removeTabMark_try.
  destruct (mark_of E tabId) as [[mark|]|] eqn:HE; cbn [mark_read_value mark_read_log];
    [rewrite bool_decide_eq_false_2 by done
    |rewrite bool_decide_eq_true_2 by done
    |rewrite bool_decide_eq_true_2 by done];
    destruct forceSetSessionData, (useSessionStorage_for E tabId),
      (removeTabValue_fulfilled E tabId), notifyChange; cbn;
      (split_and!;
       [first [ exists true; split_and!;
                  [done|split; [done|intros H; not_in_list H]
                  |split; [done|intros (? & ? & [?|?]); done]|done]
              | exists false; split_and!;
                  [done|split; [intros _; in_list|done]
                  |split; [intros _; split_and!; auto|done]|done] ]
       | split; [first [ intros _; by split_and! | intros H; not_in_list H ]
                |first [ by intros (? & ?) | intros _; in_list ]]
       | first [ done | congruence ] ]).
Qed.

Lemma removeTabMark_not_rejected E tabId force notify :
  is_rejected (removeTabMark E tabId force notify).2 = false.
Proof.
  unfold removeTabMark. by destruct (removeTabMark_try E tabId force notify) as [? [?|]].
Qed.

(** X23. [removeTabMark] for an array of tabs resolves with [true] whatever
    happens to the tabs, also when the removal fails for some of them (each
    failure is logged by the call for that tab and resolves that call with
    [false], which the call for the array does not look at); the effects
    for each tab are those of the call for that tab. *)
Theorem removeTabMarks_always_true (E : unmark_env) (tabIds : list Z)
    (forceSetSessionData notifyChange : bool) :
  removeTabMarks E tabIds forceSetSessionData notifyChange =
  (map (λ tabId, (removeTabMark E tabId forceSetSessionData notifyChange).1) tabIds,
   [], Resolved true).
Proof.
  unfold removeTabMarks.
  assert (existsb (λ r : list effect * outcome bool, is_rejected r.2)
            (map (λ tabId, removeTabMark E tabId forceSetSessionData notifyChange) tabIds)
          = false) as ->.
  { induction tabIds as [|tabId tabIds IH]; [done|].
    cbn [map existsb]. by rewrite removeTabMark_not_rejected, IH. }
  by rewrite map_map.
Qed.

(** A failed removal inside an array: the promise still resolves with
    [true]. *)
Example removeTabMarks_hides_failure :
  let E := UnmarkEnv (λ _, MarkIs (Some "red")) (λ _, true)
             (λ tabId, bool_decide (tabId ≠ 2)) in
  (removeTabMark E 2 false true).2 = Resolved false ∧
  (removeTabMarks E [1; 2; 3] false true).2 = Resolved true.
Proof. by vm_compute. Qed.

Lemma createTabMark_reports_failure_witness :
  let E := MarkEnv (MarkIs None) true true in
  let r := createTabMark E 1 "red" false true in
  let change := {| entryId := 1; key := kTAB_DATA_KEY_MARKED; newValue := Some "red" |} in
  setTabValue_fulfilled E = true ∧
  ∃ rest, r.1 = SetTabValue 1 kTAB_DATA_KEY_MARKED "red" :: FireSession change :: rest.
Proof.
  intros E r change.
  destruct (createTabMark_reports_failure E 1 "red" false true) as (_ & H & _).
  apply H. vm_compute. right. left.
Defined.

Lemma removeTabMark_reports_failure_witness :
  removeTabMark (UnmarkEnv (λ _, MarkIs None) (λ _, true) (λ _, true)) 1 false true
  = ([], Resolved true).
Proof.
  apply (removeTabMark_reports_failure
           (UnmarkEnv (λ _, MarkIs None) (λ _, true) (λ _, true)) 1 false true);
    reflexivity.
Defined.

End MarkAndUnmark.

(** ** The marks of the tabs: reading a mark *)
Section ReadMark.
Import JS MarkerTabData TabMarks.
Implicit Types (s : SessionDataCache.t).

(** X24. [getTabMark] never rejects.  When it resolves with a value, that value
    is truthy and is what the entry of the tab holds under "marked".  For a
    tab that the cache does not know, and when [getCache()] throws, it logs
    an error and resolves with [null]. *)
Theorem getTabMark_never_rejects (tabId : Z) (getCache_returns : bool)
    (s s' : SessionDataCache.t) :
  let r := getTabMark tabId getCache_returns s s' in
  r.2 ≠ Rejected ∧
  (∀ v, r.2 = Resolved (Some v) →
        truthy v = true ∧ r.1 = [] ∧
        ∃ data m, SessionDataCache._storage s !! tabId = Some data ∧
                  SessionDataCache.objects s' !! data = Some m ∧
                  m !! kTAB_DATA_KEY_MARKED = Some v) ∧
  (getCache_returns = false ∨
   (is_Some (SessionDataCache.start s) ∧ SessionDataCache._storage s !! tabId = None) →
   r = ([LogErrorInGetTabMark], Resolved None)).
Proof.
  unfold getTabMark, getDataForEntryId.
  destruct getCache_returns; cbn zeta.
  2: { split_and!; [done|done|done]. }
  destruct (SessionDataCache.start s) as [ok|] eqn:Hstart.
  2: { split_and!; [done|done|]. intros [?|[[? ?] _]]; done. }
  destruct (SessionDataCache._storage s !! tabId) as [data|] eqn:Hst.
  2: { split_and!; [done|done|done]. }
  destruct (if bool_decide (data ∈ SessionDataCache._asyncStorage s)
            then default SessionDataCache.Fulfilled (SessionDataCache.hydration s' !! data)
            else SessionDataCache.Fulfilled).
  1, 3: split_and!; [done|done|]; intros [?|[_ ?]]; done.
  destruct (SessionDataCache.objects s' !! data) as [m|] eqn:Hm.
  2: { split_and!; [done|done|]. intros [?|[_ ?]]; done. }
  destruct (m !! kTAB_DATA_KEY_MARKED) as [v|] eqn:Hv; cbn.
  - destruct (truthy v) eqn:Htr; cbn.
    + split_and!; [done| |intros [?|[_ ?]]; done].
      intros v' [= <-]. split_and!; [done|done|]. by exists data, m.
    + split_and!; [done|done|]. intros [?|[_ ?]]; done.
  - split_and!; [done|done|]. intros [?|[_ ?]]; done.
Qed.

(** X25. [getMarkedTabIds] and [getTabMark] agree: on a started cache whose
    entries have their values, the id of a tab is in the array that
    [getMarkedTabIds] resolves with exactly when [getTabMark] resolves with
    a mark for the tab. *)
Theorem marked_ids_are_the_tabs_with_a_mark (s : SessionDataCache.t) (st : t)
    (tabId : Z) (ids : list string) :
  is_Some (SessionDataCache.start s) →
  (∀ data, data ∈ SessionDataCache._asyncStorage s →
           SessionDataCache.hydration s !! data = Some SessionDataCache.Fulfilled) →
  (getMarkedTabIds (IdsEnv true (Some true) s) st).1 = Resolved (Some ids) →
  pretty tabId ∈ ids ↔ ∃ v, (getTabMark tabId true s s).2 = Resolved (Some v).
Proof.
  intros [ok Hstart] Hhyd Hids. unfold getMarkedTabIds in Hids. cbn in Hids.
  injection Hids as <-.
  rewrite list_elem_of_In, in_map_iff.
  assert ((∃ x : Z * gmap string value,
             pretty x.1 = pretty tabId ∧
             In x (List.filter (λ p, isMarked p.2) (entries s))) ↔
          ∃ m, SessionDataCache.data_of s tabId = Some m ∧ isMarked m = true) as ->.
  { split.
    - intros ([id m] & Heq & Hin). apply (inj pretty) in Heq. cbn in Heq. subst id.
      apply filter_In in Hin as [Hin Hm]. exists m. split; [|done].
      by apply elem_of_entries, list_elem_of_In.
    - intros (m & Hdata & Hm). exists (tabId, m). split; [done|].
      apply filter_In. split; [|done]. by apply list_elem_of_In, elem_of_entries. }
  unfold getTabMark, getDataForEntryId, SessionDataCache.data_of, isMarked.
  rewrite Hstart.
  destruct (SessionDataCache._storage s !! tabId) as [data|] eqn:Hst; cbn.
  2: { split; [by intros (? & ? & _)|by intros [? ?]]. }
  assert ((if bool_decide (data ∈ SessionDataCache._asyncStorage s)
           then default SessionDataCache.Fulfilled (SessionDataCache.hydration s !! data)
           else SessionDataCache.Fulfilled) = SessionDataCache.Fulfilled) as ->.
  { case_bool_decide; [|done]. by rewrite Hhyd. }
  destruct (SessionDataCache.objects s !! data) as [m|] eqn:Hm; cbn.
  2: { split; [by intros (? & ? & _)|by intros [? ?]]. }
  destruct (truthy (default Undefined (m !! kTAB_DATA_KEY_MARKED))) eqn:Htr.
  - split; [by eexists|]. intros _. by exists m.
  - split; [|by intros [? ?]]. intros (m' & [= <-] & ?). congruence.
Qed.

(** The theorem at the cache of the tabs 3, 7 and 12. *)
Lemma marked_ids_are_the_tabs_with_a_mark_witness :
  (pretty 12 ∈ ["3"; "12"] ↔
   ∃ v, (getTabMark 12 true three_tabs three_tabs).2 = Resolved (Some v)) ∧
  (pretty 7 ∈ ["3"; "12"] ↔
   ∃ v, (getTabMark 7 true three_tabs three_tabs).2 = Resolved (Some v)).
Proof.
  assert (∀ data, data ∈ SessionDataCache._asyncStorage three_tabs →
            SessionDataCache.hydration three_tabs !! data =
            Some SessionDataCache.Fulfilled) as Hhyd.
  { intros data Hin. exfalso. revert Hin. apply not_elem_of_empty. }
  split.
  - exact (marked_ids_are_the_tabs_with_a_mark three_tabs init 12 ["3"; "12"]
             ltac:(by eexists) Hhyd eq_refl).
  - exact (marked_ids_are_the_tabs_with_a_mark three_tabs init 7 ["3"; "12"]
             ltac:(by eexists) Hhyd eq_refl).
Defined.

Lemma getTabMark_never_rejects_witness :
  let r := getTabMark 3 true three_tabs three_tabs in
  r.2 = Resolved (Some (Str "red")) ∧ truthy (Str "red") = true ∧ r.1 = [].
Proof.
  intros r.
  assert (r.2 = Resolved (Some (Str "red"))) as Hr by (by vm_compute).
  destruct (getTabMark_never_rejects 3 true three_tabs three_tabs) as (_ & H & _).
  destruct (H (Str "red") Hr) as (H1 & H2 & _).
  split; [exact Hr|split; [exact H1|exact H2]].
Defined.

End ReadMark.

(** ** The commands: toggling a color *)
Section Toggle.
Import MarkerTabData TabCommands.

Lemma filter_all {A} (l : list A) : List.filter (λ _, true) l = l.
Proof. induction l as [|x l IH]; [done|]. cbn. by rewrite IH. Qed.

Lemma filter_length_lt {A} (p : A → bool) (l : list A) :
  (length (List.filter p l) < length l)%nat ↔ ∃ x, x ∈ l ∧ p x = false.
Proof.
  induction l as [|x l IH]; cbn.
  - split; [lia|]. by intros (x & ?%elem_of_nil & _).
  - pose proof (List.filter_length_le p l) as Hle.
    destruct (p x) eqn:Hp; cbn.
    + rewrite <- Nat.succ_lt_mono, IH. split.
      * intros (y & Hin & Hy). exists y. split; [by right|done].
      * intros (y & [->|Hin]%elem_of_cons & Hy); [congruence|]. by exists y.
    + split; [|lia]. intros _. exists x. split; [by left|done].
Qed.

(** X26. The command that toggles a color, when the extension is enabled and
    the color is known: it removes the mark of every given tab when all of
    them have that color (also when there is no tab at all), and otherwise
    it marks every given tab with the color, those that have it included.
    A color that is not known makes the promise of the command reject; a
    disabled extension or no tabs make it return at once. *)
Theorem toggleTabColor_marks_unless_all_marked (enabled : bool)
    (tabs : option (list Z)) (colorToToggle : string) (getTabMark : Z → option string) :
  let r := toggleTabColor enabled tabs colorToToggle getTabMark in
  (enabled = false ∨ tabs = None → r = Nothing) ∧
  (∀ tabIds, enabled = true → tabs = Some tabIds →
     (colorToToggle ∉ Assoc.keys kCOLORS → r = Fails) ∧
     (colorToToggle ∈ Assoc.keys kCOLORS →
        ((∀ tabId, tabId ∈ tabIds → getTabMark tabId = Some colorToToggle) →
         r = UnmarkAll tabIds) ∧
        ((∃ tabId, tabId ∈ tabIds ∧ getTabMark tabId ≠ Some colorToToggle) →
         r = MarkAll tabIds colorToToggle))).
Proof.
  unfold toggleTabColor. split.
  - intros [->| ->]; [by destruct tabs|done].
  - intros tabIds -> ->. cbn [negb]. split.
    + intros Hc. by rewrite bool_decide_eq_false_2.
    + intros Hc. rewrite bool_decide_eq_true_2 by done. cbn [negb].
      rewrite filter_all.
      set (p := λ state : option string, bool_decide (state = Some colorToToggle)).
      split.
      * intros Hall. destruct (Nat.ltb_spec (length (List.filter p (map getTabMark tabIds)))
                                 (length (map getTabMark tabIds))) as [Hlt|Hge]; [|done].
        apply filter_length_lt in Hlt as (x & Hin & Hx).
        apply list_elem_of_In, in_map_iff in Hin as (tabId & <- & Hin).
        apply list_elem_of_In, Hall in Hin. unfold p in Hx.
        by rewrite bool_decide_eq_true_2 in Hx.
      * intros (tabId & Hin & Hne).
        destruct (Nat.ltb_spec (length (List.filter p (map getTabMark tabIds)))
                    (length (map getTabMark tabIds))) as [Hlt|Hge]; [done|].
        exfalso. apply Nat.le_ngt in Hge. apply Hge, filter_length_lt.
        exists (getTabMark tabId). split.
        -- apply list_elem_of_In, in_map_iff. exists tabId. split; [done|].
           by apply list_elem_of_In.
        -- unfold p. by rewrite bool_decide_eq_false_2.
Qed.

(** The theorem at three tabs of which one is red, for the color "red". *)
Lemma toggleTabColor_marks_unless_all_marked_witness :
  toggleTabColor true (Some [1; 2; 3]) "red"
    (λ tabId, if bool_decide (tabId = 2) then Some "red" else None)
  = MarkAll [1; 2; 3] "red".
Proof.
  apply (toggleTabColor_marks_unless_all_marked true (Some [1; 2; 3]) "red"
           (λ tabId, if bool_decide (tabId = 2) then Some "red" else None));
    [reflexivity|reflexivity|apply (bool_decide_eq_true_1 _); reflexivity|].
  exists 1. split; [by left|done].
Defined.

End Toggle.

(** ** The marks as classes of Tree Style Tab *)
Section MarkListener.
Import MarkerTabData CustomStateCache StateSync.
Implicit Types (c : CustomStateCache.t).

Lemma class_name_inj (statePrefix a b : string) :
  statePrefix +:+ a = statePrefix +:+ b → a = b.
Proof. apply (inj (String.app statePrefix)). Qed.

Lemma substring_append_suffix (p a : string) :
  String.substring (String.length p) (String.length a) (p +:+ a) = a.
Proof.
  induction p as [|ch p IH]; cbn; [|exact IH].
  change ("" +:+ a) with a.
  induction a as [|ch a IHa]; [done|]. cbn. by rewrite IHa.
Qed.

Lemma string_length_append (p a : string) :
  String.length (p +:+ a) = (String.length p + String.length a)%nat.
Proof.
  induction p as [|ch p IH]; [done|].
  change (S (String.length (p +:+ a)) = S (String.length p + String.length a)).
  by rewrite IH.
Qed.

(** No name of a member of [Object.prototype] ends with the name of a
    color, so that no class of a color is such a name, whatever the prefix. *)
Lemma class_name_not_inherited (statePrefix color : string) :
  color ∈ Assoc.keys kCOLORS → inherited (statePrefix +:+ color) = false.
Proof.
  intros Hc. apply not_true_is_false. unfold inherited.
  intros (name & Hname & Heq)%existsb_exists. apply String.eqb_eq in Heq.
  assert (forallb (λ name,
            forallb (λ color,
              negb (String.eqb
                      (String.substring (String.length name - String.length color)
                         (String.length color) name) color))
              (Assoc.keys kCOLORS)) Object_prototype = true) as Hcheck
    by reflexivity.
  rewrite forallb_forall in Hcheck. specialize (Hcheck name Hname).
  rewrite forallb_forall in Hcheck.
  specialize (Hcheck color (proj1 (list_elem_of_In _ _) Hc)).
  apply negb_true_iff, String.eqb_neq in Hcheck. apply Hcheck.
  rewrite <- Heq, string_length_append.
  replace (String.length statePrefix + String.length color - String.length color)%nat
    with (String.length statePrefix) by lia.
  apply substring_append_suffix.
Qed.

Lemma set_colors statePrefix args (colors : list string) c :
  isDisposed c = false → NoDup colors →
  (∀ color, color ∈ colors →
     allowed c (statePrefix +:+ color) = true ∧
     inherited (statePrefix +:+ color) = false) →
  let c' := foldl (λ c color,
                     (set (entryId args) (statePrefix +:+ color)
                        (bool_decide (Some color = newValue args)) c).2) c colors in
  opsList c' = opsList c ++ (listener_op statePrefix args c <$> colors) ∧
  _classNames c' = _classNames c ∧ isDisposed c' = false ∧
  mirrorLog c' = mirrorLog c ∧ startLog c' = startLog c ∧
  (∀ t st, belief c' t st = belief c t st).
Proof.
  revert c. induction colors as [|color colors IH]; intros c Hd Hnd Hall.
  { cbn. by rewrite app_nil_r. }
  apply NoDup_cons in Hnd as [Hnin Hnd]. cbn [foldl].
  set (f := λ c color, (set _ _ _ c).2) in *.
  unfold set.
  destruct (queueOp_cases (entryId args) (statePrefix +:+ color)
              (OpSet (bool_decide (Some color = newValue args))) c)
    as [[[?|Ha] _]|[(_ & _ & Hf & _)|
        (_ & _ & _ & c1 & -> & Hc1 & Hd1 & Hm1 & Hs1 & Hol1 & Ht1 & Hb1)]].
  { congruence. }
  { destruct (Hall color) as [Ha' _]; [by left|]. congruence. }
  { destruct (Hall color) as [_ Hi]; [by left|].
    rewrite (not_inherited_not_foreign _ _ Hi) in Hf. done. }
  cbn [snd]. rewrite Hd in Hd1.
  destruct (IH c1 Hd1 Hnd) as (Hol & Hc & Hd' & Hm & Hs & Hb).
  { intros col Hin. destruct (Hall col) as [Ha' Hi']; [by right|]. split; [|done].
    unfold allowed in *. by rewrite Hc1. }
  cbn zeta. split_and!.
  2: by rewrite Hc.
  2: done.
  2: by rewrite Hm.
  2: by rewrite Hs.
  - rewrite Hol, Hol1, <- app_assoc. cbn. do 2 f_equal.
    apply list_fmap_ext. intros i col Hi. unfold listener_op. f_equal.
    rewrite Ht1, decide_False; [done|].
    intros [= Heq%class_name_inj]. subst col.
    apply Hnin. by eapply list_elem_of_lookup_2.
  - intros t st. by rewrite Hb.
Qed.

Lemma count_color (v : string) (l : list string) :
  NoDup l →
  length (List.filter (λ color, bool_decide (Some color = Some v)) l) =
  if bool_decide (v ∈ l) then 1%nat else 0%nat.
Proof.
  induction l as [|x l IH]; [done|].
  rewrite NoDup_cons. intros [Hnin Hnd]. cbn [List.filter].
  destruct (decide (x = v)) as [->|Hne].
  - rewrite (bool_decide_eq_true_2 (Some v = Some v)) by done.
    cbn [length]. rewrite (IH Hnd).
    rewrite (bool_decide_eq_false_2 (v ∈ l)) by done.
    rewrite (bool_decide_eq_true_2 (v ∈ v :: l)); [done|by left].
  - rewrite (bool_decide_eq_false_2 (Some x = Some v)) by congruence.
    rewrite (IH Hnd). destruct (decide (v ∈ l)) as [Hin|Hnin'].
    + rewrite !bool_decide_eq_true_2; [done|by right|done].
    + rewrite !bool_decide_eq_false_2; [done| |done].
      rewrite not_elem_of_cons. split; [congruence|done].
Qed.

(** X27. The listener of the marks.  On a live cache that was created for the
    classes of a prefix, a change of the mark of a tab queues one call of
    [set] for each of the nine colors, in their order: with [true] for the
    class of the new color and with [false] for all the others (all of
    them, when the mark was removed); it sends nothing itself and leaves
    what the cache believes as it is.  A change of another key does
    nothing. *)
Theorem markChanged_sets_every_class (statePrefix : string)
    (args : SessionDataChangeInfo) (c : CustomStateCache.t) :
  isDisposed c = false → _classNames c = Some (classNames statePrefix) →
  let c' := markChanged statePrefix args c in
  (key args ≠ kTAB_DATA_KEY_MARKED → c' = c) ∧
  (key args = kTAB_DATA_KEY_MARKED →
     opsList c' =
       opsList c ++ (listener_op statePrefix args c <$> Assoc.keys kCOLORS) ∧
     mirrorLog c' = mirrorLog c ∧
     (∀ t st, belief c' t st = belief c t st) ∧
     length (List.filter (λ color, bool_decide (Some color = newValue args))
               (Assoc.keys kCOLORS)) =
       if bool_decide (newValue args ∈ Some <$> Assoc.keys kCOLORS) then 1%nat else 0%nat).
Proof.
  intros Hd Hcn c'. subst c'. unfold markChanged. split.
  - intros Hk. apply String.eqb_neq in Hk. by rewrite Hk.
  - intros Hk. rewrite Hk, String.eqb_refl. cbn [negb].
    destruct (set_colors statePrefix args (Assoc.keys kCOLORS) c Hd)
      as (H1 & _ & _ & H4 & _ & H6).
    { by apply (bool_decide_unpack _). }
    { intros color Hin. split; [|by apply class_name_not_inherited].
      unfold allowed. rewrite Hcn. apply andb_true_intro. split.
      - apply negb_true_iff, String.eqb_neq. intros Heq.
        destruct statePrefix as [|a p].
        * change ("" +:+ color) with color in Heq. rewrite Heq in Hin.
          revert Hin. by apply (bool_decide_eq_false_1 _).
        * change (String a p +:+ color) with (String a (p +:+ color)) in Heq.
          discriminate Heq.
      - apply bool_decide_eq_true_2. unfold classNames.
        apply list_elem_of_In, in_map, list_elem_of_In, Hin. }
    split_and!; [done|done|done|].
    destruct (newValue args) as [v|].
    + rewrite count_color by (by apply (bool_decide_unpack _)).
      destruct (decide (v ∈ Assoc.keys kCOLORS)) as [Hin|Hnin].
      * rewrite !bool_decide_eq_true_2; [done| |done]. by apply list_elem_of_fmap_2.
      * rewrite !bool_decide_eq_false_2; [done| |done].
        by intros (x & [= ->] & Hx)%list_elem_of_fmap.
    + rewrite bool_decide_eq_false_2.
      * generalize (Assoc.keys kCOLORS). intros l.
        induction l as [|x l IH]; [done|]. cbn [List.filter].
        by rewrite bool_decide_eq_false_2.
      * by intros (x & ? & Hx)%list_elem_of_fmap.
Qed.

(** The theorem at a new cache for the prefix "marked-", when tab 4 is
    marked green. *)
Lemma markChanged_sets_every_class_witness :
  let c := new (Some (classNames "marked-")) in
  let args := {| entryId := 4; key := "marked"; newValue := Some "green" |} in
  opsList (markChanged "marked-" args c) =
  listener_op "marked-" args c <$> Assoc.keys kCOLORS.
Proof.
  intros c args.
  destruct (markChanged_sets_every_class "marked-" args c eq_refl eq_refl) as [_ H].
  destruct (H eq_refl) as (H1 & _). exact H1.
Defined.

End MarkListener.
